(** * KaliFinder search widget: search/filter state engine

    A shallow embedding of the state-management core of
    [src/components/KalifindSearch.tsx]: facet-bucket reconciliation,
    the request sequencer ([performSearch], [loadMoreProducts]), the
    zero-result fallback, the search effect with its de-duplication
    guard, the price-range effects and the recent-searches list.

    React state is modelled by records, one field per [useState] cell or
    [useRef] the engine reads or writes; an [async] function is split at
    its [await]s into one transition per resumption, the values it closed
    over being carried by the pending request. *)

From stdpp Require Import base gmap strings list pretty.
From Stdlib Require Import ZArith QArith Qround Lia.

Open Scope Z_scope.

(** ** JavaScript strings

    A string is its sequence of UTF-16 code units. The model covers the
    strings whose code units are below 256, one [ascii] per code unit, so
    that [String.length] is the [length] property. *)
Module JsString.

Definition code (c : Ascii.ascii) : N := Ascii.N_of_ascii c.

(** [toLowerCase] on one code unit: A-Z, and the Latin-1 capitals
    U+00C0..U+00DE except the multiplication sign U+00D7. *)
Definition lowerUnit (c : Ascii.ascii) : Ascii.ascii :=
  let n := code c in
  if ((65 <=? n) && (n <=? 90))%N then Ascii.ascii_of_N (n + 32)
  else if ((192 <=? n) && (n <=? 222) && negb (n =? 215))%N
       then Ascii.ascii_of_N (n + 32)
  else c.

Fixpoint toLowerCase (s : string) : string :=
  match s with
  | EmptyString => EmptyString
  | String c r => String (lowerUnit c) (toLowerCase r)
  end.

(** White space removed by [trim]: TAB, LF, VT, FF, CR, SPACE, NBSP. *)
Definition isWhiteSpace (c : Ascii.ascii) : bool :=
  let n := code c in
  (((9 <=? n) && (n <=? 13)) || (n =? 32) || (n =? 160))%N.

Fixpoint trimStart (s : string) : string :=
  match s with
  | EmptyString => EmptyString
  | String c r => if isWhiteSpace c then trimStart r else s
  end.

(** [trimEnd] keeps a code unit when it is not white space or when
    something remains after it. *)
Fixpoint trimEnd (s : string) : string :=
  match s with
  | EmptyString => EmptyString
  | String c r =>
      match trimEnd r with
      | EmptyString => if isWhiteSpace c then EmptyString else String c EmptyString
      | r' => String c r'
      end
  end.

Definition trim (s : string) : string := trimEnd (trimStart s).

(** [s.replace(' ', '-')]: a string pattern replaces the first
    occurrence only. *)
Fixpoint replaceFirst (from to : Ascii.ascii) (s : string) : string :=
  match s with
  | EmptyString => EmptyString
  | String c r =>
      if Ascii.eqb c from then String to r else String c (replaceFirst from to r)
  end.

(** [xs.join(sep)]. *)
Definition join (sep : string) (xs : list string) : string := String.concat sep xs.

(** Truthiness of a string: non-empty. *)
Definition truthy (s : string) : bool :=
  match s with EmptyString => false | _ => true end.

Definition eqb (a b : string) : bool := String.eqb a b.

End JsString.

(** ** Plain objects used as count maps

    The count maps ([categoryCounts], [brandCounts], [tagCounts],
    [stockStatusCounts]) are objects created by [{}], written by
    [counts[key] = n] and read by [counts[key] || 0]. A [gmap] holds
    their own properties; what they inherit from [Object.prototype] is
    added on reading. *)
Module JsObject.
Import JsString.

(** The property names of [Object.prototype]. *)
Definition objectPrototype : list string :=
  [ "constructor"; "__defineGetter__"; "__defineSetter__"; "hasOwnProperty";
    "__lookupGetter__"; "__lookupSetter__"; "isPrototypeOf";
    "propertyIsEnumerable"; "toString"; "valueOf"; "__proto__";
    "toLocaleString" ].

Definition inherited (key : string) : bool :=
  existsb (eqb key) objectPrototype.

(** [counts[key] = n] for a number [n]: an own property is created or
    overwritten, except under [__proto__], whose inherited setter
    ignores a value that is neither an object nor [null]. *)
Definition assign (key : string) (n : Z) (counts : gmap string Z)
  : gmap string Z :=
  if eqb key "__proto__" then counts else <[key := n]> counts.

(** What [counts[key] || 0] evaluates to: a number, or the value
    inherited under [key] (a function, or the prototype itself under
    [__proto__]), which is truthy and not a number. *)
Inductive CountValue :=
| Count (n : Z)
| InheritedProperty (key : string).

Definition orZero (counts : gmap string Z) (key : string) : CountValue :=
  match counts !! key with
  | Some n => Count n
  | None => if inherited key then InheritedProperty key else Count 0
  end.

End JsObject.

(** ** Facet buckets *)
Module Facets.
Import JsString JsObject.

(** [FacetBucket['key']] after [extractFacetBuckets]: a string, a
    number, a boolean, or [null]. Numeric keys and counts are modelled by
    integers. *)
Inductive BucketKey :=
| KeyString (s : string)
| KeyNumber (n : Z)
| KeyBoolean (b : bool)
| KeyNull.

Record FacetBucket := mkBucket {
  key : BucketKey;
  key_as_string : option string;
  doc_count : Z
}.

(** What the backend sent for one bucket, before validation.
    [raw_key = None] is an [undefined] key; [raw_doc_count] is [Some n]
    when the field converts to the finite number [n] and [None] when it
    is absent, [null] or does not convert to a finite number. *)
Record RawBucket := mkRaw {
  raw_key : option BucketKey;
  raw_key_as_string : option string;
  raw_doc_count : option Z
}.

Inductive RawEntry :=
| NotAnObject
| BucketObject (b : RawBucket).

(** The [unknown] value found under a facet name. *)
Inductive RawFacet :=
| FacetAbsent
| FacetWithoutBucketArray
| FacetBuckets (entries : list RawEntry).

Definition extractBucket (e : RawEntry) : option FacetBucket :=
  match e with
  | NotAnObject => None
  | BucketObject b =>
      Some {| key := match raw_key b with
                     | Some k => k
                     | None => KeyString (default EmptyString (raw_key_as_string b))
                     end;
              key_as_string := raw_key_as_string b;
              doc_count := default 0 (raw_doc_count b) |}
  end.

Definition extractFacetBuckets (facet : RawFacet) : list FacetBucket :=
  match facet with
  | FacetAbsent => []
  | FacetWithoutBucketArray => []
  | FacetBuckets entries => omap extractBucket entries
  end.

Definition keyAsStringOr (b : FacetBucket) (dflt : string) : string :=
  match key_as_string b with
  | Some s => if truthy s then s else dflt
  | None => dflt
  end.

Definition getFacetBucketKey (bucket : FacetBucket) : string :=
  match key bucket with
  | KeyString s => s
  | KeyNumber n => keyAsStringOr bucket (pretty n)
  | KeyBoolean b => keyAsStringOr bucket (if b then "true" else "false")
  | KeyNull => default EmptyString (key_as_string bucket)
  end.

(** The two recognised spellings of each truth value, after
    [toLowerCase]. *)
Definition booleanOfNormalized (normalized : string) : option bool :=
  if eqb normalized "1" || eqb normalized "true" then Some true
  else if eqb normalized "0" || eqb normalized "false" then Some false
  else None.

(** Last resort of [resolveBooleanFacetValue]: the [key_as_string]. *)
Definition resolveFromKeyAsString (bucket : FacetBucket) : option bool :=
  match key_as_string bucket with
  | Some s => if truthy s then booleanOfNormalized (toLowerCase s) else None
  | None => None
  end.

(** [null] of the source is [None]. *)
Definition resolveBooleanFacetValue (bucket : FacetBucket) : option bool :=
  match key bucket with
  | KeyBoolean b => Some b
  | KeyNumber n =>
      if n =? 1 then Some true
      else if n =? 0 then Some false
      else resolveFromKeyAsString bucket
  | KeyString s =>
      match booleanOfNormalized (toLowerCase s) with
      | Some b => Some b
      | None => resolveFromKeyAsString bucket
      end
  | KeyNull => resolveFromKeyAsString bucket
  end.

(** The loop of [fetchGlobalFacets] over the buckets of a boolean facet
    ([featured], [insale]): the pair (count for true, count for false),
    both starting at 0; a bucket that resolves to [null] assigns
    nothing. *)
Definition countBooleanBucket (acc : Z * Z) (bucket : FacetBucket) : Z * Z :=
  match resolveBooleanFacetValue bucket with
  | Some true => (doc_count bucket, snd acc)
  | Some false => (fst acc, doc_count bucket)
  | None => acc
  end.

Definition countBooleanBuckets (buckets : list FacetBucket) : Z * Z :=
  foldl countBooleanBucket (0, 0) buckets.

(** The loop building [categoryCounts], [brandCounts] and [tagCounts]:
    [counts[key] = bucket.doc_count], buckets with an empty key
    skipped. *)
Definition countKeyedBucket (counts : gmap string Z) (bucket : FacetBucket)
  : gmap string Z :=
  let k := getFacetBucketKey bucket in
  if truthy k then assign k (doc_count bucket) counts else counts.

Definition countKeyedBuckets (buckets : list FacetBucket) : gmap string Z :=
  foldl countKeyedBucket ∅ buckets.

(** The loop building the colour and size option lists. *)
Definition keysOfBuckets (buckets : list FacetBucket) : list string :=
  filter (λ k, truthy k = true) (getFacetBucketKey <$> buckets).

End Facets.

(** ** The filter store *)
Module Filters.
Import JsString.

(** [filters] of the [useFilters] hook, as the component reads it:
    eight string arrays and the [priceRange] pair. *)
Record FilterState := mkFilters {
  categories : list string;
  brands : list string;
  colors : list string;
  sizes : list string;
  tags : list string;
  stockStatus : list string;
  featuredProducts : list string;
  saleStatus : list string;
  priceRange : Z * Z
}.

(** Modelled from the spec: [updateFilter] of hooks/useFilters, which is
    not among the sources; "wholesale replace (used for priceRange)". Only
    the [priceRange] instance is called by the component. *)
Definition updateFilter_priceRange (value : Z * Z) (f : FilterState) : FilterState :=
  {| categories := categories f; brands := brands f; colors := colors f;
     sizes := sizes f; tags := tags f; stockStatus := stockStatus f;
     featuredProducts := featuredProducts f; saleStatus := saleStatus f;
     priceRange := value |}.

(** Modelled from the spec: [resetPriceRange] of hooks/useFilters, which
    is not among the sources; "re-clamp priceRange to [0, maxPrice]
    only". *)
Definition resetPriceRange (maxPrice : Z) (f : FilterState) : FilterState :=
  updateFilter_priceRange (0, maxPrice) f.

(** Modelled from the spec: [clearFilters] of hooks/useFilters, which is
    not among the sources; "reset every dimension to empty/default,
    priceRange to [0, currentMaxPrice]". *)
Definition clearFilters (currentMaxPrice : Z) (_ : FilterState) : FilterState :=
  {| categories := []; brands := []; colors := []; sizes := []; tags := [];
     stockStatus := []; featuredProducts := []; saleStatus := [];
     priceRange := (0, currentMaxPrice) |}.

Definition nonEmpty {A} (l : list A) : bool :=
  match l with [] => false | _ => true end.

(** [hasActiveFilters] of [performSearch] and [hasActiveNonPriceFilters]
    of the filtered-max-price effect: the same disjunction over the
    eight array dimensions. *)
Definition hasActiveNonPriceFilters (f : FilterState) : bool :=
  nonEmpty (categories f) || nonEmpty (brands f) || nonEmpty (colors f)
  || nonEmpty (sizes f) || nonEmpty (tags f) || nonEmpty (stockStatus f)
  || nonEmpty (featuredProducts f) || nonEmpty (saleStatus f).

Definition includes (x : string) (l : list string) : bool :=
  existsb (eqb x) l.

(** The [featured] request parameter. *)
Definition featuredParam (f : FilterState) : option string :=
  if nonEmpty (featuredProducts f) then
    if includes "Featured" (featuredProducts f)
       && negb (includes "Not Featured" (featuredProducts f)) then Some "true"
    else if includes "Not Featured" (featuredProducts f)
            && negb (includes "Featured" (featuredProducts f)) then Some "false"
    else None
  else None.

(** The [insale] request parameter. *)
Definition inSaleParam (f : FilterState) : option string :=
  if nonEmpty (saleStatus f) then
    if includes "On Sale" (saleStatus f)
       && negb (includes "Not On Sale" (saleStatus f)) then Some "true"
    else if includes "Not On Sale" (saleStatus f)
            && negb (includes "On Sale" (saleStatus f)) then Some "false"
    else None
  else None.

Definition whenNonEmpty (l : list string) : option (list string) :=
  if nonEmpty l then Some l else None.

End Filters.

(** ** Products, requests and responses *)
Module Api.
Import JsString Facets Filters.

(** The fields of [Product] the engine reads. [storeUrl = None] is a
    missing or empty [storeUrl]; the prices are the numeric
    [currentPrice] and [originalPrice] ([None]: absent). *)
Record Product := mkProduct {
  id : string;
  title : string;
  storeUrl : option string;
  currentPrice : option Q;
  originalPrice : option Q
}.

(** [{ ...product, storeUrl: product.storeUrl || storeUrl }]. *)
Definition withStoreUrl (componentStoreUrl : string) (p : Product) : Product :=
  {| id := id p; title := title p;
     storeUrl := Some (default componentStoreUrl (storeUrl p));
     currentPrice := currentPrice p; originalPrice := originalPrice p |}.

(** [result.facets]. *)
Record FacetsPayload := mkFacets {
  f_category : RawFacet;
  f_brand : RawFacet;
  f_color : RawFacet;
  f_size : RawFacet;
  f_tag : RawFacet;
  f_instock : RawFacet;
  f_featured : RawFacet;
  f_insale : RawFacet;
  f_price_stats_max : option Q
}.

(** A value for which the type guard [isSearchResponse] holds. Optional
    fields that the code defaults with [||] carry the default when
    absent ([total]: 0, [hasMore], [showingRecommended]: false). *)
Record SearchResponse := mkResponse {
  products : list Product;
  total : Z;
  hasMore : bool;
  message : option string;
  showingRecommended : bool;
  query_id : option string;
  facets : option FacetsPayload;
  currency : option string
}.

(** What [searchService.searchProducts] resolves to. *)
Inductive ApiResult :=
| IsSearchResponse (r : SearchResponse)
| BareArray (items : list Product)
| Unexpected.

(** What it rejects with. *)
Inductive ApiError :=
| AbortError
| OtherError.

(** [SearchParams]. *)
Record SearchParams := mkParams {
  q : string;
  sp_storeUrl : string;
  page : Z;
  limit : Z;
  sp_categories : option (list string);
  sp_colors : option (list string);
  sp_sizes : option (list string);
  sp_brands : option (list string);
  sp_tags : option (list string);
  sp_stockStatus : option (list string);
  sp_priceRange : option (Z * Z);
  insale : option string;
  featured : option string;
  sort : option string
}.

(** The numeric prices of a page, as the two price scans collect them:
    [p.currentPrice ?? p.originalPrice], kept when a number above 0. (The
    scan of [fetchGlobalFacets] also falls back on [p.price], a string,
    which the [typeof] filter drops.) *)
Definition productPrices (ps : list Product) : list Q :=
  omap (λ p, match currentPrice p with
             | Some c => if Qlt_le_dec 0 c then Some c else None
             | None => match originalPrice p with
                       | Some o => if Qlt_le_dec 0 o then Some o else None
                       | None => None
                       end
             end) ps.

Definition Qmaximum (x : Q) (xs : list Q) : Q :=
  foldl (λ m y, if Qlt_le_dec m y then y else m) x xs.

(** [Math.ceil(m / step) * step]. *)
Definition roundUpTo (step : Z) (m : Q) : Z :=
  Qceiling (m / inject_Z step) * step.

(** [Math.ceil(Math.max(...prices) / step) * step] when there is a
    price. *)
Definition roundedMaxPrice (step : Z) (prices : list Q) : option Z :=
  match prices with
  | [] => None
  | x :: xs => Some (roundUpTo step (Qmaximum x xs))
  end.

End Api.

(** ** Component state *)
Module Store.
Import JsString Facets Filters Api.

(** The displayed result set. *)
Record ResultState := mkResults {
  filteredProducts : list Product;
  totalProducts : Z;
  displayedProducts : Z;
  hasMoreProducts : bool;
  searchMessage : option string;
  isShowingRecommended : bool
}.

(** One family of facet counts. The component keeps two: the displayed
    one ([categoryCounts], ..., [notSaleCount]) and the global one
    ([globalCategoryCounts], ..., [globalNotSaleCount]). *)
Record FacetCounts := mkCounts {
  categoryCounts : gmap string Z;
  brandCounts : gmap string Z;
  tagCounts : gmap string Z;
  stockStatusCounts : gmap string Z;
  featuredCount : Z;
  notFeaturedCount : Z;
  saleCount : Z;
  notSaleCount : Z
}.

(** Loading flags, pagination, price ceilings and the request
    generation counter [searchRequestIdRef.current]. *)
Record Control := mkControl {
  isLoading : bool;
  isLoadingMore : bool;
  currentPage : Z;
  currentQueryId : option string;
  maxPrice : Z;
  filteredMaxPrice : Z;
  globalFacetsFetched : bool;
  globalTotalProducts : Z;
  availableColors : list string;
  availableSizes : list string;
  searchRequestIdRef : Z
}.

(** The search-behaviour cells and the two de-duplication refs.
    [lastSearchedQueryRef = None] is [null]. *)
Record Behaviour := mkBehaviour {
  searchQuery : string;
  showRecommendations : bool;
  isInitialState : bool;
  hasSearched : bool;
  isSearchingFromSuggestion : bool;
  forceSearch : Z;
  lastSearchedQueryRef : option string;
  lastSearchedFiltersRef : string
}.

(** Cells left out: those the engine writes but neither reads nor
    exposes as result state ([storeType], [storeCurrencySymbol], the
    [available*] key lists that are [Object.keys] of a count map, the
    autocomplete cells) and [searchAbortController], whose signal is
    never handed to [searchService]. *)
Record State := mkState {
  results : ResultState;
  counts : FacetCounts;
  globalCounts : FacetCounts;
  ctl : Control;
  behaviour : Behaviour;
  filters : FilterState;
  recentSearches : list string
}.

Definition onResults (g : ResultState → ResultState) (s : State) : State :=
  {| results := g (results s); counts := counts s;
     globalCounts := globalCounts s; ctl := ctl s; behaviour := behaviour s;
     filters := filters s; recentSearches := recentSearches s |}.

Definition onCounts (g : FacetCounts → FacetCounts) (s : State) : State :=
  {| results := results s; counts := g (counts s);
     globalCounts := globalCounts s; ctl := ctl s; behaviour := behaviour s;
     filters := filters s; recentSearches := recentSearches s |}.

Definition onGlobalCounts (g : FacetCounts → FacetCounts) (s : State) : State :=
  {| results := results s; counts := counts s;
     globalCounts := g (globalCounts s); ctl := ctl s;
     behaviour := behaviour s; filters := filters s;
     recentSearches := recentSearches s |}.

Definition onCtl (g : Control → Control) (s : State) : State :=
  {| results := results s; counts := counts s;
     globalCounts := globalCounts s; ctl := g (ctl s);
     behaviour := behaviour s; filters := filters s;
     recentSearches := recentSearches s |}.

Definition onBehaviour (g : Behaviour → Behaviour) (s : State) : State :=
  {| results := results s; counts := counts s;
     globalCounts := globalCounts s; ctl := ctl s;
     behaviour := g (behaviour s); filters := filters s;
     recentSearches := recentSearches s |}.

Definition onFilters (g : FilterState → FilterState) (s : State) : State :=
  {| results := results s; counts := counts s;
     globalCounts := globalCounts s; ctl := ctl s; behaviour := behaviour s;
     filters := g (filters s); recentSearches := recentSearches s |}.

Definition onRecentSearches (g : list string → list string) (s : State) : State :=
  {| results := results s; counts := counts s;
     globalCounts := globalCounts s; ctl := ctl s; behaviour := behaviour s;
     filters := filters s; recentSearches := g (recentSearches s) |}.

(** The [useState] setters and ref assignments, named as in the source. *)
Definition setFilteredProducts (v : list Product) : State → State :=
  onResults (λ r,
    {| filteredProducts := v; totalProducts := totalProducts r;
       displayedProducts := displayedProducts r;
       hasMoreProducts := hasMoreProducts r;
       searchMessage := searchMessage r;
       isShowingRecommended := isShowingRecommended r |}).

Definition setTotalProducts (v : Z) : State → State :=
  onResults (λ r,
    {| filteredProducts := filteredProducts r; totalProducts := v;
       displayedProducts := displayedProducts r;
       hasMoreProducts := hasMoreProducts r;
       searchMessage := searchMessage r;
       isShowingRecommended := isShowingRecommended r |}).

Definition setDisplayedProducts (v : Z) : State → State :=
  onResults (λ r,
    {| filteredProducts := filteredProducts r;
       totalProducts := totalProducts r; displayedProducts := v;
       hasMoreProducts := hasMoreProducts r;
       searchMessage := searchMessage r;
       isShowingRecommended := isShowingRecommended r |}).

Definition setHasMoreProducts (v : bool) : State → State :=
  onResults (λ r,
    {| filteredProducts := filteredProducts r;
       totalProducts := totalProducts r;
       displayedProducts := displayedProducts r; hasMoreProducts := v;
       searchMessage := searchMessage r;
       isShowingRecommended := isShowingRecommended r |}).

Definition setSearchMessage (v : option string) : State → State :=
  onResults (λ r,
    {| filteredProducts := filteredProducts r;
       totalProducts := totalProducts r;
       displayedProducts := displayedProducts r;
       hasMoreProducts := hasMoreProducts r; searchMessage := v;
       isShowingRecommended := isShowingRecommended r |}).

Definition setIsShowingRecommended (v : bool) : State → State :=
  onResults (λ r,
    {| filteredProducts := filteredProducts r;
       totalProducts := totalProducts r;
       displayedProducts := displayedProducts r;
       hasMoreProducts := hasMoreProducts r;
       searchMessage := searchMessage r; isShowingRecommended := v |}).

Definition setCategoryCounts (v : gmap string Z) : State → State :=
  onCounts (λ r,
    {| categoryCounts := v; brandCounts := brandCounts r;
       tagCounts := tagCounts r; stockStatusCounts := stockStatusCounts r;
       featuredCount := featuredCount r;
       notFeaturedCount := notFeaturedCount r; saleCount := saleCount r;
       notSaleCount := notSaleCount r |}).

Definition setBrandCounts (v : gmap string Z) : State → State :=
  onCounts (λ r,
    {| categoryCounts := categoryCounts r; brandCounts := v;
       tagCounts := tagCounts r; stockStatusCounts := stockStatusCounts r;
       featuredCount := featuredCount r;
       notFeaturedCount := notFeaturedCount r; saleCount := saleCount r;
       notSaleCount := notSaleCount r |}).

Definition setTagCounts (v : gmap string Z) : State → State :=
  onCounts (λ r,
    {| categoryCounts := categoryCounts r; brandCounts := brandCounts r;
       tagCounts := v; stockStatusCounts := stockStatusCounts r;
       featuredCount := featuredCount r;
       notFeaturedCount := notFeaturedCount r; saleCount := saleCount r;
       notSaleCount := notSaleCount r |}).

Definition setStockStatusCounts (v : gmap string Z) : State → State :=
  onCounts (λ r,
    {| categoryCounts := categoryCounts r; brandCounts := brandCounts r;
       tagCounts := tagCounts r; stockStatusCounts := v;
       featuredCount := featuredCount r;
       notFeaturedCount := notFeaturedCount r; saleCount := saleCount r;
       notSaleCount := notSaleCount r |}).

Definition setFeaturedCount (v : Z) : State → State :=
  onCounts (λ r,
    {| categoryCounts := categoryCounts r; brandCounts := brandCounts r;
       tagCounts := tagCounts r; stockStatusCounts := stockStatusCounts r;
       featuredCount := v; notFeaturedCount := notFeaturedCount r;
       saleCount := saleCount r; notSaleCount := notSaleCount r |}).

Definition setNotFeaturedCount (v : Z) : State → State :=
  onCounts (λ r,
    {| categoryCounts := categoryCounts r; brandCounts := brandCounts r;
       tagCounts := tagCounts r; stockStatusCounts := stockStatusCounts r;
       featuredCount := featuredCount r; notFeaturedCount := v;
       saleCount := saleCount r; notSaleCount := notSaleCount r |}).

Definition setSaleCount (v : Z) : State → State :=
  onCounts (λ r,
    {| categoryCounts := categoryCounts r; brandCounts := brandCounts r;
       tagCounts := tagCounts r; stockStatusCounts := stockStatusCounts r;
       featuredCount := featuredCount r;
       notFeaturedCount := notFeaturedCount r; saleCount := v;
       notSaleCount := notSaleCount r |}).

Definition setNotSaleCount (v : Z) : State → State :=
  onCounts (λ r,
    {| categoryCounts := categoryCounts r; brandCounts := brandCounts r;
       tagCounts := tagCounts r; stockStatusCounts := stockStatusCounts r;
       featuredCount := featuredCount r;
       notFeaturedCount := notFeaturedCount r; saleCount := saleCount r;
       notSaleCount := v |}).

Definition setGlobalCategoryCounts (v : gmap string Z) : State → State :=
  onGlobalCounts (λ r,
    {| categoryCounts := v; brandCounts := brandCounts r;
       tagCounts := tagCounts r; stockStatusCounts := stockStatusCounts r;
       featuredCount := featuredCount r;
       notFeaturedCount := notFeaturedCount r; saleCount := saleCount r;
       notSaleCount := notSaleCount r |}).

Definition setGlobalBrandCounts (v : gmap string Z) : State → State :=
  onGlobalCounts (λ r,
    {| categoryCounts := categoryCounts r; brandCounts := v;
       tagCounts := tagCounts r; stockStatusCounts := stockStatusCounts r;
       featuredCount := featuredCount r;
       notFeaturedCount := notFeaturedCount r; saleCount := saleCount r;
       notSaleCount := notSaleCount r |}).

Definition setGlobalTagCounts (v : gmap string Z) : State → State :=
  onGlobalCounts (λ r,
    {| categoryCounts := categoryCounts r; brandCounts := brandCounts r;
       tagCounts := v; stockStatusCounts := stockStatusCounts r;
       featuredCount := featuredCount r;
       notFeaturedCount := notFeaturedCount r; saleCount := saleCount r;
       notSaleCount := notSaleCount r |}).

Definition setGlobalStockStatusCounts (v : gmap string Z) : State → State :=
  onGlobalCounts (λ r,
    {| categoryCounts := categoryCounts r; brandCounts := brandCounts r;
       tagCounts := tagCounts r; stockStatusCounts := v;
       featuredCount := featuredCount r;
       notFeaturedCount := notFeaturedCount r; saleCount := saleCount r;
       notSaleCount := notSaleCount r |}).

Definition setGlobalFeaturedCount (v : Z) : State → State :=
  onGlobalCounts (λ r,
    {| categoryCounts := categoryCounts r; brandCounts := brandCounts r;
       tagCounts := tagCounts r; stockStatusCounts := stockStatusCounts r;
       featuredCount := v; notFeaturedCount := notFeaturedCount r;
       saleCount := saleCount r; notSaleCount := notSaleCount r |}).

Definition setGlobalNotFeaturedCount (v : Z) : State → State :=
  onGlobalCounts (λ r,
    {| categoryCounts := categoryCounts r; brandCounts := brandCounts r;
       tagCounts := tagCounts r; stockStatusCounts := stockStatusCounts r;
       featuredCount := featuredCount r; notFeaturedCount := v;
       saleCount := saleCount r; notSaleCount := notSaleCount r |}).

Definition setGlobalSaleCount (v : Z) : State → State :=
  onGlobalCounts (λ r,
    {| categoryCounts := categoryCounts r; brandCounts := brandCounts r;
       tagCounts := tagCounts r; stockStatusCounts := stockStatusCounts r;
       featuredCount := featuredCount r;
       notFeaturedCount := notFeaturedCount r; saleCount := v;
       notSaleCount := notSaleCount r |}).

Definition setGlobalNotSaleCount (v : Z) : State → State :=
  onGlobalCounts (λ r,
    {| categoryCounts := categoryCounts r; brandCounts := brandCounts r;
       tagCounts := tagCounts r; stockStatusCounts := stockStatusCounts r;
       featuredCount := featuredCount r;
       notFeaturedCount := notFeaturedCount r; saleCount := saleCount r;
       notSaleCount := v |}).

Definition setIsLoading (v : bool) : State → State :=
  onCtl (λ r,
    {| isLoading := v; isLoadingMore := isLoadingMore r;
       currentPage := currentPage r; currentQueryId := currentQueryId r;
       maxPrice := maxPrice r; filteredMaxPrice := filteredMaxPrice r;
       globalFacetsFetched := globalFacetsFetched r;
       globalTotalProducts := globalTotalProducts r;
       availableColors := availableColors r;
       availableSizes := availableSizes r;
       searchRequestIdRef := searchRequestIdRef r |}).

Definition setIsLoadingMore (v : bool) : State → State :=
  onCtl (λ r,
    {| isLoading := isLoading r; isLoadingMore := v;
       currentPage := currentPage r; currentQueryId := currentQueryId r;
       maxPrice := maxPrice r; filteredMaxPrice := filteredMaxPrice r;
       globalFacetsFetched := globalFacetsFetched r;
       globalTotalProducts := globalTotalProducts r;
       availableColors := availableColors r;
       availableSizes := availableSizes r;
       searchRequestIdRef := searchRequestIdRef r |}).

Definition setCurrentPage (v : Z) : State → State :=
  onCtl (λ r,
    {| isLoading := isLoading r; isLoadingMore := isLoadingMore r;
       currentPage := v; currentQueryId := currentQueryId r;
       maxPrice := maxPrice r; filteredMaxPrice := filteredMaxPrice r;
       globalFacetsFetched := globalFacetsFetched r;
       globalTotalProducts := globalTotalProducts r;
       availableColors := availableColors r;
       availableSizes := availableSizes r;
       searchRequestIdRef := searchRequestIdRef r |}).

Definition setCurrentQueryId (v : option string) : State → State :=
  onCtl (λ r,
    {| isLoading := isLoading r; isLoadingMore := isLoadingMore r;
       currentPage := currentPage r; currentQueryId := v;
       maxPrice := maxPrice r; filteredMaxPrice := filteredMaxPrice r;
       globalFacetsFetched := globalFacetsFetched r;
       globalTotalProducts := globalTotalProducts r;
       availableColors := availableColors r;
       availableSizes := availableSizes r;
       searchRequestIdRef := searchRequestIdRef r |}).

Definition setMaxPrice (v : Z) : State → State :=
  onCtl (λ r,
    {| isLoading := isLoading r; isLoadingMore := isLoadingMore r;
       currentPage := currentPage r; currentQueryId := currentQueryId r;
       maxPrice := v; filteredMaxPrice := filteredMaxPrice r;
       globalFacetsFetched := globalFacetsFetched r;
       globalTotalProducts := globalTotalProducts r;
       availableColors := availableColors r;
       availableSizes := availableSizes r;
       searchRequestIdRef := searchRequestIdRef r |}).

Definition setFilteredMaxPrice (v : Z) : State → State :=
  onCtl (λ r,
    {| isLoading := isLoading r; isLoadingMore := isLoadingMore r;
       currentPage := currentPage r; currentQueryId := currentQueryId r;
       maxPrice := maxPrice r; filteredMaxPrice := v;
       globalFacetsFetched := globalFacetsFetched r;
       globalTotalProducts := globalTotalProducts r;
       availableColors := availableColors r;
       availableSizes := availableSizes r;
       searchRequestIdRef := searchRequestIdRef r |}).

Definition setGlobalFacetsFetched (v : bool) : State → State :=
  onCtl (λ r,
    {| isLoading := isLoading r; isLoadingMore := isLoadingMore r;
       currentPage := currentPage r; currentQueryId := currentQueryId r;
       maxPrice := maxPrice r; filteredMaxPrice := filteredMaxPrice r;
       globalFacetsFetched := v;
       globalTotalProducts := globalTotalProducts r;
       availableColors := availableColors r;
       availableSizes := availableSizes r;
       searchRequestIdRef := searchRequestIdRef r |}).

Definition setGlobalTotalProducts (v : Z) : State → State :=
  onCtl (λ r,
    {| isLoading := isLoading r; isLoadingMore := isLoadingMore r;
       currentPage := currentPage r; currentQueryId := currentQueryId r;
       maxPrice := maxPrice r; filteredMaxPrice := filteredMaxPrice r;
       globalFacetsFetched := globalFacetsFetched r;
       globalTotalProducts := v; availableColors := availableColors r;
       availableSizes := availableSizes r;
       searchRequestIdRef := searchRequestIdRef r |}).

Definition setAvailableColors (v : list string) : State → State :=
  onCtl (λ r,
    {| isLoading := isLoading r; isLoadingMore := isLoadingMore r;
       currentPage := currentPage r; currentQueryId := currentQueryId r;
       maxPrice := maxPrice r; filteredMaxPrice := filteredMaxPrice r;
       globalFacetsFetched := globalFacetsFetched r;
       globalTotalProducts := globalTotalProducts r; availableColors := v;
       availableSizes := availableSizes r;
       searchRequestIdRef := searchRequestIdRef r |}).

Definition setAvailableSizes (v : list string) : State → State :=
  onCtl (λ r,
    {| isLoading := isLoading r; isLoadingMore := isLoadingMore r;
       currentPage := currentPage r; currentQueryId := currentQueryId r;
       maxPrice := maxPrice r; filteredMaxPrice := filteredMaxPrice r;
       globalFacetsFetched := globalFacetsFetched r;
       globalTotalProducts := globalTotalProducts r;
       availableColors := availableColors r; availableSizes := v;
       searchRequestIdRef := searchRequestIdRef r |}).

Definition setSearchRequestIdRef (v : Z) : State → State :=
  onCtl (λ r,
    {| isLoading := isLoading r; isLoadingMore := isLoadingMore r;
       currentPage := currentPage r; currentQueryId := currentQueryId r;
       maxPrice := maxPrice r; filteredMaxPrice := filteredMaxPrice r;
       globalFacetsFetched := globalFacetsFetched r;
       globalTotalProducts := globalTotalProducts r;
       availableColors := availableColors r;
       availableSizes := availableSizes r; searchRequestIdRef := v |}).

Definition setSearchQuery (v : string) : State → State :=
  onBehaviour (λ r,
    {| searchQuery := v; showRecommendations := showRecommendations r;
       isInitialState := isInitialState r; hasSearched := hasSearched r;
       isSearchingFromSuggestion := isSearchingFromSuggestion r;
       forceSearch := forceSearch r;
       lastSearchedQueryRef := lastSearchedQueryRef r;
       lastSearchedFiltersRef := lastSearchedFiltersRef r |}).

Definition setShowRecommendations (v : bool) : State → State :=
  onBehaviour (λ r,
    {| searchQuery := searchQuery r; showRecommendations := v;
       isInitialState := isInitialState r; hasSearched := hasSearched r;
       isSearchingFromSuggestion := isSearchingFromSuggestion r;
       forceSearch := forceSearch r;
       lastSearchedQueryRef := lastSearchedQueryRef r;
       lastSearchedFiltersRef := lastSearchedFiltersRef r |}).

Definition setIsInitialState (v : bool) : State → State :=
  onBehaviour (λ r,
    {| searchQuery := searchQuery r;
       showRecommendations := showRecommendations r; isInitialState := v;
       hasSearched := hasSearched r;
       isSearchingFromSuggestion := isSearchingFromSuggestion r;
       forceSearch := forceSearch r;
       lastSearchedQueryRef := lastSearchedQueryRef r;
       lastSearchedFiltersRef := lastSearchedFiltersRef r |}).

Definition setHasSearched (v : bool) : State → State :=
  onBehaviour (λ r,
    {| searchQuery := searchQuery r;
       showRecommendations := showRecommendations r;
       isInitialState := isInitialState r; hasSearched := v;
       isSearchingFromSuggestion := isSearchingFromSuggestion r;
       forceSearch := forceSearch r;
       lastSearchedQueryRef := lastSearchedQueryRef r;
       lastSearchedFiltersRef := lastSearchedFiltersRef r |}).

Definition setIsSearchingFromSuggestion (v : bool) : State → State :=
  onBehaviour (λ r,
    {| searchQuery := searchQuery r;
       showRecommendations := showRecommendations r;
       isInitialState := isInitialState r; hasSearched := hasSearched r;
       isSearchingFromSuggestion := v; forceSearch := forceSearch r;
       lastSearchedQueryRef := lastSearchedQueryRef r;
       lastSearchedFiltersRef := lastSearchedFiltersRef r |}).

Definition setForceSearch (v : Z) : State → State :=
  onBehaviour (λ r,
    {| searchQuery := searchQuery r;
       showRecommendations := showRecommendations r;
       isInitialState := isInitialState r; hasSearched := hasSearched r;
       isSearchingFromSuggestion := isSearchingFromSuggestion r;
       forceSearch := v; lastSearchedQueryRef := lastSearchedQueryRef r;
       lastSearchedFiltersRef := lastSearchedFiltersRef r |}).

Definition setLastSearchedQueryRef (v : option string) : State → State :=
  onBehaviour (λ r,
    {| searchQuery := searchQuery r;
       showRecommendations := showRecommendations r;
       isInitialState := isInitialState r; hasSearched := hasSearched r;
       isSearchingFromSuggestion := isSearchingFromSuggestion r;
       forceSearch := forceSearch r; lastSearchedQueryRef := v;
       lastSearchedFiltersRef := lastSearchedFiltersRef r |}).

Definition setLastSearchedFiltersRef (v : string) : State → State :=
  onBehaviour (λ r,
    {| searchQuery := searchQuery r;
       showRecommendations := showRecommendations r;
       isInitialState := isInitialState r; hasSearched := hasSearched r;
       isSearchingFromSuggestion := isSearchingFromSuggestion r;
       forceSearch := forceSearch r;
       lastSearchedQueryRef := lastSearchedQueryRef r;
       lastSearchedFiltersRef := v |}).

Definition setRecentSearches (v : list string) : State → State :=
  onRecentSearches (λ _, v).

End Store.

(** Statements run in source order: [s |> f |> g] is [g (f s)]. *)
Notation "s |> f" := (f s) (at level 45, left associativity, only parsing).

(** ** The request sequencer and the zero-result fallback *)
Module Engine.
Import JsString Facets Filters Api Store.

(** A primary search request in flight: what the continuation of
    [fetchProducts] closed over. *)
Record PendingSearch := mkPendingSearch {
  currentRequestId : Z;
  ps_storeUrl : string;
  ps_debouncedFilters : FilterState;
  ps_params : SearchParams
}.

(** The locals [products], [total], [hasMore], [message] and
    [showingRecommended] of [fetchProducts]. *)
Record Outcome := mkOutcome {
  o_products : list Product;
  o_total : Z;
  o_hasMore : bool;
  o_message : option string;
  o_showingRecommended : bool
}.

(** A fallback request in flight: the primary request it belongs to and
    the locals at the second [await]. *)
Record PendingFallback := mkPendingFallback {
  fb_search : PendingSearch;
  fb_outcome : Outcome;
  fb_params : SearchParams
}.

Definition searchParamsOf (storeUrl : string) (f : FilterState) (maxPrice : Z)
    (query : string) : SearchParams :=
  {| q := query; sp_storeUrl := storeUrl; page := 1; limit := 12;
     sp_categories := whenNonEmpty (categories f);
     sp_colors := whenNonEmpty (colors f);
     sp_sizes := whenNonEmpty (sizes f);
     sp_brands := whenNonEmpty (brands f);
     sp_tags := whenNonEmpty (tags f);
     sp_stockStatus := whenNonEmpty (stockStatus f);
     sp_priceRange :=
       if (0 <? fst (priceRange f)) || (snd (priceRange f) <? maxPrice)
       then Some (priceRange f) else None;
     insale := inSaleParam f;
     featured := featuredParam f;
     sort := None |}.

Definition fallbackParams (storeUrl : string) : SearchParams :=
  {| q := EmptyString; sp_storeUrl := storeUrl; page := 1; limit := 12;
     sp_categories := None; sp_colors := None; sp_sizes := None;
     sp_brands := None; sp_tags := None; sp_stockStatus := None;
     sp_priceRange := None; insale := None; featured := None;
     sort := Some "featured" |}.

(** [performSearch(query)] up to the first [await]: the pre-request
    reset, the new generation, and the request that leaves. The guard on
    an [undefined] price bound is vacuous for a [priceRange] of two
    numbers. *)
Definition performSearch (storeUrl : string) (debouncedFilters : FilterState)
    (query : string) (s : State) : State * option PendingSearch :=
  if negb (truthy storeUrl) then (s, None)
  else
    let s1 := s |> setIsLoading true |> setCurrentPage 1
                |> setHasMoreProducts true |> setDisplayedProducts 0
                |> setFilteredProducts [] in
    let id := searchRequestIdRef (ctl s1) + 1 in
    let s2 := setSearchRequestIdRef id s1 in
    (s2, Some {| currentRequestId := id;
                 ps_storeUrl := storeUrl;
                 ps_debouncedFilters := debouncedFilters;
                 ps_params := searchParamsOf storeUrl debouncedFilters
                                (maxPrice (ctl s)) query |}).

(** [if (buckets.length > 0) { setX(build(buckets)) }]. *)
Definition setWhenBuckets {A} (facet : RawFacet) (build : list FacetBucket → A)
    (setter : A → State → State) (s : State) : State :=
  let buckets := extractFacetBuckets facet in
  if nonEmpty buckets then setter (build buckets) s else s.

(** The facet block of a search response: category, brand, colour,
    size and tag only, then the filtered price ceiling. *)
Definition applySearchFacets (fp : FacetsPayload) (ps : list Product)
    (s : State) : State :=
  s |> setWhenBuckets (f_category fp) countKeyedBuckets setCategoryCounts
    |> setWhenBuckets (f_brand fp) countKeyedBuckets setBrandCounts
    |> setWhenBuckets (f_color fp) keysOfBuckets setAvailableColors
    |> setWhenBuckets (f_size fp) keysOfBuckets setAvailableSizes
    |> setWhenBuckets (f_tag fp) countKeyedBuckets setTagCounts
    |> (λ s', match roundedMaxPrice 50 (productPrices ps) with
              | Some m => setFilteredMaxPrice m s'
              | None => s'
              end).

(** The branch on [isSearchResponse(result)]: state written while
    reading the response. *)
Definition readResponse (result : ApiResult) (s : State) : State :=
  match result with
  | IsSearchResponse r =>
      let s1 := match query_id r with
                | Some qid => setCurrentQueryId (Some qid) s
                | None => s
                end in
      match facets r with
      | Some fp => applySearchFacets fp (products r) s1
      | None => s1
      end
  | _ => s
  end.

Definition outcomeOf (result : ApiResult) : Outcome :=
  match result with
  | IsSearchResponse r =>
      {| o_products := products r; o_total := total r; o_hasMore := hasMore r;
         o_message := message r; o_showingRecommended := showingRecommended r |}
  | _ =>
      {| o_products := []; o_total := 0; o_hasMore := false;
         o_message := None; o_showingRecommended := false |}
  end.

(** The six setters that close the [try] block. *)
Definition applyOutcome (storeUrl : string) (o : Outcome) (s : State) : State :=
  let productsWithStoreUrl := withStoreUrl storeUrl <$> o_products o in
  s |> setFilteredProducts productsWithStoreUrl
    |> setTotalProducts (o_total o)
    |> setDisplayedProducts (Z.of_nat (length productsWithStoreUrl))
    |> setHasMoreProducts (o_hasMore o)
    |> setSearchMessage (o_message o)
    |> setIsShowingRecommended (o_showingRecommended o).

(** The [finally] block. *)
Definition finallySearch (s : State) : State := setIsLoading false s.

(** Resumption after [await searchService.searchProducts(searchParams)]
    resolved. Either the function completes, or it suspends again on the
    fallback request. *)
Definition onSearchResolved (p : PendingSearch) (result : ApiResult) (s : State)
  : State * option PendingFallback :=
  if negb (currentRequestId p =? searchRequestIdRef (ctl s))
  then (finallySearch s, None)
  else
    let s1 := readResponse result s in
    let o := outcomeOf result in
    if negb (currentRequestId p =? searchRequestIdRef (ctl s1))
    then (finallySearch s1, None)
    else if (o_total o =? 0) && hasActiveNonPriceFilters (ps_debouncedFilters p)
    then (s1, Some {| fb_search := p; fb_outcome := o;
                      fb_params := fallbackParams (ps_storeUrl p) |})
    else (finallySearch (applyOutcome (ps_storeUrl p) o s1), None).

Definition space : Ascii.ascii := Ascii.ascii_of_N 32.
Definition hyphen : Ascii.ascii := Ascii.ascii_of_N 45.
Definition dquote : string := String (Ascii.ascii_of_N 34) EmptyString.

Definition quoted (s : string) : string := dquote +:+ s +:+ dquote.

(** One or counted: [category "X"] or [N categories]. *)
Definition oneOrCount (singular plural : string) (l : list string) : string :=
  match l with
  | [x] => singular +:+ " " +:+ quoted x
  | _ => pretty (length l) +:+ " " +:+ plural
  end.

(** [appliedFilters] of the fallback block. Tags are not listed. *)
Definition appliedFilters (f : FilterState) : list string :=
  (if nonEmpty (categories f) then [oneOrCount "category" "categories" (categories f)] else [])
  ++ (if nonEmpty (brands f) then [oneOrCount "brand" "brands" (brands f)] else [])
  ++ (if nonEmpty (colors f) then [pretty (length (colors f)) +:+ " color(s)"] else [])
  ++ (if nonEmpty (sizes f) then [pretty (length (sizes f)) +:+ " size(s)"] else [])
  ++ (if nonEmpty (stockStatus f)
      then [join ", " ((λ st, replaceFirst space hyphen (toLowerCase st)) <$> stockStatus f)]
      else [])
  ++ (if nonEmpty (featuredProducts f) then ["featured products"] else [])
  ++ (if nonEmpty (saleStatus f) then ["on sale"] else []).

Definition filterDescription (f : FilterState) : string :=
  if nonEmpty (appliedFilters f) then join ", " (appliedFilters f) else "your filters".

Definition fallbackMessage (f : FilterState) : string :=
  "No results found for " +:+ filterDescription f
    +:+ ". Showing popular products instead.".

(** The locals after the fallback response was read. *)
Definition fallbackOutcome (f : FilterState) (fallbackResult : ApiResult)
    (o : Outcome) : Outcome :=
  match fallbackResult with
  | IsSearchResponse r =>
      if nonEmpty (products r) then
        {| o_products := products r; o_total := 0; o_hasMore := false;
           o_message := Some (fallbackMessage f); o_showingRecommended := true |}
      else o
  | _ => o
  end.

(** Resumption after the fallback request resolved: no generation check
    stands between this [await] and the setters. *)
Definition onFallbackResolved (pf : PendingFallback) (fallbackResult : ApiResult)
    (s : State) : State :=
  let p := fb_search pf in
  finallySearch
    (applyOutcome (ps_storeUrl p)
       (fallbackOutcome (ps_debouncedFilters p) fallbackResult (fb_outcome pf)) s).

(** The inner [catch]: continue with the zero results. *)
Definition onFallbackRejected (pf : PendingFallback) (s : State) : State :=
  finallySearch (applyOutcome (ps_storeUrl (fb_search pf)) (fb_outcome pf) s).

(** The outer [catch], then [finally]. *)
Definition onSearchRejected (p : PendingSearch) (error : ApiError) (s : State)
  : State :=
  match error with
  | AbortError => finallySearch s
  | OtherError => finallySearch (setFilteredProducts [] s)
  end.

End Engine.

(** ** Pagination, clear-all and the global facet fetch *)
Module Paging.
Import JsString JsObject Facets Filters Api Store Engine.

(** A load-more request in flight. *)
Record PendingMore := mkPendingMore {
  pm_storeUrl : string;
  pm_params : SearchParams
}.

Definition loadMoreParams (storeUrl : string) (f : FilterState)
    (debouncedSearchQuery : string) (currentPage : Z) : SearchParams :=
  {| q := debouncedSearchQuery; sp_storeUrl := storeUrl;
     page := currentPage + 1; limit := 12;
     sp_categories := whenNonEmpty (categories f);
     sp_colors := whenNonEmpty (colors f);
     sp_sizes := whenNonEmpty (sizes f);
     sp_brands := whenNonEmpty (brands f);
     sp_tags := whenNonEmpty (tags f);
     sp_stockStatus := whenNonEmpty (stockStatus f);
     sp_priceRange := Some (priceRange f);
     insale := inSaleParam f;
     featured := featuredParam f;
     sort := None |}.

(** [loadMoreProducts] up to its [await]. *)
Definition loadMoreProducts (storeUrl : string) (debouncedFilters : FilterState)
    (debouncedSearchQuery : string) (s : State) : State * option PendingMore :=
  if isLoadingMore (ctl s) || negb (hasMoreProducts (results s))
     || negb (truthy storeUrl)
  then (s, None)
  else (setIsLoadingMore true s,
        Some {| pm_storeUrl := storeUrl;
                pm_params := loadMoreParams storeUrl debouncedFilters
                               debouncedSearchQuery (currentPage (ctl s)) |}).

(** [products] and [hasMore] read from a load-more response. *)
Definition pageOf (result : ApiResult) : list Product * bool :=
  match result with
  | IsSearchResponse r => (products r, hasMore r)
  | BareArray items => (items, false)
  | Unexpected => ([], false)
  end.

(** Resumption of [loadMoreProducts] when the request resolved. The
    functional updates [prev => ...] read the state of that moment. *)
Definition onLoadMoreResolved (pm : PendingMore) (result : ApiResult) (s : State)
  : State :=
  let '(ps, more) := pageOf result in
  (if nonEmpty ps then
     let productsWithStoreUrl := withStoreUrl (pm_storeUrl pm) <$> ps in
     s |> setFilteredProducts (filteredProducts (results s) ++ productsWithStoreUrl)
       |> setDisplayedProducts
            (displayedProducts (results s) + Z.of_nat (length productsWithStoreUrl))
       |> setCurrentPage (currentPage (ctl s) + 1)
       |> setHasMoreProducts more
   else setHasMoreProducts false s)
  |> setIsLoadingMore false.

(** Its [catch] logs; [finally] clears the flag. *)
Definition onLoadMoreRejected (s : State) : State := setIsLoadingMore false s.

(** [handleClearAll]. *)
Definition handleClearAll (s : State) : State :=
  let maxPrice := maxPrice (ctl s) in
  let g := globalCounts s in
  s |> setSearchQuery EmptyString
    |> setFilteredProducts [] |> setDisplayedProducts 0 |> setTotalProducts 0
    |> setCurrentPage 1 |> setHasMoreProducts true
    |> setFilteredMaxPrice maxPrice
    |> onFilters (resetPriceRange maxPrice)
    |> onFilters (clearFilters maxPrice)
    |> setStockStatusCounts (stockStatusCounts g)
    |> setFeaturedCount (featuredCount g)
    |> setNotFeaturedCount (notFeaturedCount g)
    |> setSaleCount (saleCount g)
    |> setNotSaleCount (notSaleCount g)
    |> setCategoryCounts (categoryCounts g)
    |> setBrandCounts (brandCounts g)
    |> setTagCounts (tagCounts g)
    |> setShowRecommendations false |> setIsInitialState false
    |> setHasSearched true |> setIsSearchingFromSuggestion false
    |> setSearchMessage None |> setIsShowingRecommended false
    |> setLastSearchedQueryRef None |> setLastSearchedFiltersRef EmptyString
    |> setIsLoading false |> setIsLoadingMore false
    |> setForceSearch (forceSearch (behaviour s) + 1).

(** The three translated stock labels, [t('stock.inStock')] and so
    on. *)
Record StockLabels := mkLabels {
  inStock : string;
  outOfStock : string;
  onBackorder : string
}.

Definition stockDisplayName (t : StockLabels) (key : string) : string :=
  let normalized := toLowerCase key in
  if eqb normalized "instock" then inStock t
  else if eqb normalized "outofstock" then outOfStock t
  else if eqb normalized "onbackorder" then onBackorder t
  else key.

Definition countStockBuckets (t : StockLabels) (buckets : list FacetBucket)
  : gmap string Z :=
  foldl (λ m b, assign (stockDisplayName t (getFacetBucketKey b)) (doc_count b) m)
        ∅ buckets.

(** The price ceiling of the global fetch: the statistics aggregate
    when it is there and not zero, else the product prices; rounded up to
    a multiple of 100. *)
Definition globalMaxPrice (fp : FacetsPayload) (ps : list Product) : option Z :=
  match f_price_stats_max fp with
  | Some m => if Qeq_bool m 0 then roundedMaxPrice 100 (productPrices ps)
              else Some (roundUpTo 100 m)
  | None => roundedMaxPrice 100 (productPrices ps)
  end.

Definition applyGlobalFacets (t : StockLabels) (fp : FacetsPayload)
    (ps : list Product) (s : State) : State :=
  s |> setWhenBuckets (f_instock fp) (countStockBuckets t)
         (λ c s', s' |> setStockStatusCounts c |> setGlobalStockStatusCounts c)
    |> setWhenBuckets (f_featured fp) countBooleanBuckets
         (λ c s', s' |> setFeaturedCount (fst c) |> setNotFeaturedCount (snd c)
                     |> setGlobalFeaturedCount (fst c)
                     |> setGlobalNotFeaturedCount (snd c))
    |> setWhenBuckets (f_insale fp) countBooleanBuckets
         (λ c s', s' |> setSaleCount (fst c) |> setNotSaleCount (snd c)
                     |> setGlobalSaleCount (fst c)
                     |> setGlobalNotSaleCount (snd c))
    |> setWhenBuckets (f_category fp) countKeyedBuckets
         (λ c s', s' |> setCategoryCounts c |> setGlobalCategoryCounts c)
    |> setWhenBuckets (f_brand fp) countKeyedBuckets
         (λ c s', s' |> setBrandCounts c |> setGlobalBrandCounts c)
    |> setWhenBuckets (f_color fp) keysOfBuckets setAvailableColors
    |> setWhenBuckets (f_size fp) keysOfBuckets setAvailableSizes
    |> setWhenBuckets (f_tag fp) countKeyedBuckets
         (λ c s', s' |> setTagCounts c |> setGlobalTagCounts c)
    |> (λ s', match globalMaxPrice fp ps with
              | Some m => s' |> setMaxPrice m |> setFilteredMaxPrice m
              | None => s'
              end).

(** [fetchGlobalFacets] issues its request unless it already ran. *)
Definition fetchGlobalFacets (storeUrl : string) (s : State) : bool :=
  truthy storeUrl && negb (globalFacetsFetched (ctl s)).

(** Resumption of [fetchGlobalFacets] when the request resolved. *)
Definition onGlobalFacetsResolved (t : StockLabels) (result : ApiResult)
    (s : State) : State :=
  let s1 := setGlobalFacetsFetched true s in
  match result with
  | IsSearchResponse r =>
      let s2 := setGlobalTotalProducts (total r) s1 in
      match facets r with
      | Some fp => applyGlobalFacets t fp (products r) s2
      | None => s2
      end
  | _ => s1
  end.

End Paging.

(** ** The effects of the component *)
Module Effects.
Import JsString Facets Filters Api Store Engine.

(** "Update the filters hook when maxPrice changes". *)
Definition maxPriceEffect (s : State) : State :=
  onFilters (resetPriceRange (maxPrice (ctl s))) s.

(** "Reset price range when filtered max price changes": only when a
    non-price filter is active. *)
Definition filteredMaxPriceEffect (s : State) : State :=
  if hasActiveNonPriceFilters (filters s)
  then onFilters (updateFilter_priceRange (0, filteredMaxPrice (ctl s))) s
  else s.

(** What the recent-searches effect leaves in local storage under
    [recentSearches]: the list, or nothing when it is empty. *)
Definition persistedRecentSearches (s : State) : option (list string) :=
  if nonEmpty (recentSearches s) then Some (recentSearches s) else None.

(** [addToRecentSearches]. *)
Definition addToRecentSearches (query : string) (s : State) : State :=
  let tq := trim query in
  if truthy tq && negb (includes tq (recentSearches s)) then
    setRecentSearches
      (take 10 (tq :: filter (λ item, item ≠ tq) (recentSearches s))) s
  else s.

Definition handleRemoveRecentSearch (search : string) (s : State) : State :=
  setRecentSearches (filter (λ item, item ≠ search) (recentSearches s)) s.

Definition handleClearRecentSearches (s : State) : State :=
  setRecentSearches [] s.

Section SearchEffect.

(** [JSON.stringify] on filter objects, a host function. *)
Variable JSON_stringify : FilterState → string.

Definition hasActiveDebouncedFilters (f : FilterState) (maxPrice : Z) : bool :=
  nonEmpty (categories f) || nonEmpty (stockStatus f)
  || nonEmpty (featuredProducts f) || nonEmpty (saleStatus f)
  || ((0 <? fst (priceRange f)) || (snd (priceRange f) <? maxPrice)).

(** The "search products" effect. It returns the state it leaves and
    the request it issued through [performSearch], if any. State cells
    are read as the render saw them ([s]); the [set] calls only show in
    the state returned. *)
Definition searchEffect (storeUrl : string) (debouncedSearchQuery : string)
    (debouncedFilters : FilterState) (s : State)
  : State * option PendingSearch :=
  if negb (truthy storeUrl) then (s, None)
  else
    let b := behaviour s in
    let trimmed := trim debouncedSearchQuery in
    let active := hasActiveDebouncedFilters debouncedFilters (maxPrice (ctl s)) in
    let justTransitioned :=
      active && isInitialState b && negb (truthy trimmed) in
    let s1 := if justTransitioned
              then s |> setShowRecommendations false |> setIsInitialState false
                     |> setHasSearched true
              else s in
    if negb justTransitioned
       && (showRecommendations b
           || (isInitialState b && negb active && negb (truthy trimmed)))
    then (s1, None)
    else if isSearchingFromSuggestion b
    then (setIsSearchingFromSuggestion false s1, None)
    else
      let currentQuery := trimmed in
      let currentFilters := JSON_stringify debouncedFilters in
      if bool_decide (lastSearchedQueryRef (behaviour s1) = Some currentQuery)
         && eqb (lastSearchedFiltersRef (behaviour s1)) currentFilters
      then (s1, None)
      else
        let s2 := s1 |> setLastSearchedQueryRef (Some currentQuery)
                     |> setLastSearchedFiltersRef currentFilters in
        if negb (truthy trimmed)
        then performSearch storeUrl debouncedFilters EmptyString s2
        else if (3 <=? String.length trimmed)%nat
        then performSearch storeUrl debouncedFilters debouncedSearchQuery s2
        else (s2, None).

End SearchEffect.

End Effects.

(** ** Sessions: interleavings of requests and responses *)
Module Session.
Import JsString Facets Filters Api Store Engine Paging Effects.

(** The values the cells are created with. [searchQuery] and
    [hasSearched] belong to the parent, which starts them empty and
    false. Modelled from the spec: the initial [filters] of
    hooks/useFilters, which is not among the sources; "created with
    defaults at widget mount", the price range being
    [0, initialMaxPrice]. *)
Definition noCounts : FacetCounts :=
  {| categoryCounts := ∅; brandCounts := ∅; tagCounts := ∅;
     stockStatusCounts := ∅; featuredCount := 0; notFeaturedCount := 0;
     saleCount := 0; notSaleCount := 0 |}.

Definition initialState : State :=
  {| results := {| filteredProducts := []; totalProducts := 0;
                   displayedProducts := 0; hasMoreProducts := true;
                   searchMessage := None; isShowingRecommended := false |};
     counts := noCounts;
     globalCounts := noCounts;
     ctl := {| isLoading := false; isLoadingMore := false; currentPage := 1;
               currentQueryId := None; maxPrice := 10000;
               filteredMaxPrice := 10000; globalFacetsFetched := false;
               globalTotalProducts := 0; availableColors := [];
               availableSizes := []; searchRequestIdRef := 0 |};
     behaviour := {| searchQuery := EmptyString; showRecommendations := true;
                     isInitialState := true; hasSearched := false;
                     isSearchingFromSuggestion := false; forceSearch := 0;
                     lastSearchedQueryRef := None;
                     lastSearchedFiltersRef := EmptyString |};
     filters := mkFilters [] [] [] [] [] [] [] [] (0, 10000);
     recentSearches := [] |}.

(** The component together with its requests in flight. Primary and
    fallback requests are keyed by the generation they captured;
    load-more requests, which capture none, by position. *)
Record System := mkSystem {
  state : State;
  searches : gmap Z PendingSearch;
  fallbacks : gmap Z PendingFallback;
  mores : list PendingMore
}.

Definition start (s : State) : System :=
  {| state := s; searches := ∅; fallbacks := ∅; mores := [] |}.

(** What can happen on behalf of a search trigger: a request is issued,
    or one in flight settles. Settlements may come in any order. *)
Inductive SearchEvent :=
| PerformSearch (storeUrl : string) (debouncedFilters : FilterState) (query : string)
| SearchResolved (id : Z) (result : ApiResult)
| SearchRejected (id : Z) (error : ApiError)
| FallbackResolved (id : Z) (result : ApiResult)
| FallbackRejected (id : Z)
| LoadMore (storeUrl : string) (debouncedFilters : FilterState)
           (debouncedSearchQuery : string)
| LoadMoreResolved (i : nat) (result : ApiResult)
| LoadMoreRejected (i : nat).

Inductive Event :=
| Search (e : SearchEvent)
| ClearAll
| GlobalFacetsResolved (t : StockLabels) (result : ApiResult).

Definition withState (s : State) (sys : System) : System :=
  {| state := s; searches := searches sys; fallbacks := fallbacks sys;
     mores := mores sys |}.

Definition searchStep (e : SearchEvent) (sys : System) : System :=
  match e with
  | PerformSearch storeUrl f query =>
      match performSearch storeUrl f query (state sys) with
      | (s, Some p) =>
          {| state := s; searches := <[currentRequestId p := p]> (searches sys);
             fallbacks := fallbacks sys; mores := mores sys |}
      | (s, None) => withState s sys
      end
  | SearchResolved id result =>
      match searches sys !! id with
      | Some p =>
          match onSearchResolved p result (state sys) with
          | (s, Some pf) =>
              {| state := s; searches := delete id (searches sys);
                 fallbacks := <[id := pf]> (fallbacks sys); mores := mores sys |}
          | (s, None) =>
              {| state := s; searches := delete id (searches sys);
                 fallbacks := fallbacks sys; mores := mores sys |}
          end
      | None => sys
      end
  | SearchRejected id error =>
      match searches sys !! id with
      | Some p =>
          {| state := onSearchRejected p error (state sys);
             searches := delete id (searches sys);
             fallbacks := fallbacks sys; mores := mores sys |}
      | None => sys
      end
  | FallbackResolved id result =>
      match fallbacks sys !! id with
      | Some pf =>
          {| state := onFallbackResolved pf result (state sys);
             searches := searches sys;
             fallbacks := delete id (fallbacks sys); mores := mores sys |}
      | None => sys
      end
  | FallbackRejected id =>
      match fallbacks sys !! id with
      | Some pf =>
          {| state := onFallbackRejected pf (state sys);
             searches := searches sys;
             fallbacks := delete id (fallbacks sys); mores := mores sys |}
      | None => sys
      end
  | LoadMore storeUrl f query =>
      match loadMoreProducts storeUrl f query (state sys) with
      | (s, Some pm) =>
          {| state := s; searches := searches sys; fallbacks := fallbacks sys;
             mores := mores sys ++ [pm] |}
      | (s, None) => withState s sys
      end
  | LoadMoreResolved i result =>
      match mores sys !! i with
      | Some pm =>
          {| state := onLoadMoreResolved pm result (state sys);
             searches := searches sys; fallbacks := fallbacks sys;
             mores := delete i (mores sys) |}
      | None => sys
      end
  | LoadMoreRejected i =>
      match mores sys !! i with
      | Some pm =>
          {| state := onLoadMoreRejected (state sys);
             searches := searches sys; fallbacks := fallbacks sys;
             mores := delete i (mores sys) |}
      | None => sys
      end
  end.

Definition step (e : Event) (sys : System) : System :=
  match e with
  | Search e' => searchStep e' sys
  | ClearAll => withState (handleClearAll (state sys)) sys
  | GlobalFacetsResolved t result =>
      withState (onGlobalFacetsResolved t result (state sys)) sys
  end.

Definition run (events : list Event) (sys : System) : System :=
  foldl (λ acc e, step e acc) sys events.

(** The five counts that are shown from the global fetch. *)
Definition staticCounts (s : State) : gmap string Z * Z * Z * Z * Z :=
  (stockStatusCounts (counts s), featuredCount (counts s),
   notFeaturedCount (counts s), saleCount (counts s), notSaleCount (counts s)).

(** The recent-searches list after the searches [queries] were recorded
    in that order. *)
Definition recorded (queries : list string) (s : State) : State :=
  foldl (λ acc query, addToRecentSearches query acc) s queries.

End Session.

From Stdlib Require Sorted.

(** ** Autocomplete: matching, scoring and ranking of suggestions *)
Module Autocomplete.
Import JsString.

(** [s.startsWith(p)]. *)
Fixpoint startsWith (p s : string) : bool :=
  match p, s with
  | EmptyString, _ => true
  | String _ _, EmptyString => false
  | String a p', String b s' => Ascii.eqb a b && startsWith p' s'
  end.

(** [s.includes(p)]: [p] starts at some position of [s]. *)
Fixpoint includes (p s : string) : bool :=
  startsWith p s
  || match s with
     | EmptyString => false
     | String _ s' => includes p s'
     end.

(** The loop of [fuzzyMatch]: the suggestion is read once, left to
    right, and [queryIndex] moves on at each code unit equal to the one
    it points to. The index is carried as the part of the query still to
    be found; the loop stops when nothing is left to find or to read. *)
Fixpoint scan (query suggestion : string) : string :=
  match suggestion with
  | EmptyString => query
  | String c suggestion' =>
      match query with
      | EmptyString => EmptyString
      | String d query' =>
          if Ascii.eqb c d then scan query' suggestion' else scan query suggestion'
      end
  end.

(** [x.toLowerCase().trim()]. *)
Definition lowerTrim (x : string) : string := trim (toLowerCase x).

Definition fuzzyMatch (query suggestion : string) : bool :=
  if negb (truthy query) || negb (truthy suggestion) then false
  else
    let queryLower := lowerTrim query in
    let suggestionLower := lowerTrim suggestion in
    if includes queryLower suggestionLower then true
    else negb (truthy (scan queryLower suggestionLower)).

Definition scoreSuggestion (query suggestion : string) : Z :=
  if negb (truthy query) || negb (truthy suggestion) then 0
  else
    let queryLower := lowerTrim query in
    let suggestionLower := lowerTrim suggestion in
    if eqb suggestionLower queryLower then 100
    else if startsWith queryLower suggestionLower then 90
    else if includes queryLower suggestionLower then 70
    else if fuzzyMatch query suggestion then 50
    else 0.

(** [{ text, score }]. *)
Record Scored := mkScored {
  text : string;
  score : Z
}.

(** [xs.sort((a, b) => b.score - a.score)]. [Array.prototype.sort] is
    stable, so its result is the one of any stable sort: here each element
    is put, from the last to the first, before the first element of the
    sorted rest whose score is not above its own. *)
Fixpoint insertByScore (x : Scored) (sorted : list Scored) : list Scored :=
  match sorted with
  | [] => [x]
  | y :: rest =>
      if score x <? score y then y :: insertByScore x rest
      else x :: y :: rest
  end.

Definition sortByScore (xs : list Scored) : list Scored :=
  foldr insertByScore [] xs.

(** The suggestions shown for a debounced query, from the titles of the
    autocomplete response. *)
Definition rankSuggestions (debouncedSearchQuery : string) (titles : list string)
  : list string :=
  let rawSuggestions := filter (λ t, truthy t = true) titles in
  let query := trim debouncedSearchQuery in
  take 10
    (text <$> sortByScore
       (filter (λ item, 0 < score item)
          ((λ suggestion, {| text := suggestion;
                             score := scoreSuggestion query suggestion |})
             <$> rawSuggestions))).

(** ArrowDown and ArrowUp of [handleKeyDown] on the highlighted
    suggestion index, for [length] suggestions. *)
Definition arrowDown (showAutocomplete : bool) (length prev : Z) : Z :=
  if showAutocomplete && (0 <? length)
  then (if prev <? length - 1 then prev + 1 else 0)
  else prev.

Definition arrowUp (showAutocomplete : bool) (length prev : Z) : Z :=
  if showAutocomplete && (0 <? length)
  then (if 0 <? prev then prev - 1 else length - 1)
  else prev.

End Autocomplete.

(** ** Handlers and effects around the search box *)
Module Handlers.
Import JsString JsObject Facets Filters Api Store Engine Paging Effects.

(** The "search behavior state management" effect, on [searchQuery] and
    [hasSearched]. *)
Definition behaviourEffect (s : State) : State :=
  let b := behaviour s in
  if negb (truthy (searchQuery b)) && negb (hasSearched b)
  then s |> setShowRecommendations true |> setIsInitialState true
  else if negb (truthy (searchQuery b)) && hasSearched b
  then s |> setShowRecommendations false |> setIsInitialState false
  else if truthy (searchQuery b)
  then s |> setShowRecommendations false |> setIsInitialState false
         |> setHasSearched true
  else s.

(** [handleSearch], on the cells of [State]. *)
Definition handleSearch (query : string) (s : State) : State :=
  s |> setSearchQuery query |> setShowRecommendations false.

(** [handleSuggestionClick], on the cells of [State]. *)
Definition handleSuggestionClick (suggestion : string) (s : State) : State :=
  s |> addToRecentSearches suggestion
    |> setShowRecommendations false |> setIsInitialState false
    |> setHasSearched true
    |> setSearchQuery suggestion.

(** The Enter branch of [handleKeyDown] when no suggestion is
    highlighted, on the cells of [State]; [query] is the value of the
    input. *)
Definition handleEnter (query : string) (s : State) : State :=
  (if truthy (trim query) then addToRecentSearches query s else s)
  |> setShowRecommendations false |> setIsInitialState false
  |> (λ s', if hasSearched (behaviour s) then s' else setHasSearched true s')
  |> setForceSearch (forceSearch (behaviour s) + 1).

(** [handleCategoryExpand] on the set of expanded category names. *)
Definition handleCategoryExpand (categoryName : string) (prev : gset string)
  : gset string :=
  if decide (categoryName ∈ prev) then prev ∖ {[categoryName]}
  else prev ∪ {[categoryName]}.

(** One entry of the facet configuration. *)
Record FacetConfig := mkFacetConfig {
  field : string;
  visible : bool
}.

(** [showOptionalFilters] and [showMandatoryFilters]. *)
Record FilterVisibility := mkVisibility {
  show_brands : bool;
  show_colors : bool;
  show_sizes : bool;
  show_tags : bool;
  show_categories : bool;
  show_price : bool;
  show_stockStatus : bool;
  show_featured : bool;
  show_sale : bool
}.

(** The values the two cells are created with. *)
Definition initialVisibility : FilterVisibility :=
  {| show_brands := false; show_colors := false; show_sizes := false;
     show_tags := false; show_categories := true; show_price := true;
     show_stockStatus := true; show_featured := true; show_sale := true |}.

(** [result.some(facet => facet.field === name && facet.visible)]. *)
Definition someVisible (name : string) (result : list FacetConfig) : bool :=
  existsb (λ facet, eqb (field facet) name && visible facet) result.

(** Resumption of [fetchFacetConfiguration] when its request resolved
    with [result]; [None] is a [null] or [undefined] result. A rejected
    request writes nothing. *)
Definition onFacetConfiguration (response : option (list FacetConfig))
    (v : FilterVisibility) : FilterVisibility :=
  let result := default [] response in
  if nonEmpty result then
    {| show_brands := someVisible "brand" result;
       show_colors := someVisible "color" result;
       show_sizes := someVisible "size" result;
       show_tags := someVisible "tags" result;
       show_categories := someVisible "category" result;
       show_price := someVisible "price" result;
       show_stockStatus := someVisible "instock" result;
       show_featured := someVisible "featured" result;
       show_sale := someVisible "insale" result |}
  else v.

(** The first argument of [getFacetCount]. *)
Inductive FacetType :=
| CategoryFacet
| BrandFacet
| StockStatusFacet
| TagFacet
| FeaturedFacet
| NotFeaturedFacet
| SaleFacet
| NotSaleFacet.

(** [getFacetCount] on the displayed counts; [key = None] is an omitted
    key. Each keyed branch is [counts[key] || 0]. *)
Definition getFacetCount (c : FacetCounts) (facetType : FacetType)
    (key : option string) : CountValue :=
  let given := truthy (default EmptyString key) in
  let k := default EmptyString key in
  match facetType with
  | CategoryFacet => if given then orZero (categoryCounts c) k else Count 0
  | BrandFacet => if given then orZero (brandCounts c) k else Count 0
  | TagFacet => if given then orZero (tagCounts c) k else Count 0
  | StockStatusFacet => if given then orZero (stockStatusCounts c) k else Count 0
  | FeaturedFacet => Count (featuredCount c)
  | NotFeaturedFacet => Count (notFeaturedCount c)
  | SaleFacet => Count (saleCount c)
  | NotSaleFacet => Count (notSaleCount c)
  end.

End Handlers.

(** ** The category tree of the sidebar *)
Module CategoryTree.
Import JsString JsObject.

(** [CategoryNode]. [children] is a [Map]: keys in insertion order, each
    key once. [count] holds what [categoryCounts[currentPath] || 0]
    gave. *)
#[warnings="-register-all"] Inductive CategoryNode := mkNode {
  name : string;
  fullPath : string;
  count : CountValue;
  children : list (string * CategoryNode);
  level : Z
}.

(** [s.split(sep)] for a separator of one code unit. *)
Fixpoint split (sep : Ascii.ascii) (s : string) : list string :=
  match s with
  | EmptyString => [EmptyString]
  | String c r =>
      if Ascii.eqb c sep then EmptyString :: split sep r
      else match split sep r with
           | piece :: pieces => String c piece :: pieces
           | [] => [String c EmptyString]
           end
  end.

Definition greaterThan : Ascii.ascii := Ascii.ascii_of_N 62.

(** [categoryPath.split('>').map((p) => p.trim())]. *)
Definition partsOf (categoryPath : string) : list string :=
  trim <$> split greaterThan categoryPath.

(** [currentPath ? `${currentPath} > ${part}` : part]. *)
Definition extend (currentPath part : string) : string :=
  if truthy currentPath then currentPath +:+ " > " +:+ part else part.

(** [children.has(part)] and [children.get(part)]. *)
Definition has (part : string) (nodes : list (string * CategoryNode)) : bool :=
  existsb (λ entry, eqb (fst entry) part) nodes.

Fixpoint get (part : string) (nodes : list (string * CategoryNode))
  : option CategoryNode :=
  match nodes with
  | [] => None
  | (k, node) :: rest => if eqb k part then Some node else get part rest
  end.

(** The node under [part] replaced by [f] of it: what the mutations made
    through the reference [children.get(part)] amount to. *)
Fixpoint descend (part : string) (f : CategoryNode → CategoryNode)
    (nodes : list (string * CategoryNode)) : list (string * CategoryNode) :=
  match nodes with
  | [] => []
  | (k, node) :: rest =>
      if eqb k part then (k, f node) :: rest
      else (k, node) :: descend part f rest
  end.

(** The inner [parts.forEach] from position [index] on, [nodes] being
    the children of [currentNode]. *)
Fixpoint insertParts (categoryCounts : gmap string Z) (parts : list string)
    (currentPath : string) (index : Z) (nodes : list (string * CategoryNode))
  : list (string * CategoryNode) :=
  match parts with
  | [] => nodes
  | part :: rest =>
      let currentPath' := extend currentPath part in
      let nodes' :=
        if has part nodes then nodes
        else nodes ++ [(part, {| name := part;
                                 fullPath := currentPath';
                                 count := orZero categoryCounts currentPath';
                                 children := [];
                                 level := index |})] in
      descend part
        (λ currentNode,
           {| name := name currentNode;
              fullPath := fullPath currentNode;
              count := count currentNode;
              children := insertParts categoryCounts rest currentPath' (index + 1)
                            (children currentNode);
              level := level currentNode |})
        nodes'
  end.

(** [buildCategoryTree]. *)
Definition buildCategoryTree (categories : list string)
    (categoryCounts : gmap string Z) : CategoryNode :=
  {| name := EmptyString; fullPath := EmptyString; count := Count 0;
     children := foldl (λ nodes categoryPath,
                          insertParts categoryCounts (partsOf categoryPath)
                            EmptyString 0 nodes)
                       [] categories;
     level := -1 |}.

End CategoryTree.

(** * Notions and scenarios of the properties *)

Import JsString JsObject Facets Filters Api Store Engine Paging Effects Session.

(** ** Boolean facet buckets *)

(** The spellings of a truth value, case-insensitively. *)
Definition spells (v : bool) (s : string) : Prop :=
  if v then toLowerCase s = "1" ∨ toLowerCase s = "true"
  else toLowerCase s = "0" ∨ toLowerCase s = "false".

(** A bucket key denotes [v]: the native boolean, the number 1 or 0, or
    one of the string spellings. *)
Definition keyDenotes (k : BucketKey) (v : bool) : Prop :=
  match k with
  | KeyBoolean b => b = v
  | KeyNumber n => n = (if v then 1 else 0)
  | KeyString s => spells v s
  | KeyNull => False
  end.

(** A bucket denotes [v] through its key or, when the key denotes
    nothing, through its [key_as_string]. *)
Definition bucketDenotes (bucket : FacetBucket) (v : bool) : Prop :=
  keyDenotes (key bucket) v
  ∨ ((∀ w, ¬ keyDenotes (key bucket) w)
     ∧ ∃ s, key_as_string bucket = Some s ∧ spells v s).

(** ** The search effect: minimum query length and de-duplication *)

(** The pair held by the two de-duplication refs. *)
Definition dedupRefs (s : State) : option string * string :=
  (lastSearchedQueryRef (behaviour s), lastSearchedFiltersRef (behaviour s)).

(** Number of requests a trigger issued. *)
Definition issued {A} (r : option A) : nat :=
  match r with Some _ => 1%nat | None => 0%nat end.

(** [JSON.stringify] on a filter object whose strings need no escaping,
    the keys in the order of [FilterState]. *)
Definition stringifyPlain (f : FilterState) : string :=
  let arr (name : string) (l : list string) :=
    quoted name +:+ ":[" +:+ join "," (quoted <$> l) +:+ "]" in
  "{" +:+ join ","
    [ arr "categories" (categories f); arr "brands" (brands f);
      arr "colors" (colors f); arr "sizes" (sizes f); arr "tags" (tags f);
      arr "stockStatus" (stockStatus f);
      arr "featuredProducts" (featuredProducts f);
      arr "saleStatus" (saleStatus f);
      quoted "priceRange" +:+ ":[" +:+ pretty (fst (priceRange f)) +:+ ","
        +:+ pretty (snd (priceRange f)) +:+ "]" ]
  +:+ "}".

(** ** The zero-result fallback *)

(** The filters of the scenario: the brand "Nike" and nothing else. *)
Definition nikeFilters : FilterState :=
  {| categories := []; brands := ["Nike"]; colors := []; sizes := []; tags := [];
     stockStatus := []; featuredProducts := []; saleStatus := [];
     priceRange := (0, 10000) |}.

(** The message of the scenario. *)
Definition nikeMessage : string :=
  "No results found for brand " +:+ quoted "Nike"
    +:+ ". Showing popular products instead.".

(** ** What reading a response may write *)

(** The cells of [Control] that reading a search response leaves alone. *)
Definition sequencing (s : State) : bool * bool * Z * Z * Z * bool * Z :=
  (isLoading (ctl s), isLoadingMore (ctl s), currentPage (ctl s),
   searchRequestIdRef (ctl s), maxPrice (ctl s),
   globalFacetsFetched (ctl s), globalTotalProducts (ctl s)).

(** ** Load more *)

(** The filter parameters of a request, the price range apart. *)
Definition filterParams (sp : SearchParams) :=
  (sp_categories sp, sp_colors sp, sp_sizes sp, sp_brands sp, sp_tags sp,
   sp_stockStatus sp, insale sp, featured sp).

(** The [i]-th capital letter, as a string. *)
Definition letter (i : nat) : string :=
  String (Ascii.ascii_of_nat (65 + i)) EmptyString.

(** Twelve products identified by the letters from the [from]-th on. *)
Definition samplePage (from : nat) : list Product :=
  (λ i, mkProduct (letter i) "item" None None None) <$> seq from 12.

(** The store of the scenarios, and the filters nobody touched. *)
Definition shopUrl : string := "https://shop.example".

Definition noFilters : FilterState := filters initialState.

Definition firstPage : SearchResponse :=
  mkResponse (samplePage 0) 24 true None false None None None.

Definition secondPage : SearchResponse :=
  mkResponse (samplePage 12) 24 false None false None None None.

(** ** Failure of the primary request *)

(** "Conservative": the state does not say that more results exist. *)
Definition conservative (s : State) : Prop := hasMoreProducts (results s) = false.

(** A search for "shoes" from the initial state whose request fails with
    an error other than an abort. *)
Definition afterFailedSearch : State :=
  state (run [ Search (PerformSearch shopUrl noFilters "shoes");
               Search (SearchRejected 1 OtherError) ]
           (start initialState)).

(** ** Superseded responses *)

Definition cap : Product := mkProduct "c1" "Cap" (Some shopUrl) None None.

Definition popular1 : Product := mkProduct "p1" "Mug" (Some shopUrl) None None.

Definition popular2 : Product := mkProduct "p2" "Pen" (Some shopUrl) None None.

Definition emptyResponse : SearchResponse :=
  mkResponse [] 0 false None false None None None.

Definition capResponse : SearchResponse :=
  mkResponse [cap] 1 false None false None None None.

Definition popularResponse : SearchResponse :=
  mkResponse [popular1; popular2] 5 true None false None None None.

(** Generation 1 (brand "Nike") got its empty primary response and waits
    for the fallback; generation 2 (query "cap") was issued and
    answered. *)
Definition supersededFallback : System :=
  run [ Search (PerformSearch shopUrl nikeFilters EmptyString);
        Search (SearchResolved 1 (IsSearchResponse emptyResponse));
        Search (PerformSearch shopUrl noFilters "cap");
        Search (SearchResolved 2 (IsSearchResponse capResponse)) ]
      (start initialState).

(** Generations 1 and 2 were issued; generation 2 was answered. *)
Definition supersededPrimary : System :=
  run [ Search (PerformSearch shopUrl noFilters "hat");
        Search (PerformSearch shopUrl noFilters "cap");
        Search (SearchResolved 2 (IsSearchResponse capResponse)) ]
      (start initialState).

(** ** Static and reactive facet counts *)

(** "Replaced from the response": each reactive count map is the one
    built from the buckets the response carries for its dimension. *)
Definition replacedFrom (fp : FacetsPayload) (s : State) : Prop :=
  categoryCounts (counts s) = countKeyedBuckets (extractFacetBuckets (f_category fp))
  ∧ brandCounts (counts s) = countKeyedBuckets (extractFacetBuckets (f_brand fp))
  ∧ tagCounts (counts s) = countKeyedBuckets (extractFacetBuckets (f_tag fp)).

Definition bucket (name : string) (n : Z) : RawEntry :=
  BucketObject {| raw_key := Some (KeyString name); raw_key_as_string := None;
                  raw_doc_count := Some n |}.

Definition shoeFacets : FacetsPayload :=
  {| f_category := FacetBuckets [bucket "Shoes" 3];
     f_brand := FacetBuckets [bucket "Acme" 3];
     f_color := FacetAbsent; f_size := FacetAbsent;
     f_tag := FacetBuckets [bucket "new" 1];
     f_instock := FacetBuckets [bucket "instock" 3];
     f_featured := FacetBuckets [bucket "true" 1];
     f_insale := FacetBuckets [bucket "false" 3];
     f_price_stats_max := None |}.

Definition bucketlessFacets : FacetsPayload :=
  {| f_category := FacetBuckets []; f_brand := FacetBuckets [];
     f_color := FacetBuckets []; f_size := FacetBuckets [];
     f_tag := FacetBuckets []; f_instock := FacetBuckets [];
     f_featured := FacetBuckets []; f_insale := FacetBuckets [];
     f_price_stats_max := None |}.

Definition shoeResponse : SearchResponse :=
  mkResponse [cap] 1 false None false None (Some shoeFacets) None.

Definition bucketlessResponse : SearchResponse :=
  mkResponse [] 0 false None false None (Some bucketlessFacets) None.

(** A search for "shoe" answered with one category bucket, then a search
    for "zzz" answered with no bucket at all. *)
Definition afterBucketlessResponse : State :=
  state (run [ Search (PerformSearch shopUrl noFilters "shoe");
               Search (SearchResolved 1 (IsSearchResponse shoeResponse));
               Search (PerformSearch shopUrl noFilters "zzz");
               Search (SearchResolved 2 (IsSearchResponse bucketlessResponse)) ]
           (start initialState)).

(** ** The price range and its ceilings *)

(** The clamp: the range starts at 0 or above and ends at the filtered
    price ceiling or below. *)
Definition priceClamp (s : State) : Prop :=
  0 ≤ fst (priceRange (filters s))
  ∧ snd (priceRange (filters s)) ≤ filteredMaxPrice (ctl s).

Definition pricedCap : Product :=
  mkProduct "c1" "Cap" (Some shopUrl) (Some (120 # 1)) None.

Definition pricedResponse : SearchResponse :=
  mkResponse [pricedCap] 1 false None false None (Some bucketlessFacets) None.

(** A search for "cap" without filters, answered by one product priced
    120: the filtered ceiling becomes 150. *)
Definition afterPricedResponse : State :=
  state (run [ Search (PerformSearch shopUrl noFilters "cap");
               Search (SearchResolved 1 (IsSearchResponse pricedResponse)) ]
           (start initialState)).

(** ** Recent searches *)

(** Position of the last search for [x] in a history, counting from
    [i]. Searches are compared after trimming, as they are recorded. *)
Fixpoint lastSearched (x : string) (history : list string) (i : nat) : option nat :=
  match history with
  | [] => None
  | query :: rest =>
      match lastSearched x rest (S i) with
      | Some k => Some k
      | None => if JsString.eqb (trim query) x then Some i else None
      end
  end.

(** "Most recent first": of two listed searches, the one listed first was
    last searched later. *)
Definition mostRecentFirst (history l : list string) : Prop :=
  ∀ i j x y, l !! i = Some x → l !! j = Some y → (i < j)%nat →
    ∃ a b, lastSearched x history 0 = Some a
           ∧ lastSearched y history 0 = Some b ∧ (b < a)%nat.

(** Recording with a clock: next to the component, the time at which
    each search was last put into the list, and the number of searches
    recorded so far. *)
Definition recordTimed (acc : State * gmap string nat * nat) (query : string)
  : State * gmap string nat * nat :=
  let '(s, times, clock) := acc in
  (addToRecentSearches query s,
   if truthy (trim query) && negb (includes (trim query) (recentSearches s))
   then <[trim query := clock]> times else times,
   S clock).

Definition additionTimes (history : list string) : gmap string nat :=
  snd (fst (foldl recordTimed (initialState, ∅, 0%nat) history)).

(** "Most recently added first": of two listed searches, the one listed
    first was put into the list later. *)
Definition mostRecentlyAddedFirst (times : gmap string nat) (l : list string) : Prop :=
  ∀ i j x y, l !! i = Some x → l !! j = Some y → (i < j)%nat →
    ∃ a b, times !! x = Some a ∧ times !! y = Some b ∧ (b < a)%nat.

Definition timedInvariant (acc : State * gmap string nat * nat) : Prop :=
  let '(s, times, clock) := acc in
  (∀ x, x ∈ recentSearches s → ∃ a, times !! x = Some a ∧ (a < clock)%nat)
  ∧ mostRecentlyAddedFirst times (recentSearches s).

(** ** Naming the applied filters *)

(** A message names a selection when the word for its dimension or one
    of the selected values occurs in it. *)
Definition names (word : string) (selection : list string) (msg : string) : Prop :=
  Autocomplete.includes word msg = true
  ∨ ∃ v, v ∈ selection ∧ Autocomplete.includes v msg = true.






(** ** De-duplication, the pair last applied and the requests sent *)

(** A state in which searches run: the recommendations view was left. *)
Definition searching : State :=
  initialState |> setShowRecommendations false |> setIsInitialState false.

(** The runs of the search effect for the debounced pairs [pairs], one
    after the other, provided that none of them issues a request. *)
Fixpoint quietRuns (JSON_stringify : FilterState → string) (storeUrl : string)
    (pairs : list (string * FilterState)) (s : State) : option State :=
  match pairs with
  | [] => Some s
  | (query, f) :: rest =>
      match searchEffect JSON_stringify storeUrl query f s with
      | (s', None) => quietRuns JSON_stringify storeUrl rest s'
      | (_, Some _) => None
      end
  end.

(** "The pair is compared against the last applied pair": once the
    response to the request issued for a pair has been applied, and as
    long as no other request is issued, a run of the effect for the same
    pair issues nothing. *)
Definition skipsAppliedPair (JSON_stringify : FilterState → string)
    (storeUrl : string) (s0 : State) : Prop :=
  ∀ query f s1 p r s2 between s3,
    searchEffect JSON_stringify storeUrl query f s0 = (s1, Some p) →
    onSearchResolved p (IsSearchResponse r) s1 = (s2, None) →
    quietRuns JSON_stringify storeUrl between s2 = Some s3 →
    snd (searchEffect JSON_stringify storeUrl query f s3) = None.

(** The search for "shoes" from [searching]: the state the effect
    leaves, the request it issues, the state once its response is
    displayed, and the state after a run of the effect for "sh". *)
Definition shoesIssued : State :=
  fst (searchEffect stringifyPlain shopUrl "shoes" noFilters searching).

Definition shoesRequest : PendingSearch :=
  {| currentRequestId := 1; ps_storeUrl := shopUrl;
     ps_debouncedFilters := noFilters;
     ps_params := searchParamsOf shopUrl noFilters 10000 "shoes" |}.

Definition shoesShown : State :=
  fst (onSearchResolved shoesRequest (IsSearchResponse capResponse) shoesIssued).

Definition afterShortQuery : State :=
  fst (searchEffect stringifyPlain shopUrl "sh" noFilters shoesShown).

(** The request a run of the effect sent, if any. *)
Definition sentBy (o : option PendingSearch) : list SearchParams :=
  match o with Some p => [ps_params p] | None => [] end.

(** The fallback request a settled primary request started, if any. *)
Definition fallbackSentBy (o : option PendingFallback) : list SearchParams :=
  match o with Some pf => [fb_params pf] | None => [] end.

(** The network requests that leave when the effect runs twice in
    succession for the same pair, the request of the first run (and the
    fallback request it may start) being answered in between. *)
Definition networkRequests (JSON_stringify : FilterState → string)
    (storeUrl query : string) (f : FilterState)
    (primary fallback : ApiResult) (s : State) : list SearchParams :=
  match searchEffect JSON_stringify storeUrl query f s with
  | (s1, Some p) =>
      ps_params p ::
      match onSearchResolved p primary s1 with
      | (s2, Some pf) =>
          fb_params pf ::
          sentBy (snd (searchEffect JSON_stringify storeUrl query f
                         (onFallbackResolved pf fallback s2)))
      | (s2, None) =>
          sentBy (snd (searchEffect JSON_stringify storeUrl query f s2))
      end
  | (s1, None) => sentBy (snd (searchEffect JSON_stringify storeUrl query f s1))
  end.

(** ** Load more and the search on display *)

(** "Identical filters": the load-more request carries the query, the
    filter parameters and the price range of the request whose results
    are on display. *)
Definition continues (shown more : SearchParams) : Prop :=
  q more = q shown
  ∧ filterParams more = filterParams shown
  ∧ sp_priceRange more = sp_priceRange shown.

(** A parameter carries a selection: absent for the empty selection,
    the selection itself otherwise. *)
Definition carries (param : option (list string)) (selection : list string) : Prop :=
  (selection = [] → param = None) ∧ (selection ≠ [] → param = Some selection).

(** The first page of the search for "shoes" on display; then the
    debounced query becomes "sh" and the brand "Nike" is selected, each
    followed by a run of the effect. *)
Definition shoesFirstPage : State :=
  fst (onSearchResolved shoesRequest (IsSearchResponse firstPage) shoesIssued).

Definition afterShortQueries : State :=
  fst (searchEffect stringifyPlain shopUrl "sh" nikeFilters
         (fst (searchEffect stringifyPlain shopUrl "sh" noFilters shoesFirstPage))).

(** The load-more requests issued then, and at once after the first
    page. *)
Definition otherSearchPage : PendingMore :=
  {| pm_storeUrl := shopUrl;
     pm_params := loadMoreParams shopUrl nikeFilters "sh" 1 |}.

Definition shoesSecondPage : PendingMore :=
  {| pm_storeUrl := shopUrl;
     pm_params := loadMoreParams shopUrl noFilters "shoes" 1 |}.

(** ** Autocomplete *)

Section AutocompleteNotions.
Import Autocomplete.

(** The code units of a string, in order. *)
Fixpoint chars (s : string) : list Ascii.ascii :=
  match s with
  | EmptyString => []
  | String c r => c :: chars r
  end.

(** The sort of [rankSuggestions] read on the texts alone, for a scoring
    function [scoreOf]. *)
Fixpoint insertText (scoreOf : string → Z) (t : string) (sorted : list string)
  : list string :=
  match sorted with
  | [] => [t]
  | u :: rest =>
      if scoreOf t <? scoreOf u then u :: insertText scoreOf t rest
      else t :: u :: rest
  end.

Definition sortTexts (scoreOf : string → Z) (l : list string) : list string :=
  foldr (insertText scoreOf) [] l.

(** "Not above": the order of a ranked list, higher scores first. *)
Definition notAbove (scoreOf : string → Z) (x y : string) : Prop :=
  scoreOf y ≤ scoreOf x.

End AutocompleteNotions.

(** ** Request generations in a session *)

(** An event that makes [performSearch] take a new generation. *)
Definition issuing (e : Event) : bool :=
  match e with
  | Search (PerformSearch storeUrl _ _) => truthy storeUrl
  | _ => false
  end.

(** The generation counter of a system. *)
Definition generation (sys : System) : Z := searchRequestIdRef (ctl (state sys)).

(** Every request in flight is filed under the generation its
    continuation captured, which lies above [r0] and not above the
    counter; no generation awaits a primary and a fallback response at
    once. *)
Definition inFlightAbove (r0 : Z) (sys : System) : Prop :=
  (∀ id p, searches sys !! id = Some p →
     currentRequestId p = id ∧ r0 < id ≤ generation sys)
  ∧ (∀ id pf, fallbacks sys !! id = Some pf →
       currentRequestId (fb_search pf) = id ∧ r0 < id ≤ generation sys)
  ∧ (∀ id, is_Some (searches sys !! id) → fallbacks sys !! id = None).

(** Two searches issued and none answered. *)
Definition twoInFlight : list Event :=
  [ Search (PerformSearch shopUrl noFilters "hat");
    Search (PerformSearch shopUrl noFilters "cap") ].

(** ** Keyed facet counts *)

(** The category buckets of [shoeFacets]. *)
Definition shoeBuckets : list FacetBucket :=
  [ {| key := KeyString "Shoes"; key_as_string := None; doc_count := 3 |} ].

(** ** Filter visibility *)

(** The nine filter dimensions of the sidebar. *)
Inductive Dimension :=
| Brands | Colors | Sizes | Tags
| Categories | Price | StockStatus | Featured | Sale.

(** The [field] a configuration entry must carry to speak of a
    dimension, as [fetchFacetConfiguration] compares it. *)
Definition fieldOf (d : Dimension) : string :=
  match d with
  | Brands => "brand" | Colors => "color" | Sizes => "size" | Tags => "tags"
  | Categories => "category" | Price => "price" | StockStatus => "instock"
  | Featured => "featured" | Sale => "insale"
  end.

(** Whether a dimension is shown. *)
Definition shown (d : Dimension) (v : Handlers.FilterVisibility) : bool :=
  match d with
  | Brands => Handlers.show_brands v | Colors => Handlers.show_colors v
  | Sizes => Handlers.show_sizes v | Tags => Handlers.show_tags v
  | Categories => Handlers.show_categories v | Price => Handlers.show_price v
  | StockStatus => Handlers.show_stockStatus v
  | Featured => Handlers.show_featured v | Sale => Handlers.show_sale v
  end.

(** A configuration that only speaks of brands. *)
Definition brandOnly : list Handlers.FacetConfig :=
  [ Handlers.mkFacetConfig "brand" true ].

(** ** The category tree *)

Section CategoryTreeNotions.
Import CategoryTree.

(** The node reached from a list of children by following the names
    [names], one level per name. *)
Fixpoint find (names : list string) (nodes : list (string * CategoryNode))
  : option CategoryNode :=
  match names with
  | [] => None
  | n :: ns =>
      match get n nodes with
      | Some node => match ns with [] => Some node | _ => find ns (children node) end
      | None => None
      end
  end.

(** What a node says of itself, its children apart. *)
Definition label (node : CategoryNode) : string * string * CountValue * Z :=
  (name node, fullPath node, count node, level node).

(** The path written by [names] below [currentPath]. *)
Definition pathBelow (currentPath : string) (names : list string) : string :=
  foldl extend currentPath names.

(** The label the node reached by [names] must carry, when the walk
    starts at depth [index] below [currentPath]. *)
Definition labelAt (categoryCounts : gmap string Z) (currentPath : string)
    (index : Z) (names : list string) : string * string * CountValue * Z :=
  (default EmptyString (last names),
   pathBelow currentPath names,
   orZero categoryCounts (pathBelow currentPath names),
   index + Z.of_nat (length names) - 1).

End CategoryTreeNotions.

Section CategoryPathNotions.
Import CategoryTree.

(** A name as the tree writes it: not empty, without [>], and without
    white space at either end. *)
Definition plainName (p : string) : Prop :=
  p ≠ EmptyString ∧ trim p = p ∧ greaterThan ∉ chars p.

(** What follows the first name in a written path. *)
Definition tailOf (names : list string) : string :=
  foldr (λ m acc, " > " +:+ m +:+ acc) EmptyString names.

End CategoryPathNotions.

(** ** Requests and pages *)

(** A selection made through labels in another language. *)
Definition translatedFeatured : FilterState :=
  {| categories := []; brands := []; colors := []; sizes := []; tags := [];
     stockStatus := []; featuredProducts := ["Destacados"]; saleStatus := [];
     priceRange := (0, 10000) |}.

(** A page of a search that went on while another was issued. *)
Definition stalePage : SearchResponse :=
  mkResponse (samplePage 12) 24 true None false None None None.

(** Two category paths under one parent, and a count for one of them. *)
Definition menCategories : list string := ["Men > Shoes"; "Men > Hats"].

Definition menCounts : gmap string Z := {[ "Men > Shoes" := 4 ]}.

(** * Properties *)

(** ** Boolean facet buckets *)

Lemma eqb_eq (a b : string) : JsString.eqb a b = true ↔ a = b.
Proof. unfold JsString.eqb. apply String.eqb_eq. Qed.

Lemma eqb_neq (a b : string) : JsString.eqb a b = false ↔ a ≠ b.
Proof. unfold JsString.eqb. apply String.eqb_neq. Qed.

Lemma booleanOfNormalized_Some (n : string) (v : bool) :
  booleanOfNormalized n = Some v
  ↔ (if v then n = "1" ∨ n = "true" else n = "0" ∨ n = "false").
Proof.
  unfold booleanOfNormalized.
  destruct (JsString.eqb n "1") eqn:E1; [apply eqb_eq in E1; subst n|];
    [destruct v; simpl; split; intros H; try discriminate; auto;
     destruct H; discriminate|].
  destruct (JsString.eqb n "true") eqn:E2; [apply eqb_eq in E2; subst n|];
    [destruct v; simpl; split; intros H; try discriminate; auto;
     destruct H; discriminate|].
  apply eqb_neq in E1, E2. simpl.
  destruct (JsString.eqb n "0") eqn:E3; [apply eqb_eq in E3; subst n|];
    [destruct v; simpl; split; intros H; try discriminate; auto;
     destruct H; discriminate|].
  destruct (JsString.eqb n "false") eqn:E4; [apply eqb_eq in E4; subst n|];
    [destruct v; simpl; split; intros H; try discriminate; auto;
     destruct H; discriminate|].
  apply eqb_neq in E3, E4. simpl.
  destruct v; split; intros H; try discriminate; destruct H; contradiction.
Qed.

Lemma booleanOfNormalized_None (n : string) :
  booleanOfNormalized n = None
  ↔ ∀ v : bool, ¬ (if v then n = "1" ∨ n = "true" else n = "0" ∨ n = "false").
Proof.
  split.
  - intros H v Hv. apply booleanOfNormalized_Some in Hv. congruence.
  - intros H. destruct (booleanOfNormalized n) as [v|] eqn:E; [|done].
    apply booleanOfNormalized_Some in E. destruct (H v E).
Qed.

Lemma toLowerCase_truthy (s : string) : truthy s = false → toLowerCase s = EmptyString.
Proof. destruct s; [done | discriminate]. Qed.

Lemma resolveFromKeyAsString_Some (bucket : FacetBucket) (v : bool) :
  resolveFromKeyAsString bucket = Some v
  ↔ ∃ s, key_as_string bucket = Some s ∧ spells v s.
Proof.
  unfold resolveFromKeyAsString, spells.
  destruct (key_as_string bucket) as [s|].
  - destruct (truthy s) eqn:T.
    + rewrite booleanOfNormalized_Some. split.
      * intros H. exists s. done.
      * intros (s' & [= <-] & H). done.
    + split; [discriminate|]. intros (s' & [= <-] & H).
      rewrite (toLowerCase_truthy s T) in H.
      destruct v, H; discriminate.
  - split; [discriminate|]. intros (s' & [=] & _).
Qed.

Lemma resolveBooleanFacetValue_denotes (bucket : FacetBucket) (v : bool) :
  resolveBooleanFacetValue bucket = Some v ↔ bucketDenotes bucket v.
Proof.
  unfold resolveBooleanFacetValue, bucketDenotes.
  destruct (key bucket) as [s|n|b|] eqn:K; simpl.
  - destruct (booleanOfNormalized (toLowerCase s)) as [w|] eqn:E.
    + apply booleanOfNormalized_Some in E. split.
      * intros [= <-]. left. done.
      * intros [H | [H _]].
        -- unfold spells in H. destruct w, v; try done;
             destruct E as [E|E], H as [H|H]; congruence.
        -- destruct (H w). done.
    + rewrite resolveFromKeyAsString_Some.
      pose proof (proj1 (booleanOfNormalized_None _) E) as N. split.
      * intros H. right. split; [|done]. intros w Hw. apply (N w). done.
      * intros [H | [_ H]]; [|done]. destruct (N v). done.
  - destruct (Z.eqb_spec n 1) as [->|N1].
    + split.
      * intros [= <-]. left. done.
      * intros [H | [H _]]; [destruct v; [done|discriminate]|].
        destruct (H true). done.
    + destruct (Z.eqb_spec n 0) as [->|N0].
      * split.
        -- intros [= <-]. left. done.
        -- intros [H | [H _]]; [destruct v; [discriminate|done]|].
           destruct (H false). done.
      * rewrite resolveFromKeyAsString_Some. split.
        -- intros H. right. split; [|done]. intros [] Hw; congruence.
        -- intros [H | [_ H]]; [|done]. destruct v; congruence.
  - split.
    + intros [= <-]. left. done.
    + intros [H | [H _]]; [congruence|]. destruct (H b). done.
  - rewrite resolveFromKeyAsString_Some. split.
    + intros H. right. split; [|done]. intros w [].
    + intros [[] | [_ H]]. done.
Qed.

(** C8. A boolean facet bucket resolves to [v] exactly when its key is
    the native boolean [v], the number 1 (for true) or 0 (for false), or a
    string spelling "1"/"true" or "0"/"false" in any letter case, or, the
    key being none of these, when its [key_as_string] is such a spelling.
    A bucket that resolves to nothing leaves both counts as they were, and
    the buckets [{key: "true", doc_count: 5}] and [{key: 0, doc_count: 3}]
    count as 5 for true and 3 for false. *)
Theorem C8_boolean_bucket_resolution (bucket : FacetBucket) (v : bool) (acc : Z * Z) :
  (resolveBooleanFacetValue bucket = Some v ↔ bucketDenotes bucket v)
  ∧ (resolveBooleanFacetValue bucket = None → countBooleanBucket acc bucket = acc)
  ∧ countBooleanBuckets
      [ {| key := KeyString "true"; key_as_string := None; doc_count := 5 |};
        {| key := KeyNumber 0; key_as_string := None; doc_count := 3 |} ]
    = (5, 3).
Proof.
  split; [apply resolveBooleanFacetValue_denotes|].
  split; [|reflexivity].
  intros H. unfold countBooleanBucket. rewrite H. reflexivity.
Qed.

(** An upper-case spelling with a [key_as_string] that says otherwise
    resolves by its key; a bucket with the key "maybe" is dropped. *)
Lemma C8_boolean_bucket_resolution_witness :
  resolveBooleanFacetValue
    {| key := KeyString "TRUE"; key_as_string := Some "0"; doc_count := 7 |}
  = Some true
  ∧ countBooleanBucket (5, 3)
      {| key := KeyString "maybe"; key_as_string := None; doc_count := 9 |}
    = (5, 3).
Proof.
  split.
  - apply (proj1 (C8_boolean_bucket_resolution
                    {| key := KeyString "TRUE"; key_as_string := Some "0";
                       doc_count := 7 |} true (0, 0))).
    left. right. reflexivity.
  - apply (proj1 (proj2 (C8_boolean_bucket_resolution
                    {| key := KeyString "maybe"; key_as_string := None;
                       doc_count := 9 |} true (5, 3)))).
    reflexivity.
Defined.

(** ** The search effect: minimum query length and de-duplication *)

Lemma performSearch_behaviour storeUrl f query s :
  behaviour (fst (performSearch storeUrl f query s)) = behaviour s.
Proof. unfold performSearch. destruct (truthy storeUrl); reflexivity. Qed.

Lemma performSearch_query storeUrl f query s p :
  snd (performSearch storeUrl f query s) = Some p → q (ps_params p) = query.
Proof.
  unfold performSearch. destruct (truthy storeUrl); simpl; [|discriminate].
  intros [= <-]. reflexivity.
Qed.

Lemma truthy_false (s : string) : truthy s = false ↔ s = EmptyString.
Proof. destruct s; split; intros H; done. Qed.

Section SearchEffectProps.

Variable JSON_stringify : FilterState → string.

(** A trigger that finds its own pair in the refs issues nothing. *)
Lemma searchEffect_duplicate storeUrl query f s :
  dedupRefs s = (Some (trim query), JSON_stringify f) →
  snd (searchEffect JSON_stringify storeUrl query f s) = None.
Proof.
  unfold dedupRefs. intros [= Hq Hf]. unfold searchEffect.
  destruct (truthy storeUrl); simpl; [|done].
  destruct (hasActiveDebouncedFilters _ _ && _ && _); simpl.
  all: try (destruct (showRecommendations _ || _); simpl; [done|]).
  all: destruct (isSearchingFromSuggestion _); simpl; [done|].
  all: rewrite Hq, Hf, bool_decide_eq_true_2 by done.
  all: unfold JsString.eqb; rewrite String.eqb_refl; done.
Qed.

(** A trigger that issues a request leaves its pair in the refs. *)
Lemma searchEffect_records storeUrl query f s p :
  snd (searchEffect JSON_stringify storeUrl query f s) = Some p →
  dedupRefs (fst (searchEffect JSON_stringify storeUrl query f s))
  = (Some (trim query), JSON_stringify f).
Proof.
  unfold searchEffect.
  remember (3 <=? String.length (trim query))%nat as long eqn:L.
  destruct (truthy storeUrl) eqn:U; simpl; [|done].
  destruct (negb _ && _); [done|].
  destruct (isSearchingFromSuggestion _); [done|].
  destruct (bool_decide _ && _); [done|].
  destruct (truthy (trim query)); simpl.
  - destruct long; [|done].
    intros _. unfold dedupRefs. rewrite performSearch_behaviour.
    destruct (_ && _ && _); reflexivity.
  - intros _. unfold dedupRefs. rewrite performSearch_behaviour.
    destruct (_ && _ && _); reflexivity.
Qed.

(** A request leaves only for an empty or a long enough query. *)
Lemma searchEffect_issues storeUrl query f s p :
  snd (searchEffect JSON_stringify storeUrl query f s) = Some p →
  (trim query = EmptyString ∧ q (ps_params p) = EmptyString)
  ∨ ((3 ≤ String.length (trim query))%nat ∧ q (ps_params p) = query).
Proof.
  unfold searchEffect.
  remember (3 <=? String.length (trim query))%nat as long eqn:L.
  destruct (truthy storeUrl) eqn:U; simpl; [|done].
  destruct (negb _ && _); [done|].
  destruct (isSearchingFromSuggestion _); [done|].
  destruct (bool_decide _ && _); [done|].
  destruct (truthy (trim query)) eqn:T; simpl.
  - destruct long; [|done]. symmetry in L. apply Nat.leb_le in L.
    intros H. right. split; [done|]. by apply performSearch_query in H.
  - intros H. left. split; [by apply truthy_false|].
    by apply performSearch_query in H.
Qed.

End SearchEffectProps.

(** C10. Whatever the state, a debounced query whose trimmed length is 1
    or 2 makes the search effect issue no request; when the effect does
    issue one, the trimmed query is empty (and the request asks for the
    empty query, fetching all products) or has at least 3 characters (and
    the request carries the debounced query). *)
Theorem C10_minimum_query_length (JSON_stringify : FilterState → string)
    (storeUrl debouncedSearchQuery : string) (debouncedFilters : FilterState)
    (s : State) :
  ((1 ≤ String.length (trim debouncedSearchQuery) ≤ 2)%nat →
   snd (searchEffect JSON_stringify storeUrl debouncedSearchQuery debouncedFilters s)
   = None)
  ∧ (∀ p,
      snd (searchEffect JSON_stringify storeUrl debouncedSearchQuery debouncedFilters s)
      = Some p →
      (trim debouncedSearchQuery = EmptyString ∧ q (ps_params p) = EmptyString)
      ∨ ((3 ≤ String.length (trim debouncedSearchQuery))%nat
         ∧ q (ps_params p) = debouncedSearchQuery)).
Proof.
  split.
  - intros [Hlo Hhi].
    destruct (snd (searchEffect _ _ _ _ _)) as [p|] eqn:E; [|done].
    apply searchEffect_issues in E as [[E _] | [E _]].
    + rewrite E in Hlo. simpl in Hlo. lia.
    + lia.
  - intros p. apply searchEffect_issues.
Qed.

(** The query " ab " after a search for "shoes" was shown: nothing is
    issued. *)
Lemma C10_minimum_query_length_witness :
  snd (searchEffect stringifyPlain "https://shop.example" " ab "
         (filters initialState)
         (initialState |> setShowRecommendations false |> setIsInitialState false))
  = None.
Proof.
  apply (proj1 (C10_minimum_query_length stringifyPlain "https://shop.example"
                  " ab " (filters initialState)
                  (initialState |> setShowRecommendations false
                                |> setIsInitialState false))).
  vm_compute. lia.
Defined.

(** ** Strings: concatenation and occurrence *)

Lemma app_String (c : Ascii.ascii) (a b : string) :
  String c a +:+ b = String c (a +:+ b).
Proof. reflexivity. Qed.

Lemma app_assoc_string (a b c : string) : (a +:+ b) +:+ c = a +:+ (b +:+ c).
Proof. induction a as [|x a IH]; [reflexivity|]. by rewrite !app_String, IH. Qed.

Lemma app_empty_r (a : string) : a +:+ EmptyString = a.
Proof. induction a as [|x a IH]; [reflexivity|]. by rewrite app_String, IH. Qed.

Lemma startsWith_refl (s : string) : Autocomplete.startsWith s s = true.
Proof. induction s as [|a s IH]; simpl; [done|]. by rewrite Ascii.eqb_refl. Qed.

Lemma startsWith_includes (p s : string) :
  Autocomplete.startsWith p s = true → Autocomplete.includes p s = true.
Proof. intros H. destruct s; simpl in *; rewrite H; reflexivity. Qed.







(** ** The zero-result fallback *)


Lemma nonEmpty_true {A} (l : list A) : nonEmpty l = true ↔ l ≠ [].
Proof. destruct l; split; intros H; done. Qed.









(** ** What reading a response may write *)

Ltac split_facet_guards :=
  unfold applySearchFacets, setWhenBuckets;
  repeat match goal with
         | |- context [nonEmpty (extractFacetBuckets ?f)] =>
             destruct (nonEmpty (extractFacetBuckets f))
         end;
  try match goal with
      | |- context [roundedMaxPrice ?n ?l] => destruct (roundedMaxPrice n l)
      end.

Lemma applySearchFacets_frame fp ps s :
  results (applySearchFacets fp ps s) = results s
  ∧ globalCounts (applySearchFacets fp ps s) = globalCounts s
  ∧ behaviour (applySearchFacets fp ps s) = behaviour s
  ∧ filters (applySearchFacets fp ps s) = filters s
  ∧ recentSearches (applySearchFacets fp ps s) = recentSearches s
  ∧ staticCounts (applySearchFacets fp ps s) = staticCounts s
  ∧ sequencing (applySearchFacets fp ps s) = sequencing s.
Proof. split_facet_guards; repeat split. Qed.

Lemma readResponse_frame result s :
  results (readResponse result s) = results s
  ∧ globalCounts (readResponse result s) = globalCounts s
  ∧ behaviour (readResponse result s) = behaviour s
  ∧ filters (readResponse result s) = filters s
  ∧ recentSearches (readResponse result s) = recentSearches s
  ∧ staticCounts (readResponse result s) = staticCounts s
  ∧ sequencing (readResponse result s) = sequencing s.
Proof.
  unfold readResponse. destruct result as [r| |]; [|repeat split..].
  destruct (facets r) as [fp|].
  - destruct (applySearchFacets_frame fp (products r)
                (match query_id r with
                 | Some qid => setCurrentQueryId (Some qid) s
                 | None => s
                 end)) as (-> & -> & -> & -> & -> & -> & ->).
    destruct (query_id r); repeat split.
  - destruct (query_id r); repeat split.
Qed.

Arguments readResponse : simpl never.

Lemma readResponse_ref result s :
  searchRequestIdRef (ctl (readResponse result s)) = searchRequestIdRef (ctl s).
Proof.
  pose proof (readResponse_frame result s) as (_ & _ & _ & _ & _ & _ & H).
  unfold sequencing in H. congruence.
Qed.

Lemma readResponse_isLoadingMore result s :
  isLoadingMore (ctl (readResponse result s)) = isLoadingMore (ctl s).
Proof.
  pose proof (readResponse_frame result s) as (_ & _ & _ & _ & _ & _ & H).
  unfold sequencing in H. congruence.
Qed.

Lemma readResponse_currentPage result s :
  currentPage (ctl (readResponse result s)) = currentPage (ctl s).
Proof.
  pose proof (readResponse_frame result s) as (_ & _ & _ & _ & _ & _ & H).
  unfold sequencing in H. congruence.
Qed.

Lemma readResponse_results result s :
  results (readResponse result s) = results s.
Proof. apply readResponse_frame. Qed.

(** A current response that does not start the fallback is applied. *)
Lemma onSearchResolved_applied p result s :
  currentRequestId p = searchRequestIdRef (ctl s) →
  (o_total (outcomeOf result) =? 0)
  && hasActiveNonPriceFilters (ps_debouncedFilters p) = false →
  onSearchResolved p result s
  = (finallySearch (applyOutcome (ps_storeUrl p) (outcomeOf result)
                      (readResponse result s)), None).
Proof.
  intros Hc Hf. unfold onSearchResolved.
  rewrite readResponse_ref, Hc, Z.eqb_refl. simpl. rewrite Hf. reflexivity.
Qed.

(** What issuing a search leaves behind. *)
Lemma performSearch_issues url f query s :
  truthy url = true →
  ∃ s1 p,
    performSearch url f query s = (s1, Some p)
    ∧ currentRequestId p = searchRequestIdRef (ctl s1)
    ∧ searchRequestIdRef (ctl s1) = searchRequestIdRef (ctl s) + 1
    ∧ ps_storeUrl p = url
    ∧ ps_debouncedFilters p = f
    ∧ filteredProducts (results s1) = []
    ∧ hasMoreProducts (results s1) = true
    ∧ isLoadingMore (ctl s1) = isLoadingMore (ctl s)
    ∧ currentPage (ctl s1) = 1
    ∧ counts s1 = counts s.
Proof.
  intros Hurl. unfold performSearch. rewrite Hurl. simpl.
  eexists _, _. split; [reflexivity|]. repeat split.
Qed.

(** The result cells after the six closing setters and [finally]. *)
Lemma applied_results url o s :
  results (finallySearch (applyOutcome url o s))
  = {| filteredProducts := withStoreUrl url <$> o_products o;
       totalProducts := o_total o;
       displayedProducts := Z.of_nat (length (withStoreUrl url <$> o_products o));
       hasMoreProducts := o_hasMore o;
       searchMessage := o_message o;
       isShowingRecommended := o_showingRecommended o |}.
Proof. reflexivity. Qed.

Lemma applied_paging url o s :
  isLoadingMore (ctl (finallySearch (applyOutcome url o s))) = isLoadingMore (ctl s)
  ∧ currentPage (ctl (finallySearch (applyOutcome url o s))) = currentPage (ctl s)
  ∧ counts (finallySearch (applyOutcome url o s)) = counts s.
Proof. repeat split. Qed.

Lemma loadMoreProducts_issues url f query s :
  isLoadingMore (ctl s) = false → hasMoreProducts (results s) = true →
  truthy url = true →
  loadMoreProducts url f query s
  = (setIsLoadingMore true s,
     Some {| pm_storeUrl := url;
             pm_params := loadMoreParams url f query (currentPage (ctl s)) |}).
Proof. intros H1 H2 H3. unfold loadMoreProducts. rewrite H1, H2, H3. reflexivity. Qed.

Lemma onLoadMoreResolved_page pm r s :
  products r ≠ [] →
  filteredProducts (results (onLoadMoreResolved pm (IsSearchResponse r) s))
  = filteredProducts (results s) ++ (withStoreUrl (pm_storeUrl pm) <$> products r)
  ∧ currentPage (ctl (onLoadMoreResolved pm (IsSearchResponse r) s))
    = currentPage (ctl s) + 1
  ∧ hasMoreProducts (results (onLoadMoreResolved pm (IsSearchResponse r) s))
    = hasMore r
  ∧ isLoadingMore (ctl (onLoadMoreResolved pm (IsSearchResponse r) s)) = false.
Proof.
  intros Hr. apply nonEmpty_true in Hr.
  unfold onLoadMoreResolved, pageOf. rewrite Hr. repeat split.
Qed.

(** ** Load more *)

(** The request the search effect issues: built from the debounced
    filters, the price ceiling of the moment and the debounced query, or
    the empty query when that one is blank. *)
Lemma searchEffect_params (J : FilterState → string) url query f s p :
  snd (searchEffect J url query f s) = Some p →
  ps_params p
  = searchParamsOf url f (maxPrice (ctl s))
      (if truthy (trim query) then query else EmptyString).
Proof.
  unfold searchEffect.
  remember (3 <=? String.length (trim query))%nat as long eqn:L.
  destruct (truthy url) eqn:U; simpl; [|done].
  destruct (negb _ && _); [done|].
  destruct (isSearchingFromSuggestion _); [done|].
  destruct (bool_decide _ && _); [done|].
  assert (H : ∀ query' s', maxPrice (ctl s') = maxPrice (ctl s) →
              snd (performSearch url f query' s') = Some p →
              ps_params p = searchParamsOf url f (maxPrice (ctl s)) query').
  { intros query' s' Hm. unfold performSearch. rewrite U. simpl.
    intros [= <-]. simpl. by rewrite Hm. }
  destruct (truthy (trim query)); simpl.
  - destruct long; [|done]. apply H. by destruct (_ && _ && _).
  - apply H. by destruct (_ && _ && _).
Qed.

(** C5, as stated, fails. The load-more request is built from the
    debounced query and filters of the moment, and these need not be
    those of the list on display: with the first page for "shoes"
    displayed, the query becomes "sh" and the brand "Nike" is selected;
    the search effect issues nothing for a query of two characters, the
    list stays, and load-more asks for page 2 of "sh" under the brand
    "Nike". And even at once after the first page the requests differ
    in the price range, which the first-page request omits when it is
    the full range and the load-more request always sends. *)
Lemma C5_load_more_of_another_search :
  searchEffect stringifyPlain shopUrl "shoes" noFilters searching
  = (shoesIssued, Some shoesRequest)
  ∧ quietRuns stringifyPlain shopUrl [("sh", noFilters); ("sh", nikeFilters)]
      shoesFirstPage = Some afterShortQueries
  ∧ results afterShortQueries = results shoesFirstPage
  ∧ filteredProducts (results shoesFirstPage) = withStoreUrl shopUrl <$> samplePage 0
  ∧ snd (loadMoreProducts shopUrl nikeFilters "sh" afterShortQueries)
    = Some otherSearchPage
  ∧ q (pm_params otherSearchPage) = "sh"
  ∧ sp_brands (pm_params otherSearchPage) = Some ["Nike"]
  ∧ page (pm_params otherSearchPage) = 2
  ∧ ¬ continues (ps_params shoesRequest) (pm_params otherSearchPage)
  ∧ snd (loadMoreProducts shopUrl noFilters "shoes" shoesFirstPage)
    = Some shoesSecondPage
  ∧ sp_priceRange (ps_params shoesRequest) = None
  ∧ sp_priceRange (pm_params shoesSecondPage) = Some (0, 10000)
  ∧ ¬ continues (ps_params shoesRequest) (pm_params shoesSecondPage).
Proof.
  split; [vm_compute; reflexivity|]. split; [vm_compute; reflexivity|].
  split; [vm_compute; reflexivity|]. split; [vm_compute; reflexivity|].
  split; [vm_compute; reflexivity|]. split; [reflexivity|].
  split; [reflexivity|]. split; [reflexivity|].
  split; [intros (H & _); vm_compute in H; discriminate|].
  split; [vm_compute; reflexivity|]. split; [reflexivity|].
  split; [reflexivity|].
  intros (_ & _ & H). vm_compute in H. discriminate.
Qed.

(** C5, amended. [loadMoreProducts] issues a request exactly when no
    load-more is running, more products are expected and a store URL is
    known; the request asks for page [currentPage + 1] with the debounced
    query and the debounced filters of the moment: each of the six
    selections is sent when it is not empty, the featured and sale flags
    are those of a first-page request, and the price range is always
    sent. These are the query and filters of the list on display when
    the search effect issued that list's request for the same debounced
    pair: then the filter parameters agree, the query agrees unless it is
    blank without being empty, and the price range agrees exactly when
    the range was narrowed. A response with products appends them after
    the displayed list, moves [currentPage] to the next page and takes
    [hasMoreProducts] from the response. After a first page of 12
    products with [hasMore] true and a second of 12 with [hasMore] false,
    the 24 products are displayed, first page first, and
    [hasMoreProducts] is false. *)
Theorem C5_load_more_pagination
    (storeUrl query : string) (f : FilterState) (s s' : State)
    (pm : PendingMore) (r : SearchResponse)
    (url query0 : string) (f0 : FilterState) (s0 : State)
    (first second : SearchResponse)
    (JSON_stringify : FilterState → string) (shownFrom : State)
    (shown : PendingSearch)
    (Hr : products r ≠ [])
    (Hurl : truthy url = true)
    (Hidle : isLoadingMore (ctl s0) = false)
    (Hfirst : length (products first) = 12%nat ∧ hasMore first = true ∧ total first ≠ 0)
    (Hsecond : length (products second) = 12%nat ∧ hasMore second = false) :
  (is_Some (snd (loadMoreProducts storeUrl f query s))
   ↔ isLoadingMore (ctl s) = false ∧ hasMoreProducts (results s) = true
     ∧ truthy storeUrl = true)
  ∧ (∀ pm', snd (loadMoreProducts storeUrl f query s) = Some pm' →
       page (pm_params pm') = currentPage (ctl s) + 1
       ∧ q (pm_params pm') = query
       ∧ filterParams (pm_params pm')
         = filterParams (searchParamsOf storeUrl f (maxPrice (ctl s)) query)
       ∧ sp_priceRange (pm_params pm') = Some (priceRange f)
       ∧ carries (sp_categories (pm_params pm')) (categories f)
       ∧ carries (sp_colors (pm_params pm')) (colors f)
       ∧ carries (sp_sizes (pm_params pm')) (sizes f)
       ∧ carries (sp_brands (pm_params pm')) (brands f)
       ∧ carries (sp_tags (pm_params pm')) (tags f)
       ∧ carries (sp_stockStatus (pm_params pm')) (stockStatus f)
       ∧ (snd (searchEffect JSON_stringify storeUrl query f shownFrom) = Some shown →
          filterParams (pm_params pm') = filterParams (ps_params shown)
          ∧ (query = EmptyString ∨ trim query ≠ EmptyString →
             q (pm_params pm') = q (ps_params shown))
          ∧ (sp_priceRange (pm_params pm') = sp_priceRange (ps_params shown)
             ↔ 0 < fst (priceRange f)
               ∨ snd (priceRange f) < maxPrice (ctl shownFrom))))
  ∧ (let after := onLoadMoreResolved pm (IsSearchResponse r) s' in
     filteredProducts (results after)
     = filteredProducts (results s') ++ (withStoreUrl (pm_storeUrl pm) <$> products r)
     ∧ currentPage (ctl after) = currentPage (ctl s') + 1
     ∧ hasMoreProducts (results after) = hasMore r
     ∧ isLoadingMore (ctl after) = false)
  ∧ match performSearch url f0 query0 s0 with
    | (s1, Some p) =>
        match onSearchResolved p (IsSearchResponse first) s1 with
        | (s2, None) =>
            match loadMoreProducts url f0 query0 s2 with
            | (s3, Some pm') =>
                let s4 := onLoadMoreResolved pm' (IsSearchResponse second) s3 in
                page (pm_params pm') = 2
                ∧ filteredProducts (results s4)
                  = (withStoreUrl url <$> products first)
                    ++ (withStoreUrl url <$> products second)
                ∧ length (filteredProducts (results s4)) = 24%nat
                ∧ hasMoreProducts (results s4) = false
            | (_, None) => False
            end
        | (_, Some _) => False
        end
    | (_, None) => False
    end.
Proof.
  split; [|split; [|split]].
  - unfold loadMoreProducts.
    destruct (isLoadingMore (ctl s)), (hasMoreProducts (results s)),
      (truthy storeUrl); simpl; split;
      try (intros [x Hx]; discriminate); try (intros (? & ? & ?); discriminate);
      intros; (repeat split; done) || eauto.
  - intros pm'. unfold loadMoreProducts.
    destruct (_ || _ || _); [discriminate|]. intros [= <-].
    assert (Hcarries : ∀ l : list string, carries (whenNonEmpty l) l).
    { intros l. unfold carries, whenNonEmpty.
      destruct l; split; intros H; done. }
    cbn [pm_params].
    split; [reflexivity|]. split; [reflexivity|]. split; [reflexivity|].
    split; [reflexivity|].
    do 6 (split; [apply Hcarries|]).
    intros Hshown. rewrite (searchEffect_params _ _ _ _ _ _ Hshown).
    split; [reflexivity|]. split.
    + intros [->|Hq]; [reflexivity|].
      destruct (truthy (trim query)) eqn:E; [reflexivity|].
      by apply truthy_false in E.
    + cbn [sp_priceRange loadMoreParams searchParamsOf].
      destruct (Z.ltb_spec 0 (fst (priceRange f))) as [Hlo|Hlo],
               (Z.ltb_spec (snd (priceRange f)) (maxPrice (ctl shownFrom)))
                 as [Hhi|Hhi];
        cbn [orb]; split; intros Hside;
        try reflexivity; try discriminate; try (by left); try (by right).
      destruct Hside; lia.
  - apply onLoadMoreResolved_page. exact Hr.
  - destruct Hfirst as (L1 & M1 & T1). destruct Hsecond as (L2 & M2).
    destruct (performSearch_issues url f0 query0 s0 Hurl)
      as (s1 & p & -> & Hid & _ & Hpu & _ & Hnone & _ & Hmore & Hpage & _).
    rewrite (onSearchResolved_applied p (IsSearchResponse first) s1 Hid).
    2:{ simpl. apply Z.eqb_neq in T1. rewrite T1. reflexivity. }
    set (s2 := finallySearch _).
    assert (R2 : results s2
                 = {| filteredProducts := withStoreUrl url <$> products first;
                      totalProducts := total first;
                      displayedProducts :=
                        Z.of_nat (length (withStoreUrl url <$> products first));
                      hasMoreProducts := true;
                      searchMessage := message first;
                      isShowingRecommended := showingRecommended first |}).
    { subst s2. rewrite applied_results, Hpu. simpl. rewrite M1. reflexivity. }
    assert (P2 : isLoadingMore (ctl s2) = false ∧ currentPage (ctl s2) = 1).
    { subst s2.
      destruct (applied_paging (ps_storeUrl p) (outcomeOf (IsSearchResponse first))
                  (readResponse (IsSearchResponse first) s1)) as (-> & -> & _).
      rewrite readResponse_isLoadingMore, readResponse_currentPage. split; congruence. }
    destruct P2 as (I2 & C2).
    rewrite (loadMoreProducts_issues url f0 query0 s2 I2); [|by rewrite R2|exact Hurl].
    assert (N2 : products second ≠ []).
    { destruct (products second); [discriminate|done]. }
    destruct (onLoadMoreResolved_page
                {| pm_storeUrl := url;
                   pm_params := loadMoreParams url f0 query0 (currentPage (ctl s2)) |}
                second (setIsLoadingMore true s2) N2) as (A1 & _ & A3 & _).
    cbv zeta. rewrite A1, A3.
    change (filteredProducts (results (setIsLoadingMore true s2)))
      with (filteredProducts (results s2)).
    rewrite R2. cbn [filteredProducts pm_params pm_storeUrl page loadMoreParams].
    rewrite C2, length_app, !length_fmap, L1, L2, M2. repeat split.
Qed.

(** Two pages of twelve from the initial state. *)
Lemma C5_load_more_pagination_witness :
  match performSearch shopUrl (filters initialState) EmptyString initialState with
  | (s1, Some p) =>
      match onSearchResolved p (IsSearchResponse firstPage) s1 with
      | (s2, None) =>
          match loadMoreProducts shopUrl (filters initialState) EmptyString s2 with
          | (s3, Some pm') =>
              let s4 := onLoadMoreResolved pm' (IsSearchResponse secondPage) s3 in
              page (pm_params pm') = 2
              ∧ filteredProducts (results s4)
                = (withStoreUrl shopUrl <$> products firstPage)
                  ++ (withStoreUrl shopUrl <$> products secondPage)
              ∧ length (filteredProducts (results s4)) = 24%nat
              ∧ hasMoreProducts (results s4) = false
          | (_, None) => False
          end
      | (_, Some _) => False
      end
  | (_, None) => False
  end.
Proof.
  assert (H1 : products firstPage ≠ []) by discriminate.
  assert (H2 : length (products firstPage) = 12%nat ∧ hasMore firstPage = true
               ∧ total firstPage ≠ 0) by (repeat split; discriminate).
  assert (H3 : length (products secondPage) = 12%nat ∧ hasMore secondPage = false)
    by (repeat split; discriminate).
  assert (H4 : truthy shopUrl = true) by reflexivity.
  assert (H5 : isLoadingMore (ctl initialState) = false) by reflexivity.
  pose proof (C5_load_more_pagination shopUrl EmptyString (filters initialState)
                initialState initialState
                (mkPendingMore shopUrl
                   (loadMoreParams shopUrl (filters initialState) EmptyString 1))
                firstPage shopUrl EmptyString (filters initialState) initialState
                firstPage secondPage stringifyPlain searching shoesRequest
                H1 H4 H5 H2 H3) as H.
  destruct H as (_ & _ & _ & H). exact H.
Defined.

(** The same scenario run as a session: the letters A to X in order. *)
Example two_pages_session :
  let final :=
    state (run [ Search (PerformSearch shopUrl (filters initialState) EmptyString);
                 Search (SearchResolved 1 (IsSearchResponse firstPage));
                 Search (LoadMore shopUrl (filters initialState) EmptyString);
                 Search (LoadMoreResolved 0 (IsSearchResponse secondPage)) ]
             (start initialState)) in
  Api.id <$> filteredProducts (results final) = letter <$> seq 0 24
  ∧ hasMoreProducts (results final) = false.
Proof. vm_compute. split; reflexivity. Qed.

(** ** Failure of the primary request *)

(** C6, as stated, fails: after the failure the displayed list is empty
    and [hasMoreProducts] is true. *)
Lemma C6_failure_not_conservative :
  filteredProducts (results afterFailedSearch) = []
  ∧ ¬ conservative afterFailedSearch.
Proof.
  split; [vm_compute; reflexivity|].
  assert (H : hasMoreProducts (results afterFailedSearch) = true)
    by (vm_compute; reflexivity).
  unfold conservative. rewrite H. discriminate.
Qed.

(** C6, amended. An abort error leaves the displayed results and the
    facet counts as they are. Any other error empties the displayed list
    and writes no other result cell: [hasMoreProducts] keeps its value,
    which is [true] when the failure follows the pre-request reset of its
    own search. *)
Theorem C6_search_failure (p : PendingSearch) (s : State)
    (url query : string) (f : FilterState) (s0 : State)
    (Hurl : truthy url = true) :
  results (onSearchRejected p AbortError s) = results s
  ∧ counts (onSearchRejected p AbortError s) = counts s
  ∧ results (onSearchRejected p OtherError s)
    = {| filteredProducts := [];
         totalProducts := totalProducts (results s);
         displayedProducts := displayedProducts (results s);
         hasMoreProducts := hasMoreProducts (results s);
         searchMessage := searchMessage (results s);
         isShowingRecommended := isShowingRecommended (results s) |}
  ∧ match performSearch url f query s0 with
    | (s1, Some p1) =>
        filteredProducts (results (onSearchRejected p1 OtherError s1)) = []
        ∧ hasMoreProducts (results (onSearchRejected p1 OtherError s1)) = true
    | (_, None) => False
    end.
Proof.
  repeat split.
  unfold performSearch. rewrite Hurl. simpl. split; reflexivity.
Qed.

Lemma C6_search_failure_witness :
  match performSearch shopUrl (filters initialState) "shoes" initialState with
  | (s1, Some p1) =>
      filteredProducts (results (onSearchRejected p1 OtherError s1)) = []
      ∧ hasMoreProducts (results (onSearchRejected p1 OtherError s1)) = true
  | (_, None) => False
  end.
Proof.
  assert (Hurl : truthy shopUrl = true) by reflexivity.
  pose proof (C6_search_failure
                (mkPendingSearch 1 shopUrl (filters initialState)
                   (searchParamsOf shopUrl (filters initialState) 10000 "shoes"))
                initialState shopUrl "shoes" (filters initialState)
                initialState Hurl) as H.
  destruct H as (_ & _ & _ & H). exact H.
Defined.

(** ** Superseded responses *)

(** A primary response whose generation is no longer the latest only runs
    the [finally] block. *)
Lemma onSearchResolved_superseded p result s :
  currentRequestId p ≠ searchRequestIdRef (ctl s) →
  onSearchResolved p result s = (finallySearch s, None).
Proof.
  intros H. unfold onSearchResolved.
  apply Z.eqb_neq in H. rewrite H. reflexivity.
Qed.

Lemma superseded_primary_is_noop p result s :
  currentRequestId p ≠ searchRequestIdRef (ctl s) →
  results (fst (onSearchResolved p result s)) = results s
  ∧ counts (fst (onSearchResolved p result s)) = counts s
  ∧ snd (onSearchResolved p result s) = None.
Proof. intros H. rewrite (onSearchResolved_superseded p result s H). repeat split. Qed.

(** C1, evaluated where it fails. With generation 2 the latest and its
    result displayed, the fallback response of generation 1 still replaces
    the displayed list, total, message and recommended flag; and a failure
    of the primary request of generation 1 still empties the displayed
    list. A late success of that primary request, by contrast, changes
    nothing. *)
Theorem C1_superseded_settlements_write_results :
  (searchRequestIdRef (ctl (state supersededFallback)) = 2
   ∧ filteredProducts (results (state supersededFallback)) = [cap]
   ∧ let late := searchStep (FallbackResolved 1 (IsSearchResponse popularResponse))
                   supersededFallback in
     searchRequestIdRef (ctl (state late)) = 2
     ∧ results (state late)
       = {| filteredProducts := [popular1; popular2]; totalProducts := 0;
            displayedProducts := 2; hasMoreProducts := false;
            searchMessage := Some nikeMessage; isShowingRecommended := true |})
  ∧ (searchRequestIdRef (ctl (state supersededPrimary)) = 2
     ∧ filteredProducts (results (state supersededPrimary)) = [cap]
     ∧ filteredProducts
         (results (state (searchStep (SearchRejected 1 OtherError) supersededPrimary)))
       = []
     ∧ results (state (searchStep (SearchResolved 1 (IsSearchResponse popularResponse))
                         supersededPrimary))
       = results (state supersededPrimary)).
Proof. vm_compute. repeat split. Qed.

(** ** Static and reactive facet counts *)

Lemma performSearch_counts url f query s :
  counts (fst (performSearch url f query s)) = counts s.
Proof. unfold performSearch. destruct (truthy url); reflexivity. Qed.

Lemma readResponse_static result s :
  staticCounts (readResponse result s) = staticCounts s.
Proof. apply readResponse_frame. Qed.

Lemma onSearchResolved_counts p result s :
  counts (fst (onSearchResolved p result s))
  = if currentRequestId p =? searchRequestIdRef (ctl s)
    then counts (readResponse result s) else counts s.
Proof.
  unfold onSearchResolved. rewrite readResponse_ref.
  destruct (currentRequestId p =? searchRequestIdRef (ctl s)); simpl; [|reflexivity].
  destruct (_ && _); reflexivity.
Qed.

Lemma staticCounts_of_counts s s' : counts s' = counts s → staticCounts s' = staticCounts s.
Proof. unfold staticCounts. intros ->. reflexivity. Qed.

Lemma onSearchResolved_static p result s :
  staticCounts (fst (onSearchResolved p result s)) = staticCounts s.
Proof.
  pose proof (onSearchResolved_counts p result s) as H.
  destruct (currentRequestId p =? searchRequestIdRef (ctl s)).
  - rewrite <- (readResponse_static result s). by apply staticCounts_of_counts.
  - by apply staticCounts_of_counts.
Qed.

Lemma loadMoreProducts_counts url f query s :
  counts (fst (loadMoreProducts url f query s)) = counts s.
Proof. unfold loadMoreProducts. destruct (_ || _ || _); reflexivity. Qed.

Lemma onLoadMoreResolved_counts pm result s :
  counts (onLoadMoreResolved pm result s) = counts s.
Proof.
  unfold onLoadMoreResolved. destruct (pageOf result) as [ps more].
  destruct (nonEmpty ps); reflexivity.
Qed.

(** No event of a search trigger writes one of the five static counts. *)
Lemma searchStep_static e sys :
  staticCounts (state (searchStep e sys)) = staticCounts (state sys).
Proof.
  destruct e as [url f query | id result | id error | id result | id
                | url f query | i result | i]; simpl.
  - pose proof (performSearch_counts url f query (state sys)) as H.
    destruct (performSearch url f query (state sys)) as [s' [p|]];
      by apply staticCounts_of_counts.
  - destruct (searches sys !! id) as [p|]; [|reflexivity].
    pose proof (onSearchResolved_static p result (state sys)) as H.
    destruct (onSearchResolved p result (state sys)) as [s' [pf|]]; exact H.
  - destruct (searches sys !! id) as [p|]; [|reflexivity].
    destruct error; reflexivity.
  - destruct (fallbacks sys !! id) as [pf|]; reflexivity.
  - destruct (fallbacks sys !! id) as [pf|]; reflexivity.
  - pose proof (loadMoreProducts_counts url f query (state sys)) as H.
    destruct (loadMoreProducts url f query (state sys)) as [s' [pm|]];
      by apply staticCounts_of_counts.
  - destruct (mores sys !! i) as [pm|]; [|reflexivity]. simpl.
    apply staticCounts_of_counts, onLoadMoreResolved_counts.
  - destruct (mores sys !! i) as [pm|]; reflexivity.
Qed.

Lemma run_search_static events sys :
  staticCounts (state (run (Search <$> events) sys)) = staticCounts (state sys).
Proof.
  revert sys. induction events as [|e events IH]; intros sys; [reflexivity|].
  change (run (Search <$> e :: events) sys)
    with (run (Search <$> events) (searchStep e sys)).
  rewrite IH. apply searchStep_static.
Qed.

(** What the facet block of a current response leaves in the three
    reactive count maps. *)
Lemma applySearchFacets_reactive fp ps s :
  let pick (facet : RawFacet) (old : gmap string Z) :=
    if nonEmpty (extractFacetBuckets facet)
    then countKeyedBuckets (extractFacetBuckets facet) else old in
  categoryCounts (counts (applySearchFacets fp ps s))
  = pick (f_category fp) (categoryCounts (counts s))
  ∧ brandCounts (counts (applySearchFacets fp ps s))
    = pick (f_brand fp) (brandCounts (counts s))
  ∧ tagCounts (counts (applySearchFacets fp ps s))
    = pick (f_tag fp) (tagCounts (counts s)).
Proof. cbv zeta. split_facet_guards; repeat split. Qed.

(** C4, as stated, fails in its last part: the second response is current
    and successful and carries no category bucket, yet the category counts
    of the first response stay displayed. *)
Lemma C4_reactive_counts_not_replaced :
  ¬ replacedFrom bucketlessFacets afterBucketlessResponse.
Proof.
  intros [H _].
  assert (L : categoryCounts (counts afterBucketlessResponse) !! "Shoes" = Some 3)
    by (vm_compute; reflexivity).
  rewrite H in L. vm_compute in L. discriminate.
Qed.

(** C4, amended. No sequence of events of search triggers (requests
    issued, responses and failures of primary, fallback and load-more
    requests, in any order) changes the displayed stock-status, featured,
    not-featured, sale and not-sale counts; [handleClearAll] sets them to
    the global counts. A current search response with facets replaces the
    category, brand and tag counts, each from its own buckets when it has
    at least one, and leaves the map of a dimension without buckets as it
    was. *)
Theorem C4_static_counts_frame (sys : System) (events : list SearchEvent)
    (p : PendingSearch) (r : SearchResponse) (fp : FacetsPayload) (s : State)
    (Hcurrent : currentRequestId p = searchRequestIdRef (ctl s))
    (Hfacets : facets r = Some fp) :
  let pick (facet : RawFacet) (old : gmap string Z) :=
    if nonEmpty (extractFacetBuckets facet)
    then countKeyedBuckets (extractFacetBuckets facet) else old in
  let s' := fst (onSearchResolved p (IsSearchResponse r) s) in
  staticCounts (state (run (Search <$> events) sys)) = staticCounts (state sys)
  ∧ staticCounts (handleClearAll s)
    = (stockStatusCounts (globalCounts s), featuredCount (globalCounts s),
       notFeaturedCount (globalCounts s), saleCount (globalCounts s),
       notSaleCount (globalCounts s))
  ∧ categoryCounts (counts s') = pick (f_category fp) (categoryCounts (counts s))
  ∧ brandCounts (counts s') = pick (f_brand fp) (brandCounts (counts s))
  ∧ tagCounts (counts s') = pick (f_tag fp) (tagCounts (counts s)).
Proof.
  intros pick s'. split; [apply run_search_static|]. split; [reflexivity|].
  subst s'. rewrite onSearchResolved_counts, Hcurrent, Z.eqb_refl.
  unfold readResponse. rewrite Hfacets.
  destruct (applySearchFacets_reactive fp (products r)
              (match query_id r with
               | Some qid => setCurrentQueryId (Some qid) s
               | None => s
               end)) as (-> & -> & ->).
  destruct (query_id r); repeat split.
Qed.

(** The two responses above, and a session of three events on the state
    they leave. *)
Lemma C4_static_counts_frame_witness :
  staticCounts
    (state (run (Search <$> [ PerformSearch shopUrl nikeFilters "shoe";
                              SearchResolved 1 (IsSearchResponse shoeResponse);
                              LoadMore shopUrl nikeFilters "shoe" ])
              (start initialState)))
  = staticCounts (state (start initialState)).
Proof.
  pose proof (C4_static_counts_frame (start initialState)
                [ PerformSearch shopUrl nikeFilters "shoe";
                  SearchResolved 1 (IsSearchResponse shoeResponse);
                  LoadMore shopUrl nikeFilters "shoe" ]
                (mkPendingSearch 0 shopUrl noFilters
                   (searchParamsOf shopUrl noFilters 10000 "shoe"))
                shoeResponse shoeFacets initialState eq_refl eq_refl) as H.
  destruct H as (H & _). exact H.
Defined.

(** ** The price range and its ceilings *)

(** C7, as stated, fails: the filtered ceiling went from 10000 to 150
    with no filter other than the price range active, the effect on that
    change skips its update, and the range still ends at 10000. *)
Lemma C7_price_range_above_ceiling :
  ¬ priceClamp (filteredMaxPriceEffect afterPricedResponse).
Proof.
  assert (E : filteredMaxPrice (ctl (filteredMaxPriceEffect afterPricedResponse)) = 150)
    by (vm_compute; reflexivity).
  assert (P : priceRange (filters (filteredMaxPriceEffect afterPricedResponse))
              = (0, 10000)) by (vm_compute; reflexivity).
  unfold priceClamp. rewrite E, P. simpl. lia.
Qed.

(** The global fetch either leaves both price ceilings alone or sets
    both to the same value. *)
Lemma onGlobalFacetsResolved_prices t result s :
  let s1 := onGlobalFacetsResolved t result s in
  (maxPrice (ctl s1) = maxPrice (ctl s)
   ∧ filteredMaxPrice (ctl s1) = filteredMaxPrice (ctl s))
  ∨ filteredMaxPrice (ctl s1) = maxPrice (ctl s1).
Proof.
  cbv zeta. unfold onGlobalFacetsResolved.
  destruct result as [r| |]; [|left; split; reflexivity..].
  destruct (facets r) as [fp|]; [|left; split; reflexivity].
  unfold applyGlobalFacets, setWhenBuckets.
  destruct (globalMaxPrice fp (products r)) as [m|].
  - right.
    repeat match goal with
           | |- context [nonEmpty (extractFacetBuckets ?f)] =>
               destruct (nonEmpty (extractFacetBuckets f))
           end; reflexivity.
  - left.
    repeat match goal with
           | |- context [nonEmpty (extractFacetBuckets ?f)] =>
               destruct (nonEmpty (extractFacetBuckets f))
           end; split; reflexivity.
Qed.

(** C7, amended. [resetPriceRange m] leaves the range [0, m]; the effect
    on a change of [maxPrice] leaves [0, maxPrice], which is within the
    clamp when the change came from the global fetch, since that sets both
    ceilings to the same value; [handleClearAll] leaves [0, maxPrice] with
    the filtered ceiling at [maxPrice], so the clamp holds; the effect on a
    change of [filteredMaxPrice] leaves [0, filteredMaxPrice] and the clamp
    when one of the eight non-price dimensions is non-empty, and changes
    nothing otherwise. *)
Theorem C7_price_range_reclamp (s : State) (m : Z) (f : FilterState)
    (t : StockLabels) (result : ApiResult) :
  priceRange (resetPriceRange m f) = (0, m)
  ∧ priceRange (filters (maxPriceEffect s)) = (0, maxPrice (ctl s))
  ∧ (maxPrice (ctl (onGlobalFacetsResolved t result s)) = maxPrice (ctl s)
     ∨ priceClamp (maxPriceEffect (onGlobalFacetsResolved t result s)))
  ∧ (priceRange (filters (handleClearAll s)) = (0, maxPrice (ctl s))
     ∧ filteredMaxPrice (ctl (handleClearAll s)) = maxPrice (ctl s)
     ∧ priceClamp (handleClearAll s))
  ∧ (if hasActiveNonPriceFilters (filters s)
     then priceRange (filters (filteredMaxPriceEffect s))
          = (0, filteredMaxPrice (ctl s))
          ∧ filteredMaxPrice (ctl (filteredMaxPriceEffect s)) = filteredMaxPrice (ctl s)
          ∧ priceClamp (filteredMaxPriceEffect s)
     else filteredMaxPriceEffect s = s).
Proof.
  split; [reflexivity|]. split; [reflexivity|]. split; [|split].
  - destruct (onGlobalFacetsResolved_prices t result s) as [[H _] | H];
      [left; exact H|].
    right. unfold priceClamp, maxPriceEffect. simpl. rewrite H. lia.
  - split; [reflexivity|]. split; [reflexivity|].
    unfold priceClamp. simpl. lia.
  - unfold filteredMaxPriceEffect, priceClamp.
    destruct (hasActiveNonPriceFilters (filters s)); [|reflexivity].
    simpl. repeat split; lia.
Qed.

(** ** Recent searches *)

Lemma includes_elem (x : string) (l : list string) : includes x l = true ↔ x ∈ l.
Proof.
  unfold includes. rewrite existsb_exists, list_elem_of_In. split.
  - intros (y & Hy & E). apply eqb_eq in E. by subst.
  - intros H. exists x. split; [done|]. by apply eqb_eq.
Qed.

Lemma filter_absent (x : string) (l : list string) :
  x ∉ l → filter (λ item, item ≠ x) l = l.
Proof.
  induction l as [|y l IH]; [done|].
  intros H. apply not_elem_of_cons in H as [Hne Hl].
  rewrite filter_cons. destruct (decide (y ≠ x)) as [_|C]; [|by destruct C].
  by rewrite IH.
Qed.

(** What one call of [addToRecentSearches] does to the list. *)
Lemma addToRecentSearches_step (query : string) (s : State) :
  recentSearches (addToRecentSearches query s)
  = if truthy (trim query) && negb (includes (trim query) (recentSearches s))
    then trim query :: take 9 (recentSearches s)
    else recentSearches s.
Proof.
  unfold addToRecentSearches.
  destruct (truthy (trim query)); simpl; [|reflexivity].
  destruct (includes (trim query) (recentSearches s)) eqn:I; simpl; [reflexivity|].
  rewrite filter_absent; [reflexivity|].
  intros H. apply includes_elem in H. congruence.
Qed.

Lemma addToRecentSearches_invariant (query : string) (s : State) :
  (length (recentSearches s) ≤ 10)%nat ∧ NoDup (recentSearches s) →
  (length (recentSearches (addToRecentSearches query s)) ≤ 10)%nat
  ∧ NoDup (recentSearches (addToRecentSearches query s)).
Proof.
  intros [Hlen Hnd]. rewrite addToRecentSearches_step.
  destruct (truthy (trim query)); simpl; [|done].
  destruct (includes (trim query) (recentSearches s)) eqn:I; simpl; [done|].
  split.
  - rewrite length_take. lia.
  - apply NoDup_cons. split.
    + intros H. apply elem_of_take in H as (i & H & _).
      apply list_elem_of_lookup_2 in H. apply includes_elem in H. congruence.
    + eapply sublist_NoDup; [exact Hnd | apply sublist_take].
Qed.

Lemma recorded_invariant (queries : list string) (s : State) :
  (length (recentSearches s) ≤ 10)%nat ∧ NoDup (recentSearches s) →
  (length (recentSearches (recorded queries s)) ≤ 10)%nat
  ∧ NoDup (recentSearches (recorded queries s)).
Proof.
  revert s. induction queries as [|query queries IH]; intros s H; [done|].
  apply (IH (addToRecentSearches query s)).
  by apply addToRecentSearches_invariant.
Qed.

(** C9, as stated, fails in its ordering: after the searches a, b, a the
    list is b, a, although a is the most recent search. *)
Lemma C9_not_most_recent_first :
  recentSearches (recorded ["a"; "b"; "a"] initialState) = ["b"; "a"]
  ∧ ¬ mostRecentFirst ["a"; "b"; "a"]
        (recentSearches (recorded ["a"; "b"; "a"] initialState)).
Proof.
  split; [reflexivity|].
  intros H. destruct (H 0%nat 1%nat "b" "a" eq_refl eq_refl) as (a & b & Ha & Hb & Hlt).
  - lia.
  - vm_compute in Ha. vm_compute in Hb. injection Ha as <-. injection Hb as <-. lia.
Qed.

Lemma recordTimed_invariant acc query :
  timedInvariant acc → timedInvariant (recordTimed acc query).
Proof.
  destruct acc as [[s times] clock]. intros [Hin Hord].
  unfold recordTimed, timedInvariant. rewrite addToRecentSearches_step.
  destruct (truthy (trim query)); simpl.
  2:{ split; [|exact Hord]. intros x Hx. destruct (Hin x Hx) as (a & Ha & Hlt).
      exists a. split; [done|lia]. }
  destruct (includes (trim query) (recentSearches s)) eqn:I; simpl.
  { split; [|exact Hord]. intros x Hx. destruct (Hin x Hx) as (a & Ha & Hlt).
    exists a. split; [done|lia]. }
  assert (Hfresh : trim query ∉ recentSearches s).
  { intros H. apply includes_elem in H. congruence. }
  assert (Hold : ∀ y, y ∈ take 9 (recentSearches s) →
                 ∃ b, <[trim query := clock]> times !! y = Some b ∧ (b < clock)%nat).
  { intros y Hy. apply elem_of_take in Hy as (k & Hk & _).
    apply list_elem_of_lookup_2 in Hk.
    destruct (Hin y Hk) as (b & Hb & Hlt). exists b. split; [|done].
    rewrite lookup_insert_ne; [done|]. intros <-. contradiction. }
  split.
  - intros x Hx. apply elem_of_cons in Hx as [-> | Hx].
    + exists clock. rewrite lookup_insert_eq. split; [done|lia].
    + destruct (Hold x Hx) as (b & Hb & Hlt). exists b. split; [done|lia].
  - intros i j x y Hi Hj Hlt. destruct j as [|j]; [lia|].
    simpl in Hj. destruct i as [|i]; simpl in Hi.
    + injection Hi as <-. apply list_elem_of_lookup_2 in Hj.
      destruct (Hold y Hj) as (b & Hb & Hb'). exists clock, b.
      rewrite lookup_insert_eq. done.
    + apply lookup_take_Some in Hi as [Hi _]. apply lookup_take_Some in Hj as [Hj _].
      destruct (Hord i j x y Hi Hj ltac:(lia)) as (a & b & Ha & Hb & Hab).
      exists a, b. apply list_elem_of_lookup_2 in Hi, Hj.
      rewrite !lookup_insert_ne; [done| |]; intros <-; contradiction.
Qed.

Lemma foldl_recordTimed history acc :
  timedInvariant acc →
  timedInvariant (foldl recordTimed acc history)
  ∧ fst (fst (foldl recordTimed acc history)) = recorded history (fst (fst acc)).
Proof.
  revert acc. induction history as [|query history IH]; intros acc H; [done|].
  simpl. destruct (IH (recordTimed acc query)) as [H1 H2].
  { by apply recordTimed_invariant. }
  split; [exact H1|]. rewrite H2. destruct acc as [[s times] clock]. reflexivity.
Qed.

Lemma recorded_most_recently_added_first history :
  mostRecentlyAddedFirst (additionTimes history)
    (recentSearches (recorded history initialState)).
Proof.
  destruct (foldl_recordTimed history (initialState, ∅, 0%nat)) as [H E].
  { split; [intros x Hx; inversion Hx | intros i j x y Hi; inversion Hi]. }
  unfold additionTimes. simpl in E. rewrite <- E.
  destruct (foldl recordTimed _ history) as [[s times] clock]. apply H.
Qed.

(** C9, amended. After any sequence of recorded searches, starting from
    the empty list, recording one more leaves at most 10 entries without
    duplicates. A search that is blank or already listed leaves the list
    as it is (a listed search is not moved to the front); any other is put
    first, trimmed, followed by the previous entries in their order, cut
    to ten. The list is therefore ordered by the time its entries were put
    into it, the latest first. The list is what is persisted, or nothing
    when it is empty. *)
Theorem C9_recent_searches (history : list string) (query : string) :
  let s := recorded history initialState in
  let before := recentSearches s in
  let after := recentSearches (addToRecentSearches query s) in
  (length after ≤ 10)%nat
  ∧ NoDup after
  ∧ after = (if truthy (trim query) && negb (includes (trim query) before)
             then trim query :: take 9 before
             else before)
  ∧ mostRecentlyAddedFirst (additionTimes history) before
  ∧ persistedRecentSearches (addToRecentSearches query s)
    = (if nonEmpty after then Some after else None).
Proof.
  intros s before after.
  assert (I : (length before ≤ 10)%nat ∧ NoDup before).
  { apply recorded_invariant. simpl. split; [lia | constructor]. }
  destruct (addToRecentSearches_invariant query s I) as [L N].
  split; [exact L|]. split; [exact N|].
  split; [apply addToRecentSearches_step|].
  split; [apply recorded_most_recently_added_first | reflexivity].
Qed.

(** ** De-duplication, the pair last applied and the requests sent *)

Lemma dedupRefs_duplicate (J : FilterState → string) (q : string) (f : FilterState)
    (s : State) :
  bool_decide (lastSearchedQueryRef (behaviour s) = Some (trim q))
  && JsString.eqb (lastSearchedFiltersRef (behaviour s)) (J f) = true
  ↔ dedupRefs s = (Some (trim q), J f).
Proof.
  unfold dedupRefs. rewrite andb_true_iff, bool_decide_eq_true, eqb_eq.
  split; [intros [-> ->]; reflexivity | intros [= -> ->]; done].
Qed.

Lemma performSearch_is_Some url f query s :
  truthy url = true → is_Some (snd (performSearch url f query s)).
Proof.
  intros Hurl. destruct (performSearch_issues url f query s Hurl) as (s1 & p & E & _).
  rewrite E. by exists p.
Qed.

Lemma onSearchResolved_behaviour p result s :
  behaviour (fst (onSearchResolved p result s)) = behaviour s.
Proof.
  destruct (readResponse_frame result s) as (_ & _ & Hb & _).
  unfold onSearchResolved.
  repeat match goal with
         | |- context [if ?c then _ else _] => destruct c
         end; simpl; by rewrite ?Hb.
Qed.

Lemma searchEffect_filters (J : FilterState → string) url query f s p :
  snd (searchEffect J url query f s) = Some p → ps_debouncedFilters p = f.
Proof.
  unfold searchEffect.
  remember (3 <=? String.length (trim query))%nat as long eqn:L.
  destruct (truthy url) eqn:U; simpl; [|done].
  destruct (negb _ && _); [done|].
  destruct (isSearchingFromSuggestion _); [done|].
  destruct (bool_decide _ && _); [done|].
  assert (H : ∀ query' s', snd (performSearch url f query' s') = Some p →
              ps_debouncedFilters p = f).
  { intros query' s'.
    destruct (performSearch_issues url f query' s' U) as (s1 & p' & E & _ & _ & _ & Hf & _).
    rewrite E. by intros [= <-]. }
  destruct (truthy (trim query)); simpl; [|apply H].
  destruct long; [apply H|done].
Qed.

(** A run that gets past the guards writes its pair into the refs,
    whether or not it goes on to call [performSearch]. *)
Lemma searchEffect_writes_refs (J : FilterState → string) url query f s :
  truthy url = true →
  showRecommendations (behaviour s) = false →
  isInitialState (behaviour s) = false →
  isSearchingFromSuggestion (behaviour s) = false →
  dedupRefs (fst (searchEffect J url query f s)) = (Some (trim query), J f).
Proof.
  intros Hurl Hshow Hinit Hsugg.
  unfold searchEffect. rewrite Hurl, Hshow, Hinit.
  rewrite !andb_false_r. cbn [negb andb orb]. rewrite Hsugg.
  pose proof (dedupRefs_duplicate J query f s) as Hdup.
  destruct (bool_decide (lastSearchedQueryRef (behaviour s) = Some (trim query))
            && JsString.eqb (lastSearchedFiltersRef (behaviour s)) (J f)).
  - by apply Hdup.
  - destruct (truthy (trim query)); cbn [negb].
    + destruct (3 <=? String.length (trim query))%nat; [|reflexivity].
      unfold dedupRefs. by rewrite performSearch_behaviour.
    + unfold dedupRefs. by rewrite performSearch_behaviour.
Qed.

(** The second of two runs in succession sends nothing when the first
    sent a request, whatever the answers in between. *)
Lemma networkRequests_of_first (J : FilterState → string) url query f
    primary fallback s s1 p :
  searchEffect J url query f s = (s1, Some p) →
  networkRequests J url query f primary fallback s
  = ps_params p :: fallbackSentBy (snd (onSearchResolved p primary s1)).
Proof.
  intros E. unfold networkRequests. rewrite E.
  assert (Hrefs : dedupRefs s1 = (Some (trim query), J f)).
  { pose proof (searchEffect_records J url query f s p) as H.
    rewrite E in H. by apply H. }
  pose proof (onSearchResolved_behaviour p primary s1) as Hb.
  destruct (onSearchResolved p primary s1) as [s2 [pf|]]; cbn [fst snd] in *.
  - rewrite searchEffect_duplicate; [reflexivity|].
    unfold dedupRefs in *. cbn. by rewrite Hb.
  - rewrite searchEffect_duplicate; [reflexivity|].
    unfold dedupRefs in *. by rewrite Hb.
Qed.

(** C2, as stated, fails. The guard compares with the pair of the last
    run of the effect that reached it, not with the pair last applied:
    after "shoes" was searched and its response displayed, a run for
    "sh" writes its pair into the refs and issues nothing (the query is
    too short), and the next run for "shoes" issues the request again.
    And one trigger may send two network requests: with the brand
    "Nike" selected and no result, the fallback request follows the
    primary one. *)
Lemma C2_applied_pair_searched_again :
  ¬ skipsAppliedPair stringifyPlain shopUrl searching
  ∧ length (networkRequests stringifyPlain shopUrl EmptyString nikeFilters
              (IsSearchResponse emptyResponse) (IsSearchResponse popularResponse)
              searching) = 2%nat.
Proof.
  split; [|vm_compute; reflexivity].
  intros H.
  assert (E1 : searchEffect stringifyPlain shopUrl "shoes" noFilters searching
               = (shoesIssued, Some shoesRequest)) by (vm_compute; reflexivity).
  assert (E2 : onSearchResolved shoesRequest (IsSearchResponse capResponse) shoesIssued
               = (shoesShown, None)) by (vm_compute; reflexivity).
  assert (E3 : quietRuns stringifyPlain shopUrl [("sh", noFilters)] shoesShown
               = Some afterShortQuery) by (vm_compute; reflexivity).
  assert (E4 : snd (searchEffect stringifyPlain shopUrl "shoes" noFilters
                      afterShortQuery) ≠ None) by (vm_compute; discriminate).
  exact (E4 (H "shoes" noFilters shoesIssued shoesRequest capResponse shoesShown
               [("sh", noFilters)] afterShortQuery E1 E2 E3)).
Qed.

(** C2, amended. Two runs of the search effect with the same normalized
    query and the same serialized filters, the refs not having been
    written in between, call [performSearch] at most once together, and
    a run whose pair is the one held by the refs calls it not at all.
    The refs hold the pair of the last run that got past the guards: it
    is written before the length gate and before any response. Of two
    runs in succession for one pair, the second sends no network
    request when the first sent one; the first sends its primary
    request and at most the fallback request, the latter only for a
    response with total 0 under a non-price filter. *)
Theorem C2_dedup_idempotence (JSON_stringify : FilterState → string)
    (storeUrl1 storeUrl2 query1 query2 : string) (f1 f2 : FilterState)
    (s s' : State) (primary fallback : ApiResult)
    (Hquery : trim query1 = trim query2)
    (Hfilters : JSON_stringify f1 = JSON_stringify f2)
    (Hrefs : dedupRefs s'
             = dedupRefs (fst (searchEffect JSON_stringify storeUrl1 query1 f1 s))) :
  (issued (snd (searchEffect JSON_stringify storeUrl1 query1 f1 s))
   + issued (snd (searchEffect JSON_stringify storeUrl2 query2 f2 s')) ≤ 1)%nat
  ∧ (dedupRefs s = (Some (trim query1), JSON_stringify f1) →
     snd (searchEffect JSON_stringify storeUrl1 query1 f1 s) = None)
  ∧ (truthy storeUrl1 = true → showRecommendations (behaviour s) = false →
     isInitialState (behaviour s) = false →
     isSearchingFromSuggestion (behaviour s) = false →
     dedupRefs (fst (searchEffect JSON_stringify storeUrl1 query1 f1 s))
     = (Some (trim query1), JSON_stringify f1))
  ∧ (∀ s1 p, searchEffect JSON_stringify storeUrl1 query1 f1 s = (s1, Some p) →
       networkRequests JSON_stringify storeUrl1 query1 f1 primary fallback s
       = ps_params p :: fallbackSentBy (snd (onSearchResolved p primary s1)))
  ∧ (length (networkRequests JSON_stringify storeUrl1 query1 f1 primary fallback s)
     ≤ 2)%nat
  ∧ (length (networkRequests JSON_stringify storeUrl1 query1 f1 primary fallback s)
     = 2%nat →
     o_total (outcomeOf primary) = 0 ∧ hasActiveNonPriceFilters f1 = true).
Proof.
  split; [|split; [apply searchEffect_duplicate|split;
    [apply searchEffect_writes_refs|split; [intros s1 p; apply networkRequests_of_first|]]]].
  - destruct (snd (searchEffect _ storeUrl1 _ _ _)) as [p|] eqn:E1.
    + apply searchEffect_records in E1. rewrite E1, Hquery, Hfilters in Hrefs.
      rewrite (searchEffect_duplicate _ _ _ _ _ Hrefs). simpl. lia.
    + simpl. destruct (snd (searchEffect _ storeUrl2 _ _ _)); simpl; lia.
  - destruct (searchEffect JSON_stringify storeUrl1 query1 f1 s) as [s1 [p|]] eqn:E.
    + rewrite (networkRequests_of_first _ _ _ _ primary fallback _ _ _ E).
      pose proof (searchEffect_filters JSON_stringify storeUrl1 query1 f1 s p) as Hf.
      rewrite E in Hf. specialize (Hf eq_refl).
      unfold onSearchResolved.
      destruct (negb (currentRequestId p =? searchRequestIdRef (ctl s1)));
        [cbn; split; [lia|discriminate]|].
      destruct (negb (currentRequestId p
                      =? searchRequestIdRef (ctl (readResponse primary s1))));
        [cbn; split; [lia|discriminate]|].
      destruct ((o_total (outcomeOf primary) =? 0)
                && hasActiveNonPriceFilters (ps_debouncedFilters p)) eqn:Hfb;
        [|cbn; split; [lia|discriminate]].
      cbn. split; [lia|]. intros _.
      apply andb_true_iff in Hfb as [Ht Ha]. apply Z.eqb_eq in Ht.
      by rewrite <- Hf.
    + unfold networkRequests. rewrite E.
      destruct (snd (searchEffect JSON_stringify storeUrl1 query1 f1 s1));
        cbn; split; (lia || discriminate).
Qed.

(** After "shoes" was searched, the same query with surrounding blanks and
    the same filters is not searched again. *)
Lemma C2_dedup_idempotence_witness :
  let s := initialState |> setShowRecommendations false |> setIsInitialState false in
  let url := "https://shop.example" in
  let s' := fst (searchEffect stringifyPlain url "shoes" (filters s) s) in
  (issued (snd (searchEffect stringifyPlain url "shoes" (filters s) s))
   + issued (snd (searchEffect stringifyPlain url " shoes " (filters s) s')) ≤ 1)%nat
  ∧ issued (snd (searchEffect stringifyPlain url "shoes" (filters s) s)) = 1%nat.
Proof.
  intros s url s'. split; [|reflexivity].
  apply (C2_dedup_idempotence stringifyPlain url url "shoes" " shoes "
           (filters s) (filters s) s s' Unexpected Unexpected); reflexivity.
Defined.

(** * Further properties of the component *)

(** ** Autocomplete: fuzzy matching *)

Section AutocompleteProps.
Import Autocomplete.

Lemma ascii_eqb_eq (a b : Ascii.ascii) : Ascii.eqb a b = true ↔ a = b.
Proof. apply Ascii.eqb_eq. Qed.

Lemma sublist_cons_same (x : Ascii.ascii) (l k : list Ascii.ascii) :
  x :: l `sublist_of` x :: k ↔ l `sublist_of` k.
Proof.
  split; [|apply sublist_skip].
  intros H. apply sublist_cons_r in H as [H | (l' & E & H)].
  - transitivity (x :: l); [by apply sublist_cons | exact H].
  - by injection E as <-.
Qed.

Lemma sublist_cons_other (x y : Ascii.ascii) (l k : list Ascii.ascii) :
  x ≠ y → x :: l `sublist_of` y :: k ↔ x :: l `sublist_of` k.
Proof.
  intros Hne. split; [|apply sublist_cons].
  intros H. apply sublist_cons_r in H as [H | (l' & E & H)]; [done|].
  injection E as -> ->. done.
Qed.

(** The greedy scan finds the whole query exactly when the query is a
    subsequence of the suggestion. *)
Lemma scan_sublist (query suggestion : string) :
  scan query suggestion = EmptyString ↔ chars query `sublist_of` chars suggestion.
Proof.
  revert query. induction suggestion as [|c s IH]; intros query.
  - simpl. destruct query; simpl.
    + split; [intros _; constructor | done].
    + split; [discriminate|]. intros H. apply sublist_nil_r in H. discriminate.
  - destruct query as [|d q']; simpl.
    + split; [intros _; apply sublist_nil_l | done].
    + destruct (Ascii.eqb c d) eqn:E.
      * apply ascii_eqb_eq in E as ->. rewrite IH. symmetry. apply sublist_cons_same.
      * rewrite (IH (String d q')). simpl. symmetry. apply sublist_cons_other.
        intros ->. rewrite Ascii.eqb_refl in E. discriminate.
Qed.

Lemma startsWith_sublist (p s : string) :
  startsWith p s = true → chars p `sublist_of` chars s.
Proof.
  revert s. induction p as [|a p IH]; intros s; simpl.
  - intros _. apply sublist_nil_l.
  - destruct s as [|b s]; [discriminate|].
    intros H. apply andb_true_iff in H as [E H].
    apply ascii_eqb_eq in E as ->. simpl. apply sublist_skip, IH, H.
Qed.

Lemma includes_sublist (p s : string) :
  Autocomplete.includes p s = true → chars p `sublist_of` chars s.
Proof.
  induction s as [|b s IH]; simpl.
  - rewrite orb_false_r. apply (startsWith_sublist p EmptyString).
  - intros H. apply orb_true_iff in H as [H | H].
    + apply (startsWith_sublist p (String b s) H).
    + apply sublist_cons, IH, H.
Qed.

Lemma truthy_nonempty (s : string) : truthy s = true ↔ s ≠ EmptyString.
Proof. destruct s; split; intros H; done. Qed.

(** X1. [fuzzyMatch] is the subsequence test: for a non-empty query and
    a non-empty suggestion it holds exactly when the code units of the
    lower-cased, trimmed query occur in the lower-cased, trimmed suggestion
    in the same order, not necessarily next to each other; with an empty
    query or an empty suggestion it fails. *)
Theorem fuzzyMatch_is_subsequence (query suggestion : string) :
  fuzzyMatch query suggestion = true
  ↔ query ≠ EmptyString ∧ suggestion ≠ EmptyString
    ∧ chars (lowerTrim query) `sublist_of` chars (lowerTrim suggestion).
Proof.
  unfold fuzzyMatch. rewrite <- !truthy_nonempty.
  destruct (truthy query), (truthy suggestion); simpl;
    try (split; [discriminate | intros (? & ? & _); discriminate]).
  destruct (Autocomplete.includes _ _) eqn:I.
  - split; [|done]. intros _. split; [done|]. split; [done|].
    by apply includes_sublist.
  - rewrite <- scan_sublist.
    destruct (scan _ _) eqn:S; simpl; split; try done.
    + intros (_ & _ & H). discriminate.
Qed.

Ltac split_grades :=
  repeat match goal with
         | |- _ ∧ _ => split
         | |- _ ↔ _ => split
         end.

Lemma scoreSuggestion_levels (query suggestion : string) :
  let given := query ≠ EmptyString ∧ suggestion ≠ EmptyString in
  scoreSuggestion query suggestion ∈ [0; 50; 70; 90; 100]
  ∧ (0 < scoreSuggestion query suggestion ↔ fuzzyMatch query suggestion = true)
  ∧ (70 ≤ scoreSuggestion query suggestion
     ↔ given ∧ Autocomplete.includes (lowerTrim query) (lowerTrim suggestion) = true)
  ∧ (90 ≤ scoreSuggestion query suggestion
     ↔ given ∧ startsWith (lowerTrim query) (lowerTrim suggestion) = true)
  ∧ (scoreSuggestion query suggestion = 100
     ↔ given ∧ lowerTrim suggestion = lowerTrim query).
Proof.
  cbv zeta. rewrite <- !truthy_nonempty.
  unfold scoreSuggestion, fuzzyMatch.
  destruct (truthy query), (truthy suggestion); simpl.
  2-4: split; [set_solver|]; split_grades; intros H; try lia; try discriminate;
       destruct H as [[? ?] ?]; discriminate.
  destruct (JsString.eqb _ _) eqn:E.
  { apply eqb_eq in E. rewrite E, startsWith_refl,
      (startsWith_includes _ _ (startsWith_refl _)).
    split; [set_solver|]. split_grades; intros; try lia; done. }
  apply eqb_neq in E.
  destruct (startsWith _ _) eqn:S.
  { rewrite (startsWith_includes _ _ S).
    split; [set_solver|]. split_grades; intros H; try lia; try done.
    destruct H as [_ H]. done. }
  destruct (Autocomplete.includes _ _) eqn:I.
  { split; [set_solver|]. split_grades; intros H; try lia; try done;
      destruct H as [_ H]; try discriminate; done. }
  destruct (truthy (scan _ _)); simpl.
  - split; [set_solver|]. split_grades; intros H; try lia; try done;
      destruct H as [_ H]; try discriminate; done.
  - split; [set_solver|]. split_grades; intros H; try lia; try done;
      destruct H as [_ H]; try discriminate; done.
Qed.

(** X2. A score is 0, 50, 70, 90 or 100; it is positive exactly for the
    fuzzy matches, at least 70 exactly when the normalized suggestion
    contains the normalized query, at least 90 exactly when it starts with
    it, and 100 exactly when the two are equal (query and suggestion being
    non-empty). *)
Theorem scoreSuggestion_grades (query suggestion : string) :
  let given := query ≠ EmptyString ∧ suggestion ≠ EmptyString in
  scoreSuggestion query suggestion ∈ [0; 50; 70; 90; 100]
  ∧ (0 < scoreSuggestion query suggestion ↔ fuzzyMatch query suggestion = true)
  ∧ (70 ≤ scoreSuggestion query suggestion
     ↔ given ∧ Autocomplete.includes (lowerTrim query) (lowerTrim suggestion) = true)
  ∧ (90 ≤ scoreSuggestion query suggestion
     ↔ given ∧ startsWith (lowerTrim query) (lowerTrim suggestion) = true)
  ∧ (scoreSuggestion query suggestion = 100
     ↔ given ∧ lowerTrim suggestion = lowerTrim query).
Proof. exact (scoreSuggestion_levels query suggestion). Qed.

(** ** Autocomplete: ranking *)

Section Ranking.

Variable scoreOf : string → Z.

Let scored (t : string) : Scored := {| text := t; score := scoreOf t |}.

Lemma insertByScore_texts (t : string) (l : list string) :
  insertByScore (scored t) (scored <$> l) = scored <$> insertText scoreOf t l.
Proof.
  induction l as [|u l IH]; [reflexivity|].
  simpl. destruct (scoreOf t <? scoreOf u); [|reflexivity].
  simpl. f_equal. exact IH.
Qed.

Lemma sortByScore_texts (l : list string) :
  sortByScore (scored <$> l) = scored <$> sortTexts scoreOf l.
Proof.
  induction l as [|u l IH]; [reflexivity|].
  change (sortByScore (scored <$> u :: l))
    with (insertByScore (scored u) (sortByScore (scored <$> l))).
  rewrite IH. apply insertByScore_texts.
Qed.

Lemma filter_positive_texts (l : list string) :
  filter (λ item, 0 < score item) (scored <$> l)
  = scored <$> filter (λ t, 0 < scoreOf t) l.
Proof.
  induction l as [|u l IH]; [reflexivity|].
  rewrite fmap_cons. destruct (decide (0 < scoreOf u)) as [H|H].
  - rewrite !filter_cons_True by done. rewrite fmap_cons. by rewrite IH.
  - rewrite !filter_cons_False by done. exact IH.
Qed.

Lemma texts_of_scored (l : list string) : text <$> (scored <$> l) = l.
Proof. induction l as [|u l IH]; [reflexivity|]. simpl. f_equal. exact IH. Qed.

Lemma insertText_permutation (t : string) (l : list string) :
  insertText scoreOf t l ≡ₚ t :: l.
Proof.
  induction l as [|u l IH]; [reflexivity|].
  simpl. destruct (scoreOf t <? scoreOf u); [|reflexivity].
  rewrite IH. apply Permutation_swap.
Qed.

Lemma sortTexts_permutation (l : list string) : sortTexts scoreOf l ≡ₚ l.
Proof.
  induction l as [|u l IH]; [reflexivity|].
  simpl. rewrite insertText_permutation. by rewrite IH.
Qed.

Lemma insertText_sorted (t : string) (l : list string) :
  Sorted.StronglySorted (notAbove scoreOf) l →
  Sorted.StronglySorted (notAbove scoreOf) (insertText scoreOf t l).
Proof.
  induction 1 as [|u l Hs IH Hu]; simpl.
  - repeat constructor.
  - destruct (Z.ltb_spec (scoreOf t) (scoreOf u)) as [Hlt|Hge].
    + constructor; [exact IH|].
      rewrite insertText_permutation. constructor; [|exact Hu].
      unfold notAbove. lia.
    + constructor; [by constructor|].
      constructor; [exact Hge|].
      eapply Forall_impl; [exact Hu|]. unfold notAbove. intros z Hz. lia.
Qed.

Lemma sortTexts_sorted (l : list string) :
  Sorted.StronglySorted (notAbove scoreOf) (sortTexts scoreOf l).
Proof.
  induction l as [|u l IH]; simpl; [constructor|]. by apply insertText_sorted.
Qed.

Lemma insertText_stable (k : Z) (t : string) (l : list string) :
  filter (λ u, scoreOf u = k) (insertText scoreOf t l)
  = filter (λ u, scoreOf u = k) (t :: l).
Proof.
  induction l as [|u l IH]; [reflexivity|].
  simpl. destruct (Z.ltb_spec (scoreOf t) (scoreOf u)) as [Hlt|Hge]; [|reflexivity].
  destruct (decide (scoreOf u = k)) as [Hu|Hu].
  - rewrite (filter_cons_True _ u) by done. rewrite IH.
    rewrite (filter_cons_False _ t) by lia.
    rewrite (filter_cons_False _ t) by lia.
    by rewrite (filter_cons_True _ u) by done.
  - rewrite (filter_cons_False _ u) by done. rewrite IH.
    destruct (decide (scoreOf t = k)) as [Ht|Ht].
    + rewrite !(filter_cons_True _ t) by done.
      by rewrite (filter_cons_False _ u) by done.
    + rewrite !(filter_cons_False _ t) by done.
      by rewrite (filter_cons_False _ u) by done.
Qed.

Lemma sortTexts_stable (k : Z) (l : list string) :
  filter (λ u, scoreOf u = k) (sortTexts scoreOf l) = filter (λ u, scoreOf u = k) l.
Proof.
  induction l as [|u l IH]; [reflexivity|].
  simpl. rewrite insertText_stable.
  destruct (decide (scoreOf u = k)) as [Hu|Hu].
  - rewrite !(filter_cons_True _ u) by done. by rewrite IH.
  - rewrite !(filter_cons_False _ u) by done. exact IH.
Qed.

End Ranking.

Lemma rankSuggestions_sortTexts (debouncedSearchQuery : string) (titles : list string) :
  rankSuggestions debouncedSearchQuery titles
  = take 10 (sortTexts (scoreSuggestion (trim debouncedSearchQuery))
               (filter (λ t, 0 < scoreSuggestion (trim debouncedSearchQuery) t)
                  (filter (λ t, truthy t = true) titles))).
Proof.
  unfold rankSuggestions.
  rewrite (filter_positive_texts (scoreSuggestion (trim debouncedSearchQuery))).
  rewrite (sortByScore_texts (scoreSuggestion (trim debouncedSearchQuery))).
  by rewrite texts_of_scored.
Qed.

Lemma matches_of_titles (query : string) (titles : list string) :
  filter (λ t, 0 < scoreSuggestion query t) (filter (λ t, truthy t = true) titles)
  = filter (λ t, fuzzyMatch query t = true) titles.
Proof.
  induction titles as [|u l IH]; [reflexivity|].
  pose proof (scoreSuggestion_levels query u) as (_ & Hpos & _).
  destruct (decide (fuzzyMatch query u = true)) as [Hm|Hm].
  - rewrite (filter_cons_True (λ t, fuzzyMatch query t = true)) by done.
    assert (Ht : truthy u = true).
    { revert Hm. unfold fuzzyMatch.
      destruct (truthy query), (truthy u); simpl; by try discriminate. }
    rewrite (filter_cons_True (λ t, truthy t = true)) by done.
    rewrite filter_cons_True by (by apply Hpos). by rewrite IH.
  - rewrite (filter_cons_False (λ t, fuzzyMatch query t = true)) by done.
    destruct (decide (truthy u = true)) as [Ht|Ht].
    + rewrite (filter_cons_True (λ t, truthy t = true)) by done.
      rewrite filter_cons_False; [exact IH|]. intros H. by apply Hm, Hpos.
    + by rewrite (filter_cons_False (λ t, truthy t = true)) by done.
Qed.

(** X3. The suggestions shown are the first ten of a ranked list that
    holds exactly the fuzzy matches of the trimmed query among the titles
    of the response (each as often as it occurs), higher scores first,
    suggestions of equal score in the order of the response. Hence at most
    ten are shown, and each of them is a title and a fuzzy match. *)
Theorem rankSuggestions_ranked (debouncedSearchQuery : string) (titles : list string) :
  let query := trim debouncedSearchQuery in
  let matches := filter (λ t, fuzzyMatch query t = true) titles in
  (∃ ranked,
     rankSuggestions debouncedSearchQuery titles = take 10 ranked
     ∧ ranked ≡ₚ matches
     ∧ Sorted.StronglySorted (notAbove (scoreSuggestion query)) ranked
     ∧ ∀ k, filter (λ t, scoreSuggestion query t = k) ranked
            = filter (λ t, scoreSuggestion query t = k) matches)
  ∧ (length (rankSuggestions debouncedSearchQuery titles) ≤ 10)%nat
  ∧ ∀ t, t ∈ rankSuggestions debouncedSearchQuery titles →
         t ∈ titles ∧ fuzzyMatch query t = true.
Proof.
  intros query matches.
  assert (E : rankSuggestions debouncedSearchQuery titles
              = take 10 (sortTexts (scoreSuggestion query) matches)).
  { rewrite rankSuggestions_sortTexts. fold query. by rewrite matches_of_titles. }
  split; [|split].
  - exists (sortTexts (scoreSuggestion query) matches).
    split; [exact E|]. split; [apply sortTexts_permutation|].
    split; [apply sortTexts_sorted | intros k; apply sortTexts_stable].
  - rewrite E, length_take. lia.
  - intros t Ht. rewrite E in Ht.
    apply elem_of_take in Ht as (i & Hi & _). apply list_elem_of_lookup_2 in Hi.
    rewrite sortTexts_permutation in Hi.
    apply list_elem_of_filter in Hi as [Hm Hin]. done.
Qed.

(** ** Autocomplete: the highlighted suggestion *)

(** X4. With the dropdown shown and at least one suggestion, ArrowDown
    and ArrowUp keep the highlighted index on a suggestion, starting from
    no highlight (-1) or from any suggestion; they wrap around at the two
    ends, and each undoes the other on a highlighted suggestion. *)
Theorem arrow_keys_cycle (length prev : Z)
    (Hsome : 0 < length) (Hprev : -1 ≤ prev < length) :
  0 ≤ arrowDown true length prev < length
  ∧ 0 ≤ arrowUp true length prev < length
  ∧ arrowDown true length (length - 1) = 0
  ∧ arrowUp true length 0 = length - 1
  ∧ (0 ≤ prev →
     arrowUp true length (arrowDown true length prev) = prev
     ∧ arrowDown true length (arrowUp true length prev) = prev).
Proof.
  unfold arrowDown, arrowUp. simpl.
  destruct (Z.ltb_spec 0 length); [|lia].
  repeat match goal with
         | |- context [?a <? ?b] => destruct (Z.ltb_spec a b)
         end; repeat split; try lia.
Qed.

Lemma arrow_keys_cycle_witness :
  arrowDown true 3 2 = 0 ∧ arrowUp true 3 (arrowDown true 3 2) = 2.
Proof.
  pose proof (arrow_keys_cycle 3 2 ltac:(lia) ltac:(lia)) as (_ & _ & H & _ & H').
  split; [exact H|]. apply H'. lia.
Defined.

End AutocompleteProps.


(** ** Request generations in a session *)

Lemma applyGlobalFacets_generation t fp ps s :
  searchRequestIdRef (ctl (applyGlobalFacets t fp ps s)) = searchRequestIdRef (ctl s).
Proof.
  unfold applyGlobalFacets, setWhenBuckets.
  repeat match goal with
         | |- context [nonEmpty (extractFacetBuckets ?f)] =>
             destruct (nonEmpty (extractFacetBuckets f))
         end;
    destruct (globalMaxPrice fp ps); reflexivity.
Qed.

Lemma onGlobalFacetsResolved_generation t result s :
  searchRequestIdRef (ctl (onGlobalFacetsResolved t result s))
  = searchRequestIdRef (ctl s).
Proof.
  unfold onGlobalFacetsResolved.
  destruct result as [r| |]; [|reflexivity..].
  destruct (facets r); [|reflexivity].
  by rewrite applyGlobalFacets_generation.
Qed.

Lemma onSearchResolved_generation p result s :
  searchRequestIdRef (ctl (fst (onSearchResolved p result s)))
  = searchRequestIdRef (ctl s).
Proof.
  unfold onSearchResolved.
  repeat match goal with
         | |- context [if ?c then _ else _] => destruct c
         end; simpl; by rewrite ?readResponse_ref.
Qed.

Lemma onSearchResolved_fallback p result s s' pf :
  onSearchResolved p result s = (s', Some pf) → fb_search pf = p.
Proof.
  unfold onSearchResolved.
  repeat match goal with
         | |- context [if ?c then _ else _] => destruct c
         end; intros [= <- <-]; reflexivity.
Qed.

Lemma onLoadMoreResolved_generation pm result s :
  searchRequestIdRef (ctl (onLoadMoreResolved pm result s))
  = searchRequestIdRef (ctl s).
Proof.
  unfold onLoadMoreResolved. destruct (pageOf result) as [ps more].
  by destruct (nonEmpty ps).
Qed.

Lemma step_generation e sys :
  generation (step e sys) = generation sys + (if issuing e then 1 else 0).
Proof.
  unfold generation.
  destruct e as [e| |t result]; simpl;
    [|lia|rewrite onGlobalFacetsResolved_generation; lia].
  destruct e as [url f query|id result|id error|id result|id|url f query|i result|i];
    simpl.
  - unfold performSearch. destruct (truthy url); simpl; lia.
  - destruct (searches sys !! id) as [p|]; [|lia].
    pose proof (onSearchResolved_generation p result (state sys)) as H.
    destruct (onSearchResolved p result (state sys)) as [s' [pf|]];
      simpl in *; lia.
  - destruct (searches sys !! id) as [p|]; [|lia].
    destruct error; simpl; lia.
  - destruct (fallbacks sys !! id) as [pf|]; simpl; lia.
  - destruct (fallbacks sys !! id) as [pf|]; simpl; lia.
  - unfold loadMoreProducts.
    destruct (isLoadingMore (ctl (state sys)) || negb (hasMoreProducts (results (state sys)))
              || negb (truthy url)); simpl; lia.
  - destruct (mores sys !! i) as [pm|]; simpl; [|lia].
    rewrite onLoadMoreResolved_generation. lia.
  - destruct (mores sys !! i) as [pm|]; simpl; lia.
Qed.

Lemma step_inFlightAbove r0 e sys :
  r0 ≤ generation sys → inFlightAbove r0 sys → inFlightAbove r0 (step e sys).
Proof.
  intros Hr0 (Hs & Hf & Hd).
  pose proof (step_generation e sys) as Hgen.
  assert (Hmono : generation sys ≤ generation (step e sys))
    by (rewrite Hgen; destruct (issuing e); lia).
  assert (Hkeep : searches (step e sys) = searches sys →
                  fallbacks (step e sys) = fallbacks sys →
                  inFlightAbove r0 (step e sys)).
  { intros Es Ef. unfold inFlightAbove. rewrite Es, Ef.
    split; [|split; [|exact Hd]].
    - intros id p H. destruct (Hs id p H). split; [done|lia].
    - intros id pf H. destruct (Hf id pf H). split; [done|lia]. }
  destruct e as [e| |t result]; [|by apply Hkeep..].
  destruct e as [url f query|id result|id error|id result|id|url f query|i result|i].
  - simpl in *. destruct (truthy url) eqn:Hurl.
    + destruct (performSearch_issues url f query (state sys) Hurl)
        as (s1 & p & E & Hid & Hnew & _).
      unfold inFlightAbove, generation in *. simpl in *. rewrite E in *. simpl in *.
      split; [|split].
      * intros id p' [[<- <-] | [Hne H]]%lookup_insert_Some.
        -- split; [done|lia].
        -- destruct (Hs id p' H). split; [done|lia].
      * intros id pf H. destruct (Hf id pf H). split; [done|lia].
      * intros id [p' [[<- <-] | [Hne H]]%lookup_insert_Some].
        -- destruct (fallbacks sys !! currentRequestId p) as [pf|] eqn:E'; [|done].
           destruct (Hf _ _ E'). lia.
        -- apply Hd. by exists p'.
    + apply Hkeep; simpl; unfold performSearch; by rewrite Hurl.
  - simpl in *. destruct (searches sys !! id) as [p|] eqn:Ep; [|by apply Hkeep].
    destruct (Hs id p Ep) as [Hp Hb].
    pose proof (onSearchResolved_generation p result (state sys)) as Hg.
    destruct (onSearchResolved p result (state sys)) as [s' [pf|]] eqn:E;
      unfold inFlightAbove, generation in *; simpl in *.
    + apply onSearchResolved_fallback in E.
      split; [|split].
      * intros id' p' [Hne H]%lookup_delete_Some.
        destruct (Hs id' p' H). split; [done|lia].
      * intros id' pf' [[<- <-] | [Hne H]]%lookup_insert_Some.
        -- rewrite E. split; [done|lia].
        -- destruct (Hf id' pf' H). split; [done|lia].
      * intros id' [p' [Hne H]%lookup_delete_Some].
        rewrite lookup_insert_ne by done. apply Hd. by exists p'.
    + split; [|split].
      * intros id' p' [Hne H]%lookup_delete_Some.
        destruct (Hs id' p' H). split; [done|lia].
      * intros id' pf' H. destruct (Hf id' pf' H). split; [done|lia].
      * intros id' [p' [Hne H]%lookup_delete_Some]. apply Hd. by exists p'.
  - simpl in *. destruct (searches sys !! id) as [p|] eqn:Ep; [|by apply Hkeep].
    unfold inFlightAbove, generation in *; simpl in *.
    split; [|split].
    + intros id' p' [Hne H]%lookup_delete_Some.
      destruct (Hs id' p' H). split; [done|lia].
    + intros id' pf' H. destruct (Hf id' pf' H). split; [done|lia].
    + intros id' [p' [Hne H]%lookup_delete_Some]. apply Hd. by exists p'.
  - simpl in *. destruct (fallbacks sys !! id) as [pf|] eqn:Ep; [|by apply Hkeep].
    unfold inFlightAbove, generation in *; simpl in *.
    split; [|split].
    + intros id' p' H. destruct (Hs id' p' H). split; [done|lia].
    + intros id' pf' [Hne H]%lookup_delete_Some.
      destruct (Hf id' pf' H). split; [done|lia].
    + intros id' H. destruct (decide (id = id')) as [<-|Hne].
      * apply lookup_delete_eq.
      * rewrite lookup_delete_ne by done. by apply Hd.
  - simpl in *. destruct (fallbacks sys !! id) as [pf|] eqn:Ep; [|by apply Hkeep].
    unfold inFlightAbove, generation in *; simpl in *.
    split; [|split].
    + intros id' p' H. destruct (Hs id' p' H). split; [done|lia].
    + intros id' pf' [Hne H]%lookup_delete_Some.
      destruct (Hf id' pf' H). split; [done|lia].
    + intros id' H. destruct (decide (id = id')) as [<-|Hne].
      * apply lookup_delete_eq.
      * rewrite lookup_delete_ne by done. by apply Hd.
  - apply Hkeep; simpl;
      by destruct (loadMoreProducts url f query (state sys)) as [s' [pm|]].
  - apply Hkeep; simpl; by destruct (mores sys !! i).
  - apply Hkeep; simpl; by destruct (mores sys !! i).
Qed.

Lemma run_generation events sys :
  generation (run events sys)
  = generation sys + Z.of_nat (length (filter (λ e, issuing e = true) events)).
Proof.
  revert sys. induction events as [|e events IH]; intros sys; [simpl; lia|].
  change (run (e :: events) sys) with (run events (step e sys)).
  rewrite IH, step_generation.
  rewrite filter_cons. destruct (issuing e) eqn:E.
  - rewrite decide_True by done. simpl length. lia.
  - rewrite decide_False by done. lia.
Qed.

Lemma run_inFlightAbove r0 events sys :
  r0 ≤ generation sys → inFlightAbove r0 sys → inFlightAbove r0 (run events sys).
Proof.
  revert sys. induction events as [|e events IH]; intros sys Hr0 Hinv; [done|].
  change (run (e :: events) sys) with (run events (step e sys)).
  apply IH; [|by apply step_inFlightAbove].
  rewrite step_generation. destruct (issuing e); lia.
Qed.

Lemma start_inFlightAbove s : inFlightAbove (searchRequestIdRef (ctl s)) (start s).
Proof.
  split; [|split]; simpl.
  - intros id p H. by rewrite lookup_empty in H.
  - intros id pf H. by rewrite lookup_empty in H.
  - intros id [p H]. by rewrite lookup_empty in H.
Qed.

Lemma generations_in_flight_aux (s : State) (events : list Event) :
  inFlightAbove (searchRequestIdRef (ctl s)) (run events (start s)).
Proof. apply run_inFlightAbove; [reflexivity|apply start_inFlightAbove]. Qed.

(** X5. Request generations in any session. After any sequence of events
    (searches issued; primary, fallback and load-more requests settled
    in any order; clear-all; the global facet fetch resolved) started
    with no request in flight, the generation counter has grown by
    exactly the number of [performSearch] calls made with a store URL;
    every primary or fallback request in flight is filed under the
    generation its continuation captured, which is above the initial
    counter and not above the current one; and no generation awaits a
    primary and a fallback response at once. *)
Theorem generations_in_flight (s : State) (events : list Event) :
  let sys := run events (start s) in
  searchRequestIdRef (ctl (state sys))
  = searchRequestIdRef (ctl s)
    + Z.of_nat (length (filter (λ e, issuing e = true) events))
  ∧ inFlightAbove (searchRequestIdRef (ctl s)) sys.
Proof.
  cbv zeta. split.
  - exact (run_generation events (start s)).
  - apply generations_in_flight_aux.
Qed.

(** X6. A superseded primary response in a session. In a system reached
    by any sequence of events, a primary response for a generation that
    is not the current one writes nothing but [isLoading := false] (and
    that only if the request was in flight): results, facet counts,
    price ceilings and filters stay, no fallback request starts, and the
    request leaves the set of requests in flight. The loading flag is
    cleared although the request of the current generation may still be
    in flight. *)
Theorem superseded_response_discarded (s : State) (events : list Event)
    (id : Z) (result : ApiResult)
    (Hstale : id ≠ searchRequestIdRef (ctl (state (run events (start s))))) :
  state (searchStep (SearchResolved id result) (run events (start s)))
  = (if decide (is_Some (searches (run events (start s)) !! id))
     then setIsLoading false (state (run events (start s)))
     else state (run events (start s)))
  ∧ fallbacks (searchStep (SearchResolved id result) (run events (start s)))
    = fallbacks (run events (start s))
  ∧ searches (searchStep (SearchResolved id result) (run events (start s)))
    = delete id (searches (run events (start s))).
Proof.
  destruct (generations_in_flight_aux s events) as (Hs & _).
  set (sys := run events (start s)) in *.
  simpl. destruct (searches sys !! id) as [p|] eqn:Ep.
  - rewrite decide_True by (by exists p).
    destruct (Hs id p Ep) as [Hp _].
    rewrite onSearchResolved_superseded by (rewrite Hp; exact Hstale).
    done.
  - rewrite decide_False by (intros [? ?]; done).
    split; [done|]. split; [done|].
    symmetry. by apply delete_id.
Qed.

Lemma superseded_response_discarded_witness :
  state (searchStep (SearchResolved 1 (IsSearchResponse popularResponse))
           (run twoInFlight (start initialState)))
  = (if decide (is_Some (searches (run twoInFlight (start initialState)) !! 1))
     then setIsLoading false (state (run twoInFlight (start initialState)))
     else state (run twoInFlight (start initialState)))
  ∧ fallbacks (searchStep (SearchResolved 1 (IsSearchResponse popularResponse))
                 (run twoInFlight (start initialState)))
    = fallbacks (run twoInFlight (start initialState))
  ∧ searches (searchStep (SearchResolved 1 (IsSearchResponse popularResponse))
                (run twoInFlight (start initialState)))
    = delete 1 (searches (run twoInFlight (start initialState))).
Proof.
  assert (H : 1 ≠ searchRequestIdRef (ctl (state (run twoInFlight (start initialState)))))
    by (vm_compute; discriminate).
  exact (superseded_response_discarded initialState twoInFlight 1
           (IsSearchResponse popularResponse) H).
Defined.

(** ** The search effect after clear-all, Enter and in the initial state *)

Section SearchBoxProps.
Import Handlers.

Lemma searchEffect_settled (J : FilterState → string) url q f s :
  truthy url = true →
  showRecommendations (behaviour s) = false →
  isInitialState (behaviour s) = false →
  isSearchingFromSuggestion (behaviour s) = false →
  is_Some (snd (searchEffect J url q f s))
  ↔ dedupRefs s ≠ (Some (trim q), J f)
    ∧ (trim q = EmptyString ∨ (3 ≤ String.length (trim q))%nat).
Proof.
  intros Hurl Hshow Hinit Hsugg.
  unfold searchEffect. rewrite Hurl, Hshow, Hinit.
  rewrite !andb_false_r. cbn [negb andb orb]. rewrite Hsugg.
  pose proof (dedupRefs_duplicate J q f s) as Hdup.
  destruct (bool_decide (lastSearchedQueryRef (behaviour s) = Some (trim q))
            && JsString.eqb (lastSearchedFiltersRef (behaviour s)) (J f)).
  - cbn [snd]. split; [intros [? [=]]|].
    intros [Hne _]. exfalso. apply Hne. by apply Hdup.
  - assert (Hne : dedupRefs s ≠ (Some (trim q), J f))
      by (intros E; apply Hdup in E; discriminate).
    destruct (truthy (trim q)) eqn:Ht; cbn [negb].
    + assert (trim q ≠ EmptyString)
        by (intros E; apply truthy_false in E; congruence).
      destruct (3 <=? String.length (trim q))%nat eqn:Hlen.
      * apply Nat.leb_le in Hlen.
        split; [intros _; split; [done|by right]|].
        intros _. by apply performSearch_is_Some.
      * apply Nat.leb_gt in Hlen. cbn [snd].
        split; [intros [? [=]]|]. intros [_ [?|?]]; [done|lia].
    + apply truthy_false in Ht.
      split; [intros _; split; [done|by left]|].
      intros _. by apply performSearch_is_Some.
Qed.

(** X7. Clear-all forces the next search. Whatever was searched before,
    the first run of the search effect after [handleClearAll] is
    skipped neither as a duplicate nor for the initial state: with a
    store URL it calls [performSearch] exactly when the trimmed
    debounced query is empty or has at least three characters, and the
    request it issues carries the generation after the current one. *)
Theorem clear_all_forces_search (JSON_stringify : FilterState → string)
    (storeUrl debouncedSearchQuery : string) (debouncedFilters : FilterState)
    (s : State) (Hurl : truthy storeUrl = true) :
  (is_Some (snd (searchEffect JSON_stringify storeUrl debouncedSearchQuery
                   debouncedFilters (handleClearAll s)))
   ↔ trim debouncedSearchQuery = EmptyString
     ∨ (3 ≤ String.length (trim debouncedSearchQuery))%nat)
  ∧ (∀ p, snd (searchEffect JSON_stringify storeUrl debouncedSearchQuery
                 debouncedFilters (handleClearAll s)) = Some p →
       currentRequestId p = searchRequestIdRef (ctl s) + 1
       ∧ ps_debouncedFilters p = debouncedFilters).
Proof.
  split.
  - rewrite searchEffect_settled by (done || reflexivity).
    split; [intros [_ H]; exact H|]. intros H. split; [|exact H].
    unfold dedupRefs. intros [=].
  - intros p. unfold searchEffect. rewrite Hurl. cbn [negb].
    change (isInitialState (behaviour (handleClearAll s))) with false.
    change (showRecommendations (behaviour (handleClearAll s))) with false.
    change (isSearchingFromSuggestion (behaviour (handleClearAll s))) with false.
    rewrite !andb_false_r. cbn [negb andb orb].
    change (lastSearchedQueryRef (behaviour (handleClearAll s))) with (@None string).
    rewrite bool_decide_eq_false_2 by discriminate. cbn [andb].
    set (s2 := _ |> setLastSearchedQueryRef _ |> setLastSearchedFiltersRef _).
    assert (Hgen : searchRequestIdRef (ctl s2) = searchRequestIdRef (ctl s))
      by reflexivity.
    assert (Hp : ∀ query, snd (performSearch storeUrl debouncedFilters query s2) = Some p →
                 currentRequestId p = searchRequestIdRef (ctl s) + 1
                 ∧ ps_debouncedFilters p = debouncedFilters).
    { intros query.
      destruct (performSearch_issues storeUrl debouncedFilters query s2 Hurl)
        as (s1 & p' & E & Hid & Hnew & _ & Hf & _).
      rewrite E. intros [= <-]. split; [lia|done]. }
    destruct (truthy (trim debouncedSearchQuery)); cbn [negb]; [|apply Hp].
    destruct (3 <=? String.length (trim debouncedSearchQuery))%nat;
      [apply Hp|intros [=]].
Qed.

Lemma clear_all_forces_search_witness :
  is_Some (snd (searchEffect stringifyPlain shopUrl EmptyString noFilters
                  (handleClearAll afterPricedResponse))).
Proof.
  assert (Hurl : truthy shopUrl = true) by reflexivity.
  pose proof (clear_all_forces_search stringifyPlain shopUrl EmptyString noFilters
                afterPricedResponse Hurl) as H.
  destruct H as (H & _). apply H. left. reflexivity.
Defined.

Lemma addToRecentSearches_behaviour query s :
  behaviour (addToRecentSearches query s) = behaviour s.
Proof. unfold addToRecentSearches. by destruct (_ && _). Qed.

Lemma handleEnter_behaviour input s :
  behaviour (handleEnter input s)
  = {| searchQuery := searchQuery (behaviour s);
       showRecommendations := false;
       isInitialState := false;
       hasSearched := true;
       isSearchingFromSuggestion := isSearchingFromSuggestion (behaviour s);
       forceSearch := forceSearch (behaviour s) + 1;
       lastSearchedQueryRef := lastSearchedQueryRef (behaviour s);
       lastSearchedFiltersRef := lastSearchedFiltersRef (behaviour s) |}.
Proof.
  unfold handleEnter.
  destruct (truthy (trim input));
    destruct (hasSearched (behaviour s)) eqn:E; simpl;
    rewrite ?addToRecentSearches_behaviour, ?E; reflexivity.
Qed.

(** X8. Enter does not bypass de-duplication. Pressing Enter with no
    suggestion highlighted ends the recommendations view, marks the
    session as searched and increments [forceSearch], but leaves the two
    de-duplication refs alone: the run of the search effect that follows
    calls [performSearch] exactly when the pair (trimmed debounced
    query, serialised debounced filters) differs from the pair last
    searched and the trimmed query is empty or has at least three
    characters. Enter on what was just searched issues nothing. *)
Theorem enter_respects_deduplication (JSON_stringify : FilterState → string)
    (storeUrl input debouncedSearchQuery : string) (debouncedFilters : FilterState)
    (s : State)
    (Hurl : truthy storeUrl = true)
    (Hsuggestion : isSearchingFromSuggestion (behaviour s) = false) :
  showRecommendations (behaviour (handleEnter input s)) = false
  ∧ isInitialState (behaviour (handleEnter input s)) = false
  ∧ hasSearched (behaviour (handleEnter input s)) = true
  ∧ forceSearch (behaviour (handleEnter input s)) = forceSearch (behaviour s) + 1
  ∧ dedupRefs (handleEnter input s) = dedupRefs s
  ∧ (is_Some (snd (searchEffect JSON_stringify storeUrl debouncedSearchQuery
                     debouncedFilters (handleEnter input s)))
     ↔ dedupRefs s ≠ (Some (trim debouncedSearchQuery), JSON_stringify debouncedFilters)
       ∧ (trim debouncedSearchQuery = EmptyString
          ∨ (3 ≤ String.length (trim debouncedSearchQuery))%nat)).
Proof.
  assert (Hrefs : dedupRefs (handleEnter input s) = dedupRefs s)
    by (unfold dedupRefs; by rewrite handleEnter_behaviour).
  rewrite searchEffect_settled, Hrefs
    by (done || by rewrite handleEnter_behaviour).
  rewrite handleEnter_behaviour. done.
Qed.

(** The state after a search for "shoes" was issued by the effect. *)
Lemma enter_respects_deduplication_witness :
  let s := fst (searchEffect stringifyPlain shopUrl "shoes" noFilters
                  (initialState |> setShowRecommendations false
                                |> setIsInitialState false)) in
  dedupRefs s = (Some "shoes", stringifyPlain noFilters)
  ∧ ¬ is_Some (snd (searchEffect stringifyPlain shopUrl "shoes" noFilters
                      (handleEnter "shoes" s))).
Proof.
  cbv zeta.
  set (s := fst (searchEffect stringifyPlain shopUrl "shoes" noFilters
                   (initialState |> setShowRecommendations false
                                 |> setIsInitialState false))).
  assert (Hurl : truthy shopUrl = true) by reflexivity.
  assert (Hsugg : isSearchingFromSuggestion (behaviour s) = false) by reflexivity.
  assert (Hrefs : dedupRefs s = (Some "shoes", stringifyPlain noFilters))
    by (vm_compute; reflexivity).
  split; [exact Hrefs|].
  pose proof (enter_respects_deduplication stringifyPlain shopUrl "shoes" "shoes"
                noFilters s Hurl Hsugg) as H.
  destruct H as (_ & _ & _ & _ & _ & H).
  intros Hsome. apply H in Hsome. destruct Hsome as [Hne _].
  apply Hne. exact Hrefs.
Defined.

(** X9. Leaving the initial state by a filter. While recommendations are
    shown in the initial state, the search effect does nothing at all
    when the debounced query is not blank or when no category, stock,
    featured, sale or narrowed price filter is set; brands, colours,
    sizes and tags do not count. With a blank query and one of the
    counted filters it ends the initial state (recommendations off,
    [hasSearched] on) and, unless the pair was already searched, issues
    the request for the empty query under these filters. *)
Theorem initial_state_left_by_filters (JSON_stringify : FilterState → string)
    (storeUrl debouncedSearchQuery : string) (debouncedFilters : FilterState)
    (s : State)
    (Hurl : truthy storeUrl = true)
    (Hshow : showRecommendations (behaviour s) = true)
    (Hinit : isInitialState (behaviour s) = true) :
  let active := hasActiveDebouncedFilters debouncedFilters (maxPrice (ctl s)) in
  let eff := searchEffect JSON_stringify storeUrl debouncedSearchQuery
               debouncedFilters s in
  (trim debouncedSearchQuery ≠ EmptyString ∨ active = false → eff = (s, None))
  ∧ (trim debouncedSearchQuery = EmptyString → active = true →
     showRecommendations (behaviour (fst eff)) = false
     ∧ isInitialState (behaviour (fst eff)) = false
     ∧ hasSearched (behaviour (fst eff)) = true
     ∧ (isSearchingFromSuggestion (behaviour s) = false →
        dedupRefs s ≠ (Some EmptyString, JSON_stringify debouncedFilters) →
        ∃ p, snd eff = Some p ∧ q (ps_params p) = EmptyString
             ∧ ps_debouncedFilters p = debouncedFilters))
  ∧ (categories debouncedFilters = [] → stockStatus debouncedFilters = [] →
     featuredProducts debouncedFilters = [] → saleStatus debouncedFilters = [] →
     fst (priceRange debouncedFilters) ≤ 0 →
     maxPrice (ctl s) ≤ snd (priceRange debouncedFilters) →
     active = false).
Proof.
  cbv zeta. split; [|split].
  - intros H. unfold searchEffect. rewrite Hurl, Hshow, Hinit. cbn [negb].
    destruct H as [H|H].
    + assert (Ht : truthy (trim debouncedSearchQuery) = true).
      { destruct (truthy (trim debouncedSearchQuery)) eqn:E; [done|].
        by apply truthy_false in E. }
      rewrite Ht. by rewrite !andb_false_r.
    + by rewrite H.
  - intros Hq Hactive.
    assert (Ht : truthy (trim debouncedSearchQuery) = false) by (by rewrite Hq).
    unfold searchEffect. rewrite Hurl, Hinit, Hactive, Ht, Hq. cbn [negb andb orb].
    set (s1 := s |> setShowRecommendations false |> setIsInitialState false
                 |> setHasSearched true).
    change (isSearchingFromSuggestion (behaviour s))
      with (isSearchingFromSuggestion (behaviour s1)).
    destruct (isSearchingFromSuggestion (behaviour s1)) eqn:Hsugg.
    { repeat split; try reflexivity. intros [=]. }
    pose proof (dedupRefs_duplicate JSON_stringify debouncedSearchQuery
                  debouncedFilters s1) as Hdup.
    rewrite Hq in Hdup.
    destruct (bool_decide (lastSearchedQueryRef (behaviour s1) = Some EmptyString)
              && JsString.eqb (lastSearchedFiltersRef (behaviour s1))
                   (JSON_stringify debouncedFilters)).
    { repeat split; try reflexivity. intros _ Hne. exfalso. apply Hne.
      by apply Hdup. }
    set (s2 := s1 |> setLastSearchedQueryRef _ |> setLastSearchedFiltersRef _).
    destruct (performSearch_issues storeUrl debouncedFilters EmptyString s2 Hurl)
      as (s3 & p & E & _ & _ & _ & Hf & _).
    pose proof (performSearch_behaviour storeUrl debouncedFilters EmptyString s2) as Hb.
    pose proof (performSearch_query storeUrl debouncedFilters EmptyString s2 p) as Hpq.
    rewrite E in *. cbn [fst snd] in *. rewrite Hb.
    repeat split; try reflexivity.
    intros _ _. exists p. split; [done|]. split; [by apply Hpq|done].
  - unfold hasActiveDebouncedFilters. intros -> -> -> -> Hlo Hhi. cbn [nonEmpty orb].
    simpl. apply orb_false_iff. split; [apply Z.ltb_ge|apply Z.ltb_ge]; lia.
Qed.

Lemma initial_state_left_by_filters_witness :
  searchEffect stringifyPlain shopUrl EmptyString nikeFilters initialState
  = (initialState, None).
Proof.
  assert (Hurl : truthy shopUrl = true) by reflexivity.
  assert (Hshow : showRecommendations (behaviour initialState) = true) by reflexivity.
  assert (Hinit : isInitialState (behaviour initialState) = true) by reflexivity.
  pose proof (initial_state_left_by_filters stringifyPlain shopUrl EmptyString
                nikeFilters initialState Hurl Hshow Hinit) as H.
  destruct H as (H & _).
  apply H. right. reflexivity.
Defined.

(** X10. The search-behaviour effect. After the effect ran,
    recommendations are shown, and the state is the initial one, exactly
    when the query is empty and nothing was searched yet; [hasSearched]
    is raised by a non-empty query and never lowered; nothing outside
    the three cells is written; running the effect again changes
    nothing. After clear-all, and after a click on a non-empty
    suggestion, the effect keeps recommendations hidden. *)
Theorem behaviour_effect_view (s : State) :
  let b := behaviour s in
  let s' := behaviourEffect s in
  showRecommendations (behaviour s')
  = negb (truthy (searchQuery b)) && negb (hasSearched b)
  ∧ isInitialState (behaviour s') = showRecommendations (behaviour s')
  ∧ hasSearched (behaviour s') = hasSearched b || truthy (searchQuery b)
  ∧ behaviourEffect s' = s'
  ∧ (results s', counts s', globalCounts s', ctl s', filters s', recentSearches s',
     searchQuery (behaviour s'), dedupRefs s', forceSearch (behaviour s'))
    = (results s, counts s, globalCounts s, ctl s, filters s, recentSearches s,
       searchQuery b, dedupRefs s, forceSearch b)
  ∧ showRecommendations (behaviour (behaviourEffect (handleClearAll s))) = false
  ∧ (∀ suggestion, suggestion ≠ EmptyString →
       showRecommendations
         (behaviour (behaviourEffect (handleSuggestionClick suggestion s))) = false
       ∧ searchQuery
           (behaviour (behaviourEffect (handleSuggestionClick suggestion s)))
         = suggestion).
Proof.
  cbv zeta.
  destruct s as [r c g ct [sq sr ii hs isf fs lq lf] fl rs].
  unfold behaviourEffect, dedupRefs. cbn [behaviour searchQuery hasSearched].
  split; [|split; [|split; [|split; [|split; [|split]]]]].
  1-5: destruct (truthy sq) eqn:Hq, hs; cbn; rewrite ?Hq; cbn; reflexivity.
  - reflexivity.
  - intros suggestion Hne.
    assert (Ht : truthy suggestion = true).
    { destruct (truthy suggestion) eqn:E; [done|]. by apply truthy_false in E. }
    unfold handleSuggestionClick.
    set (s0 := addToRecentSearches suggestion _).
    cbn. rewrite Ht. cbn. done.
Qed.

End SearchBoxProps.

(** ** Load more: the empty page and the failed page *)

(** X11. An empty page ends pagination. When a load-more request
    resolves with no products (an empty page, even one that says
    [hasMore], or a response that is not a page at all), the displayed
    list, the displayed count and the page number stay as they are,
    [hasMoreProducts] becomes false and the loading flag is cleared; a
    further [loadMoreProducts] then issues nothing. *)
Theorem empty_page_ends_pagination (pm : PendingMore) (result : ApiResult)
    (s : State) (storeUrl query : string) (f : FilterState)
    (Hempty : fst (pageOf result) = []) :
  let s' := onLoadMoreResolved pm result s in
  filteredProducts (results s') = filteredProducts (results s)
  ∧ displayedProducts (results s') = displayedProducts (results s)
  ∧ currentPage (ctl s') = currentPage (ctl s)
  ∧ hasMoreProducts (results s') = false
  ∧ isLoadingMore (ctl s') = false
  ∧ loadMoreProducts storeUrl f query s' = (s', None).
Proof.
  cbv zeta. unfold onLoadMoreResolved.
  destruct (pageOf result) as [ps more]. simpl in Hempty. subst ps.
  cbn [nonEmpty]. repeat split; reflexivity.
Qed.

Lemma empty_page_ends_pagination_witness :
  let s' := onLoadMoreResolved (mkPendingMore shopUrl
                                  (loadMoreParams shopUrl noFilters EmptyString 1))
              (IsSearchResponse (mkResponse [] 24 true None false None None None))
              initialState in
  hasMoreProducts (results s') = false
  ∧ loadMoreProducts shopUrl noFilters EmptyString s' = (s', None).
Proof.
  cbv zeta.
  assert (Hempty : fst (pageOf (IsSearchResponse
                                  (mkResponse [] 24 true None false None None None)))
                   = []) by reflexivity.
  pose proof (empty_page_ends_pagination
                (mkPendingMore shopUrl (loadMoreParams shopUrl noFilters EmptyString 1))
                (IsSearchResponse (mkResponse [] 24 true None false None None None))
                initialState shopUrl EmptyString noFilters Hempty) as H.
  destruct H as (_ & _ & _ & H1 & _ & H2).
  split; [exact H1|exact H2].
Defined.

(** X12. A failed page can be asked for again. When the load-more
    request that [loadMoreProducts] issued is rejected, the state is
    back to what it was before the call (no result cell, page number or
    [hasMoreProducts] is touched), so that the next call issues the
    request for the same page again. *)
Theorem failed_page_is_retried (storeUrl query : string) (f : FilterState)
    (s s1 : State) (pm : PendingMore)
    (Hissued : loadMoreProducts storeUrl f query s = (s1, Some pm)) :
  onLoadMoreRejected s1 = s
  ∧ loadMoreProducts storeUrl f query (onLoadMoreRejected s1) = (s1, Some pm).
Proof.
  assert (E : onLoadMoreRejected s1 = s).
  { revert Hissued. unfold loadMoreProducts.
    destruct (isLoadingMore (ctl s)) eqn:Hl; [intros [=]|].
    destruct (_ || _); intros [= <- <-].
    destruct s as [r c g [] b fl rs]. simpl in Hl. subst. reflexivity. }
  split; [exact E|]. rewrite E. exact Hissued.
Qed.

Lemma failed_page_is_retried_witness :
  onLoadMoreRejected (setIsLoadingMore true initialState) = initialState.
Proof.
  assert (H : loadMoreProducts shopUrl noFilters EmptyString initialState
              = (setIsLoadingMore true initialState,
                 Some (mkPendingMore shopUrl
                         (loadMoreParams shopUrl noFilters EmptyString 1))))
    by reflexivity.
  pose proof (failed_page_is_retried shopUrl EmptyString noFilters initialState
                (setIsLoadingMore true initialState)
                (mkPendingMore shopUrl (loadMoreParams shopUrl noFilters EmptyString 1))
                H) as H'.
  destruct H' as (H' & _). exact H'.
Defined.

(** ** Keyed facet counts and the count shown for a key *)

Section FacetCountProps.
Import Handlers.

Lemma foldl_countKeyedBucket_lookup (buckets : list FacetBucket)
    (counts : gmap string Z) (k : string) :
  foldl countKeyedBucket counts buckets !! k
  = if truthy k && negb (JsString.eqb k "__proto__")
    then match last (filter (λ b, getFacetBucketKey b = k) buckets) with
         | Some b => Some (doc_count b)
         | None => counts !! k
         end
    else counts !! k.
Proof.
  revert counts. induction buckets as [|b buckets IH]; intros counts.
  - simpl. by destruct (truthy k && negb (JsString.eqb k "__proto__")).
  - simpl foldl. rewrite IH. rewrite filter_cons.
    unfold countKeyedBucket at 1 2. unfold assign.
    destruct (truthy k) eqn:Hk; cbn [andb].
    + destruct (JsString.eqb k "__proto__") eqn:Hp; cbn [negb].
      * apply eqb_eq in Hp. subst k.
        destruct (truthy (getFacetBucketKey b)); [|done].
        destruct (JsString.eqb (getFacetBucketKey b) "__proto__") eqn:E; [done|].
        apply eqb_neq in E. by rewrite lookup_insert_ne.
      * destruct (decide (getFacetBucketKey b = k)) as [E|E].
        -- rewrite E, Hk, Hp.
           destruct (filter (λ b0, getFacetBucketKey b0 = k) buckets)
             as [|b' l] eqn:Ef.
           ++ simpl. by rewrite lookup_insert_eq.
           ++ change (last (b :: b' :: l)) with (last (b' :: l)).
              destruct (last (b' :: l)) eqn:El; [done|].
              by apply last_None in El.
        -- destruct (last (filter (λ b0, getFacetBucketKey b0 = k) buckets)); [done|].
           destruct (truthy (getFacetBucketKey b)); [|done].
           destruct (JsString.eqb (getFacetBucketKey b) "__proto__"); [done|].
           by rewrite lookup_insert_ne.
    + destruct (truthy (getFacetBucketKey b)) eqn:Hb; [|done].
      destruct (JsString.eqb (getFacetBucketKey b) "__proto__"); [done|].
      rewrite lookup_insert_ne; [done|]. intros E. congruence.
Qed.

(** X13. Keyed facet counts. The object built from the buckets of a
    category, brand or tag facet has an own entry for a key exactly when
    the key is neither empty nor [__proto__] (an assignment under that
    name stores nothing) and some bucket resolves to it, and the entry
    is the [doc_count] of the last such bucket: counts of repeated keys
    are not added up. What [getFacetCount] shows for a key is that
    [doc_count]; for a key without an entry it is 0, unless the key
    names a property inherited from [Object.prototype] ([constructor],
    [toString], [__proto__], ...), where [counts[key] || 0] is the
    inherited value and not a number; for an omitted or empty key it is
    0. After a current search response whose category facet has at
    least one bucket, that is what is shown for every category. *)
Theorem keyed_counts_lookup (buckets : list FacetBucket) (k : string)
    (c : FacetCounts) (fp : FacetsPayload) (ps : list Product) (s : State) :
  let named := filter (λ b, getFacetBucketKey b = k) buckets in
  let shown :=
    if truthy k then
      if JsString.eqb k "__proto__" then InheritedProperty k
      else match last named with
           | Some b => Count (doc_count b)
           | None => if inherited k then InheritedProperty k else Count 0
           end
    else Count 0 in
  countKeyedBuckets buckets !! k
  = (if truthy k && negb (JsString.eqb k "__proto__")
     then doc_count <$> last named else None)
  ∧ (is_Some (countKeyedBuckets buckets !! k)
     ↔ k ≠ EmptyString ∧ k ≠ "__proto__" ∧ named ≠ [])
  ∧ (categoryCounts c = countKeyedBuckets buckets →
     getFacetCount c CategoryFacet (Some k) = shown)
  ∧ getFacetCount c CategoryFacet None = Count 0
  ∧ (extractFacetBuckets (f_category fp) = buckets → buckets ≠ [] →
     getFacetCount (counts (applySearchFacets fp ps s)) CategoryFacet (Some k)
     = shown)
  ∧ (k ≠ EmptyString → inherited k = false →
     shown = Count (default 0 (doc_count <$> last named))).
Proof.
  cbv zeta.
  set (named := filter (λ b, getFacetBucketKey b = k) buckets).
  assert (Hlookup : countKeyedBuckets buckets !! k
                    = if truthy k && negb (JsString.eqb k "__proto__")
                      then doc_count <$> last named else None).
  { unfold countKeyedBuckets. rewrite foldl_countKeyedBucket_lookup.
    rewrite lookup_empty. fold named.
    destruct (truthy k && negb (JsString.eqb k "__proto__")); [|done].
    by destruct (last named). }
  assert (Hproto : inherited "__proto__" = true) by reflexivity.
  assert (Hshown : ∀ c', categoryCounts c' = countKeyedBuckets buckets →
            getFacetCount c' CategoryFacet (Some k)
            = if truthy k then
                if JsString.eqb k "__proto__" then InheritedProperty k
                else match last named with
                     | Some b => Count (doc_count b)
                     | None => if inherited k then InheritedProperty k else Count 0
                     end
              else Count 0).
  { intros c' Hc. unfold getFacetCount, orZero.
    change (default EmptyString (Some k)) with k.
    rewrite Hc, Hlookup.
    destruct (truthy k); [|done]. cbn [andb].
    destruct (JsString.eqb k "__proto__") eqn:Hp; cbn [negb].
    - apply eqb_eq in Hp. subst k. by rewrite Hproto.
    - by destruct (last named). }
  split; [exact Hlookup|].
  split; [|split; [apply Hshown|split; [reflexivity|split]]].
  - rewrite Hlookup. destruct (truthy k) eqn:Hk; cbn [andb].
    + destruct (JsString.eqb k "__proto__") eqn:Hp; cbn [negb].
      * apply eqb_eq in Hp. split; [by intros [? ?]|]. by intros (_ & ? & _).
      * apply eqb_neq in Hp. rewrite fmap_is_Some.
        assert (Hne : k ≠ EmptyString) by (intros ->; discriminate).
        destruct (last named) eqn:El.
        -- split; [intros _|by eexists]. split; [done|]. split; [done|].
           intros E. by rewrite E in El.
        -- apply last_None in El. split; [by intros [? ?]|].
           by intros (_ & _ & ?).
    + apply truthy_false in Hk. split; [by intros [? ?]|]. by intros (? & _).
  - intros Hb Hne. apply Hshown.
    destruct (applySearchFacets_reactive fp ps s) as (Hcat & _).
    rewrite Hcat, Hb. apply nonEmpty_true in Hne. by rewrite Hne.
  - intros Hne Hown.
    assert (Hk : truthy k = true) by (by destruct k).
    rewrite Hk.
    destruct (JsString.eqb k "__proto__") eqn:Hp.
    + apply eqb_eq in Hp. subst k. congruence.
    + rewrite Hown. by destruct (last named).
Qed.

Lemma keyed_counts_lookup_witness :
  getFacetCount
    (counts (applySearchFacets shoeFacets [] initialState)) CategoryFacet (Some "Shoes")
  = Count 3.
Proof.
  assert (Hb : extractFacetBuckets (f_category shoeFacets) = shoeBuckets)
    by reflexivity.
  assert (Hne : shoeBuckets ≠ []) by discriminate.
  pose proof (keyed_counts_lookup shoeBuckets "Shoes" noCounts shoeFacets []
                initialState) as H.
  destruct H as (_ & _ & _ & _ & H & _).
  rewrite (H Hb Hne). reflexivity.
Defined.

End FacetCountProps.

(** ** The price ceilings *)

Lemma roundUpTo_bounds (step : Z) (m : Q) :
  0 < step →
  (m <= inject_Z (roundUpTo step m))%Q
  ∧ (inject_Z (roundUpTo step m - step) < m)%Q
  ∧ (step | roundUpTo step m).
Proof.
  intros Hstep. unfold roundUpTo.
  set (c := Qceiling (m / inject_Z step)).
  assert (Hs : (0 < inject_Z step)%Q)
    by (change (inject_Z 0 < inject_Z step)%Q; by rewrite <- Zlt_Qlt).
  assert (Hne : ¬ (inject_Z step == 0)%Q)
    by (intros E; rewrite E in Hs; by apply Qlt_irrefl in Hs).
  assert (Hm : (m / inject_Z step * inject_Z step == m)%Q)
    by (field; exact Hne).
  split; [|split].
  - rewrite inject_Z_mult, <- Hm at 1.
    apply Qmult_le_r; [exact Hs|]. apply Qle_ceiling.
  - replace (c * step - step) with ((c - 1) * step) by lia.
    rewrite inject_Z_mult. rewrite <- Hm at 1.
    apply Qmult_lt_r; [exact Hs|]. apply Qceiling_lt.
  - by apply Z.divide_factor_r.
Qed.

Lemma Qmaximum_spec (x : Q) (xs : list Q) :
  (∀ y, y ∈ x :: xs → (y <= Qmaximum x xs)%Q) ∧ Qmaximum x xs ∈ x :: xs.
Proof.
  unfold Qmaximum. revert x. induction xs as [|y xs IH]; intros x.
  - simpl. split; [|by left]. intros y ->%list_elem_of_singleton. apply Qle_refl.
  - simpl. destruct (Qlt_le_dec x y) as [Hlt|Hle].
    + destruct (IH y) as [Hmax Hin]. split.
      * intros z [->|Hz]%elem_of_cons.
        -- apply Qle_trans with y; [by apply Qlt_le_weak|]. apply Hmax. by left.
        -- by apply Hmax.
      * by right.
    + destruct (IH x) as [Hmax Hin]. split.
      * intros z [->|[->|Hz]%elem_of_cons]%elem_of_cons.
        -- apply Hmax. by left.
        -- apply Qle_trans with x; [exact Hle|]. apply Hmax. by left.
        -- apply Hmax. by right.
      * apply elem_of_cons in Hin as [Hin|Hin]; [rewrite Hin; by left|].
        right. by right.
Qed.

Lemma productPrices_positive (ps : list Product) (c : Q) :
  c ∈ productPrices ps → (0 < c)%Q.
Proof.
  unfold productPrices. intros (p & Hp & Hc)%list_elem_of_omap.
  destruct (currentPrice p) as [c'|].
  - destruct (Qlt_le_dec 0 c'); [|done]. by injection Hc as <-.
  - destruct (originalPrice p) as [o|]; [|done].
    destruct (Qlt_le_dec 0 o); [|done]. by injection Hc as <-.
Qed.

(** X14. The rounded price ceiling. For a positive step, the ceiling
    computed from a list of prices exists exactly when the list is not
    empty; it is a multiple of the step, no price of the list is above
    it, and some price is above the multiple before it. The filtered
    price ceiling a search response writes (step 50, over the positive
    effective prices [currentPrice ?? originalPrice] of its products) is
    therefore positive, a multiple of 50 and at least every such price;
    a page without one leaves the ceiling as it was. Prices are
    rationals. *)
Theorem price_ceiling_is_least_multiple (step : Z) (prices : list Q)
    (fp : FacetsPayload) (ps : list Product) (s : State)
    (Hstep : 0 < step) :
  (roundedMaxPrice step prices = None ↔ prices = [])
  ∧ (∀ r, roundedMaxPrice step prices = Some r →
       (step | r)
       ∧ (∀ p, p ∈ prices → (p <= inject_Z r)%Q)
       ∧ ∃ p, p ∈ prices ∧ (inject_Z (r - step) < p)%Q)
  ∧ (let m := filteredMaxPrice (ctl (applySearchFacets fp ps s)) in
     if decide (productPrices ps = [])
     then m = filteredMaxPrice (ctl s)
     else (50 | m) ∧ 0 < m ∧ ∀ c, c ∈ productPrices ps → (c <= inject_Z m)%Q).
Proof.
  assert (Hround : ∀ step' l r, 0 < step' → roundedMaxPrice step' l = Some r →
            (step' | r)
            ∧ (∀ p, p ∈ l → (p <= inject_Z r)%Q)
            ∧ ∃ p, p ∈ l ∧ (inject_Z (r - step') < p)%Q).
  { intros step' l r Hpos. destruct l as [|x xs]; [done|].
    intros [= <-].
    destruct (roundUpTo_bounds step' (Qmaximum x xs) Hpos) as (Hle & Hlt & Hdiv).
    destruct (Qmaximum_spec x xs) as [Hmax Hin].
    split; [exact Hdiv|]. split.
    - intros p Hp. apply Qle_trans with (Qmaximum x xs); [by apply Hmax|exact Hle].
    - exists (Qmaximum x xs). split; [exact Hin|exact Hlt]. }
  split; [|split].
  - destruct prices; [done|]. split; intros [=].
  - intros r. by apply Hround.
  - cbv zeta.
    assert (Hm : filteredMaxPrice (ctl (applySearchFacets fp ps s))
                 = match roundedMaxPrice 50 (productPrices ps) with
                   | Some m => m
                   | None => filteredMaxPrice (ctl s)
                   end).
    { split_facet_guards; reflexivity. }
    rewrite Hm.
    destruct (decide (productPrices ps = [])) as [E|E].
    + by rewrite E.
    + destruct (roundedMaxPrice 50 (productPrices ps)) as [m|] eqn:Er.
      * destruct (Hround 50 _ m ltac:(lia) Er) as (Hdiv & Hall & (p & Hp & Hlt)).
        split; [exact Hdiv|]. split; [|exact Hall].
        pose proof (productPrices_positive ps p Hp) as Hpos.
        pose proof (Hall p Hp) as Hle.
        assert (H0 : (0 < inject_Z m)%Q) by (eapply Qlt_le_trans; eassumption).
        by rewrite (Zlt_Qlt 0 m).
      * destruct (productPrices ps); [done|discriminate].
Qed.

Lemma price_ceiling_is_least_multiple_witness :
  (50 | 150) ∧ ∀ p, p ∈ [120 # 1; 35 # 2]%Q → (p <= inject_Z 150)%Q.
Proof.
  assert (Hstep : 0 < 50) by lia.
  assert (Hr : roundedMaxPrice 50 [120 # 1; 35 # 2]%Q = Some 150) by reflexivity.
  pose proof (price_ceiling_is_least_multiple 50 [120 # 1; 35 # 2]%Q
                bucketlessFacets [] initialState Hstep) as H.
  destruct H as (_ & H & _).
  destruct (H 150 Hr) as (Hdiv & Hall & _).
  split; [exact Hdiv|exact Hall].
Defined.

(** ** Global counts and clear-all *)

Lemma setWhenBuckets_agree {A} facet (build : list FacetBucket → A)
    (setter : A → State → State) s :
  (∀ a s', counts s' = globalCounts s' →
           counts (setter a s') = globalCounts (setter a s')) →
  counts s = globalCounts s →
  counts (setWhenBuckets facet build setter s)
  = globalCounts (setWhenBuckets facet build setter s).
Proof.
  intros Hset H. unfold setWhenBuckets.
  destruct (nonEmpty (extractFacetBuckets facet)); [by apply Hset|exact H].
Qed.

Lemma applyGlobalFacets_counts t fp ps s :
  counts s = globalCounts s →
  counts (applyGlobalFacets t fp ps s) = globalCounts (applyGlobalFacets t fp ps s).
Proof.
  intros H. unfold applyGlobalFacets.
  set (s8 := setWhenBuckets (f_tag fp) _ _ _).
  assert (H8 : counts s8 = globalCounts s8).
  { subst s8.
    repeat (apply setWhenBuckets_agree;
            [intros a s' Hs'; simpl; rewrite ?Hs'; reflexivity|]).
    exact H. }
  destruct (globalMaxPrice fp ps); exact H8.
Qed.

Lemma onGlobalFacetsResolved_counts t result s :
  counts s = globalCounts s →
  counts (onGlobalFacetsResolved t result s)
  = globalCounts (onGlobalFacetsResolved t result s).
Proof.
  intros H. unfold onGlobalFacetsResolved.
  destruct result as [r| |]; [|exact H..].
  destruct (facets r); [|exact H].
  by apply applyGlobalFacets_counts.
Qed.

Lemma onSearchResolved_globalCounts p result s :
  globalCounts (fst (onSearchResolved p result s)) = globalCounts s.
Proof.
  destruct (readResponse_frame result s) as (_ & Hg & _).
  unfold onSearchResolved.
  repeat match goal with
         | |- context [if ?c then _ else _] => destruct c
         end; simpl; by rewrite ?Hg.
Qed.

Lemma searchStep_globalCounts e sys :
  globalCounts (state (searchStep e sys)) = globalCounts (state sys).
Proof.
  destruct e as [url f query | id result | id error | id result | id
                | url f query | i result | i]; simpl.
  - unfold performSearch. by destruct (truthy url).
  - destruct (searches sys !! id) as [p|]; [|reflexivity].
    pose proof (onSearchResolved_globalCounts p result (state sys)) as H.
    destruct (onSearchResolved p result (state sys)) as [s' [pf|]]; exact H.
  - destruct (searches sys !! id) as [p|]; [|reflexivity].
    destruct error; reflexivity.
  - destruct (fallbacks sys !! id) as [pf|]; reflexivity.
  - destruct (fallbacks sys !! id) as [pf|]; reflexivity.
  - unfold loadMoreProducts. by destruct (_ || _ || _).
  - destruct (mores sys !! i) as [pm|]; [|reflexivity]. simpl.
    unfold onLoadMoreResolved. destruct (pageOf result) as [ps more].
    by destruct (nonEmpty ps).
  - destruct (mores sys !! i) as [pm|]; reflexivity.
Qed.

Lemma run_search_globalCounts events sys :
  globalCounts (state (run (Search <$> events) sys)) = globalCounts (state sys).
Proof.
  revert sys. induction events as [|e events IH]; intros sys; [reflexivity|].
  change (run (Search <$> e :: events) sys)
    with (run (Search <$> events) (searchStep e sys)).
  rewrite IH. apply searchStep_globalCounts.
Qed.

Lemma handleClearAll_counts s : counts (handleClearAll s) = globalCounts s.
Proof. destruct s as [r c g ct b fl rs]. destruct g. reflexivity. Qed.

(** X15. Clear-all brings back the counts of the global fetch. If the
    displayed and the global counts agree when the global facet response
    arrives (as they do at mount), they agree after it was read; no
    search event (request issued, primary, fallback or load-more request
    settled, in any order) writes a global count; and clear-all, after
    any such sequence, displays again all eight counts exactly as the
    global fetch left them, keeping the global ones. *)
Theorem clear_all_restores_fetched_counts (sys : System) (t : StockLabels)
    (result : ApiResult) (events : list SearchEvent)
    (Hsame : counts (state sys) = globalCounts (state sys)) :
  let fetched := step (GlobalFacetsResolved t result) sys in
  let later := run (Search <$> events) fetched in
  counts (state fetched) = globalCounts (state fetched)
  ∧ globalCounts (state later) = globalCounts (state fetched)
  ∧ counts (state (step ClearAll later)) = counts (state fetched)
  ∧ globalCounts (state (step ClearAll later)) = globalCounts (state fetched).
Proof.
  cbv zeta.
  assert (H1 : counts (state (step (GlobalFacetsResolved t result) sys))
               = globalCounts (state (step (GlobalFacetsResolved t result) sys)))
    by (simpl; by apply onGlobalFacetsResolved_counts).
  split; [exact H1|]. split; [apply run_search_globalCounts|].
  split.
  - cbn [step withState state]. rewrite handleClearAll_counts.
    rewrite run_search_globalCounts. symmetry. exact H1.
  - cbn [step withState state].
    transitivity (globalCounts
                    (state (run (Search <$> events)
                              (step (GlobalFacetsResolved t result) sys))));
      [reflexivity|apply run_search_globalCounts].
Qed.

Lemma clear_all_restores_fetched_counts_witness :
  let fetched := step (GlobalFacetsResolved (mkLabels "In stock" "Out of stock" "On backorder")
                         (IsSearchResponse shoeResponse))
                   (start initialState) in
  let later := run (Search <$> [ PerformSearch shopUrl noFilters "zzz";
                                 SearchResolved 1 (IsSearchResponse bucketlessResponse) ])
                 fetched in
  counts (state (step ClearAll later)) = counts (state fetched).
Proof.
  cbv zeta.
  assert (Hsame : counts (state (start initialState))
                  = globalCounts (state (start initialState))) by reflexivity.
  pose proof (clear_all_restores_fetched_counts (start initialState)
                (mkLabels "In stock" "Out of stock" "On backorder")
                (IsSearchResponse shoeResponse)
                [ PerformSearch shopUrl noFilters "zzz";
                  SearchResolved 1 (IsSearchResponse bucketlessResponse) ]
                Hsame) as H.
  destruct H as (_ & _ & H & _). exact H.
Defined.

(** ** Filter visibility, expanded categories *)

Section SidebarProps.
Import Handlers.

Lemma someVisible_spec (name : string) (result : list FacetConfig) :
  someVisible name result = true
  ↔ ∃ facet, facet ∈ result ∧ field facet = name ∧ visible facet = true.
Proof.
  unfold someVisible. rewrite existsb_exists. split.
  - intros (facet & Hin & [He Hv]%andb_true_iff).
    exists facet. split; [by apply list_elem_of_In|]. split; [by apply eqb_eq|done].
  - intros (facet & Hin & He & Hv). exists facet.
    split; [by apply list_elem_of_In|]. apply andb_true_iff. split; [by apply eqb_eq|done].
Qed.

Lemma someVisible_same_entries (name : string) (result result' : list FacetConfig) :
  (∀ facet, facet ∈ result ↔ facet ∈ result') →
  someVisible name result = someVisible name result'.
Proof.
  intros H. apply eq_true_iff_eq. rewrite !someVisible_spec.
  split; intros (facet & Hin & Hrest); exists facet; (split; [by apply H|done]).
Qed.

Lemma onFacetConfiguration_Some (result : list FacetConfig) (v : FilterVisibility) :
  result ≠ [] →
  onFacetConfiguration (Some result) v
  = {| show_brands := someVisible "brand" result;
       show_colors := someVisible "color" result;
       show_sizes := someVisible "size" result;
       show_tags := someVisible "tags" result;
       show_categories := someVisible "category" result;
       show_price := someVisible "price" result;
       show_stockStatus := someVisible "instock" result;
       show_featured := someVisible "featured" result;
       show_sale := someVisible "insale" result |}.
Proof. destruct result as [|x l]; [done|reflexivity]. Qed.

(** X16. Filter visibility from the vendor configuration. An absent or
    empty configuration leaves the visibility of every filter as it is.
    A non-empty one decides all nine dimensions anew, whatever they were
    before: a dimension is shown exactly when some entry carries its
    field name with [visible] true. So a dimension the configuration
    does not mention is hidden (the mandatory ones too), and neither the
    order of the entries nor their repetition matters. *)
Theorem facet_configuration_visibility (result : list FacetConfig)
    (v v0 : FilterVisibility) (d : Dimension) (result' : list FacetConfig)
    (Hresult : result ≠ []) :
  onFacetConfiguration None v = v
  ∧ onFacetConfiguration (Some []) v = v
  ∧ (shown d (onFacetConfiguration (Some result) v) = true
     ↔ ∃ facet, facet ∈ result ∧ field facet = fieldOf d ∧ visible facet = true)
  ∧ ((∀ facet, facet ∈ result → field facet ≠ fieldOf d) →
     shown d (onFacetConfiguration (Some result) v) = false)
  ∧ onFacetConfiguration (Some result) v = onFacetConfiguration (Some result) v0
  ∧ ((∀ facet, facet ∈ result ↔ facet ∈ result') →
     onFacetConfiguration (Some result') v = onFacetConfiguration (Some result) v).
Proof.
  assert (Hshown : shown d (onFacetConfiguration (Some result) v)
                   = someVisible (fieldOf d) result).
  { rewrite onFacetConfiguration_Some by done. by destruct d. }
  split; [reflexivity|]. split; [reflexivity|].
  split; [rewrite Hshown; apply someVisible_spec|].
  split; [|split].
  - intros Hnone. rewrite Hshown.
    destruct (someVisible (fieldOf d) result) eqn:E; [|done].
    apply someVisible_spec in E as (facet & Hin & He & _).
    by destruct (Hnone facet Hin).
  - by rewrite !onFacetConfiguration_Some.
  - intros Hsame.
    assert (Hne' : result' ≠ []).
    { destruct result as [|x l]; [done|].
      intros ->. by apply (not_elem_of_nil x), Hsame; left. }
    rewrite !onFacetConfiguration_Some by done.
    f_equal; symmetry; by apply someVisible_same_entries.
Qed.

Lemma facet_configuration_visibility_witness :
  shown Categories (onFacetConfiguration (Some brandOnly) initialVisibility) = false.
Proof.
  assert (Hresult : brandOnly ≠ []) by discriminate.
  pose proof (facet_configuration_visibility brandOnly initialVisibility
                initialVisibility Categories brandOnly Hresult) as H.
  destruct H as (_ & _ & _ & H & _).
  apply H. intros facet ->%list_elem_of_singleton. discriminate.
Defined.

Lemma handleCategoryExpand_elem (x categoryName : string) (prev : gset string) :
  x ∈ handleCategoryExpand categoryName prev
  ↔ (if decide (x = categoryName) then x ∉ prev else x ∈ prev).
Proof.
  unfold handleCategoryExpand.
  destruct (decide (categoryName ∈ prev)) as [Hin|Hin],
           (decide (x = categoryName)) as [->|Hne].
  - rewrite elem_of_difference, elem_of_singleton. tauto.
  - rewrite elem_of_difference, elem_of_singleton. tauto.
  - rewrite elem_of_union, elem_of_singleton. tauto.
  - rewrite elem_of_union, elem_of_singleton. tauto.
Qed.

(** X17. Expanding and collapsing a category. [handleCategoryExpand]
    flips the membership of the given name in the set of expanded
    categories and of no other name; doing it twice gives the set back,
    and the order in which two names are toggled does not matter. *)
Theorem category_expand_toggles (categoryName other : string) (prev : gset string) :
  (categoryName ∈ handleCategoryExpand categoryName prev ↔ categoryName ∉ prev)
  ∧ (other ≠ categoryName →
     (other ∈ handleCategoryExpand categoryName prev ↔ other ∈ prev))
  ∧ handleCategoryExpand categoryName (handleCategoryExpand categoryName prev) = prev
  ∧ handleCategoryExpand categoryName (handleCategoryExpand other prev)
    = handleCategoryExpand other (handleCategoryExpand categoryName prev).
Proof.
  split; [|split; [|split]].
  - rewrite handleCategoryExpand_elem. by rewrite decide_True.
  - intros Hne. rewrite handleCategoryExpand_elem. by rewrite decide_False.
  - apply set_eq. intros x.
    repeat (rewrite handleCategoryExpand_elem
            || match goal with
               | |- context [decide (?a = ?b)] => destruct (decide (a = b))
               end);
      destruct (decide (x ∈ prev)); tauto.
  - apply set_eq. intros x.
    repeat (rewrite handleCategoryExpand_elem
            || match goal with
               | |- context [decide (?a = ?b)] => destruct (decide (a = b))
               end);
      destruct (decide (x ∈ prev)); tauto.
Qed.

End SidebarProps.

(** ** The category tree *)

Section CategoryTreeProps.
Import CategoryTree.

Lemma has_get (part : string) (nodes : list (string * CategoryNode)) :
  has part nodes = true ↔ is_Some (get part nodes).
Proof.
  unfold has. induction nodes as [|[k node] rest IH]; simpl.
  - split; [done|]. by intros [? ?].
  - destruct (JsString.eqb k part); simpl; [|exact IH].
    split; [by eexists|done].
Qed.

Lemma get_app (n part : string) (x : CategoryNode) (nodes : list (string * CategoryNode)) :
  get n (nodes ++ [(part, x)])
  = match get n nodes with
    | Some y => Some y
    | None => if JsString.eqb part n then Some x else None
    end.
Proof.
  induction nodes as [|[k node] rest IH]; simpl; [done|].
  by destruct (JsString.eqb k n).
Qed.

Lemma get_descend (n part : string) (f : CategoryNode → CategoryNode)
    (nodes : list (string * CategoryNode)) :
  get n (descend part f nodes)
  = if JsString.eqb n part then f <$> get part nodes else get n nodes.
Proof.
  induction nodes as [|[k node] rest IH]; simpl.
  - by destruct (JsString.eqb n part).
  - destruct (JsString.eqb k part) eqn:Ek; simpl.
    + apply eqb_eq in Ek as ->.
      destruct (JsString.eqb n part) eqn:En.
      * apply eqb_eq in En as ->.
        assert (E : JsString.eqb part part = true) by (by apply eqb_eq).
        by rewrite E.
      * assert (E : JsString.eqb part n = false).
        { apply eqb_neq. apply eqb_neq in En. congruence. }
        by rewrite E.
    + rewrite IH. destruct (JsString.eqb n part) eqn:En.
      * apply eqb_eq in En as ->. by rewrite Ek.
      * done.
Qed.

Lemma find_cons (n : string) (ns : list string) (nodes : list (string * CategoryNode)) :
  find (n :: ns) nodes
  = match get n nodes with
    | Some node => if decide (ns = []) then Some node else find ns (children node)
    | None => None
    end.
Proof. simpl. destruct (get n nodes); [|done]. by destruct ns. Qed.

Lemma find_nil_nodes (names : list string) : find names [] = None.
Proof. by destruct names. Qed.

Lemma labelAt_cons counts cur idx n ns :
  ns ≠ [] →
  labelAt counts cur idx (n :: ns) = labelAt counts (extend cur n) (idx + 1) ns.
Proof.
  intros Hns. unfold labelAt, pathBelow. simpl foldl.
  destruct ns as [|m ms]; [done|].
  change (last (n :: m :: ms)) with (last (m :: ms)).
  f_equal. simpl length. lia.
Qed.

Lemma get_insertParts counts part rest cur idx nodes n :
  get n (insertParts counts (part :: rest) cur idx nodes)
  = if JsString.eqb n part
    then let fresh := {| name := part; fullPath := extend cur part;
                         count := orZero counts (extend cur part);
                         children := []; level := idx |} in
         let currentNode := default fresh (get part nodes) in
         Some {| name := name currentNode; fullPath := fullPath currentNode;
                 count := count currentNode;
                 children := insertParts counts rest (extend cur part) (idx + 1)
                               (children currentNode);
                 level := level currentNode |}
    else get n nodes.
Proof.
  cbn [insertParts]. cbv zeta. rewrite get_descend.
  destruct (JsString.eqb n part) eqn:En.
  - destruct (has part nodes) eqn:Hhas.
    + apply has_get in Hhas as [node Hnode]. by rewrite Hnode.
    + assert (Hnone : get part nodes = None).
      { destruct (get part nodes) eqn:E; [|done].
        assert (has part nodes = true) by (apply has_get; by eexists). congruence. }
      rewrite get_app, Hnone.
      assert (E : JsString.eqb part part = true) by (by apply eqb_eq).
      by rewrite E.
  - destruct (has part nodes); [done|].
    rewrite get_app. destruct (get n nodes); [done|].
    assert (E : JsString.eqb part n = false).
    { apply eqb_neq. apply eqb_neq in En. congruence. }
    by rewrite E.
Qed.

Lemma find_insertParts counts parts names cur idx nodes :
  names ≠ [] →
  label <$> find names (insertParts counts parts cur idx nodes)
  = match label <$> find names nodes with
    | Some l => Some l
    | None => if decide (names `prefix_of` parts)
              then Some (labelAt counts cur idx names) else None
    end.
Proof.
  revert names cur idx nodes.
  induction parts as [|part rest IH]; intros names cur idx nodes Hnames.
  - cbn [insertParts]. rewrite decide_False.
    + by destruct (label <$> find names nodes).
    + intros Hp. apply prefix_nil_inv in Hp. done.
  - destruct names as [|n ns]; [done|].
    rewrite !find_cons, get_insertParts.
    destruct (JsString.eqb n part) eqn:En.
    + apply eqb_eq in En as ->. cbv zeta.
      destruct (decide (ns = [])) as [->|Hns].
      * rewrite decide_True by (apply prefix_cons, prefix_nil).
        destruct (get part nodes) as [node|]; [reflexivity|].
        unfold label, labelAt, pathBelow. cbn.
        do 2 f_equal. lia.
      * cbn [children]. rewrite IH by done.
        destruct (get part nodes) as [node|]; cbn [from_option children].
        -- change (Datatypes.id node) with node.
           destruct (label <$> find ns (children node)); [done|].
           destruct (decide (ns `prefix_of` rest)) as [Hp|Hp].
           ++ rewrite decide_True by (by apply prefix_cons).
              by rewrite labelAt_cons.
           ++ rewrite decide_False; [done|].
              intros Hp'. by apply prefix_cons_inv_2 in Hp'.
        -- rewrite find_nil_nodes. cbn [fmap option_fmap option_map].
           destruct (decide (ns `prefix_of` rest)) as [Hp|Hp].
           ++ rewrite decide_True by (by apply prefix_cons).
              by rewrite labelAt_cons.
           ++ rewrite decide_False; [done|].
              intros Hp'. by apply prefix_cons_inv_2 in Hp'.
    + assert (Hnp : ¬ (n :: ns `prefix_of` part :: rest)).
      { intros Hp. apply prefix_cons_inv_1 in Hp. apply eqb_neq in En. done. }
      rewrite decide_False by exact Hnp.
      by destruct (label <$> _).
Qed.

Lemma find_foldl_insertParts counts (categories : list string) names nodes :
  names ≠ [] →
  label <$> find names
              (foldl (λ nodes categoryPath,
                        insertParts counts (partsOf categoryPath) EmptyString 0 nodes)
                     nodes categories)
  = match label <$> find names nodes with
    | Some l => Some l
    | None => if decide (Exists (λ c, names `prefix_of` partsOf c) categories)
              then Some (labelAt counts EmptyString 0 names) else None
    end.
Proof.
  intros Hnames. revert nodes.
  induction categories as [|c categories IH]; intros nodes.
  - cbn [foldl]. rewrite decide_False by (by intros ?%Exists_nil).
    by destruct (label <$> find names nodes).
  - simpl foldl. rewrite IH, find_insertParts by done.
    destruct (label <$> find names nodes) as [l|]; [done|].
    destruct (decide (names `prefix_of` partsOf c)) as [Hp|Hp].
    + rewrite decide_True; [done|]. by apply Exists_cons_hd.
    + destruct (decide (Exists (λ c0, names `prefix_of` partsOf c0) categories))
        as [He|He].
      * rewrite decide_True; [done|]. by apply Exists_cons_tl.
      * rewrite decide_False; [done|].
        intros [?|?]%Exists_cons; done.
Qed.

Lemma find_buildCategoryTree (categories : list string) (counts : gmap string Z)
    (names : list string) :
  names ≠ [] →
  label <$> find names (children (buildCategoryTree categories counts))
  = if decide (Exists (λ c, names `prefix_of` partsOf c) categories)
    then Some (labelAt counts EmptyString 0 names) else None.
Proof.
  intros Hnames. unfold buildCategoryTree. cbn [children].
  rewrite find_foldl_insertParts by done. by rewrite find_nil_nodes.
Qed.

(** X18. The category tree is the trie of the category paths. In the
    tree built from a list of category paths, following a non-empty list
    of names from the root reaches a node exactly when the names are a
    prefix of the trimmed [>]-separated parts of one of the paths. The
    node reached has the last name as its name, the names joined by
    [" > "] as its full path, the number of names minus one as its
    level, and as its count what [categoryCounts[fullPath] || 0] gives:
    the entry of the count map under its full path; when there is none,
    0, unless the full path names a property inherited from
    [Object.prototype] ([constructor], [toString], ...), where the field
    holds the inherited value and not a number. Nothing depends on how
    often or in which order the paths are listed. *)
Theorem category_tree_is_trie (categories : list string)
    (categoryCounts : gmap string Z) (names : list string)
    (Hnames : names ≠ []) :
  let tree := buildCategoryTree categories categoryCounts in
  (is_Some (find names (children tree))
   ↔ ∃ categoryPath, categoryPath ∈ categories
                     ∧ names `prefix_of` partsOf categoryPath)
  ∧ (∀ node, find names (children tree) = Some node →
       name node = default EmptyString (last names)
       ∧ fullPath node = pathBelow EmptyString names
       ∧ level node = Z.of_nat (length names) - 1
       ∧ count node = orZero categoryCounts (fullPath node)
       ∧ (∀ n, categoryCounts !! fullPath node = Some n → count node = Count n)
       ∧ (categoryCounts !! fullPath node = None →
          count node = if inherited (fullPath node)
                       then InheritedProperty (fullPath node) else Count 0))
  ∧ (∀ categories', (∀ c, c ∈ categories ↔ c ∈ categories') →
       label <$> find names (children (buildCategoryTree categories' categoryCounts))
       = label <$> find names (children tree)).
Proof.
  cbv zeta.
  assert (Hfind : ∀ cats,
            label <$> find names (children (buildCategoryTree cats categoryCounts))
            = if decide (Exists (λ c, names `prefix_of` partsOf c) cats)
              then Some (labelAt categoryCounts EmptyString 0 names) else None)
    by (intros cats; by apply find_buildCategoryTree).
  split; [|split].
  - rewrite <- (fmap_is_Some label), Hfind.
    destruct (decide (Exists (λ c, names `prefix_of` partsOf c) categories))
      as [He|He].
    + split; [intros _|by eexists]. by apply Exists_exists in He.
    + split; [by intros [? ?]|]. intros H. destruct He. by apply Exists_exists.
  - intros node Hnode. pose proof (Hfind categories) as H.
    rewrite Hnode in H. cbn [fmap option_fmap option_map] in H.
    destruct (decide _); [|done].
    injection H as H1 H2 H3 H4.
    assert (Hcount : count node = orZero categoryCounts (fullPath node))
      by (by rewrite H2).
    split; [done|]. split; [done|]. split; [lia|]. split; [exact Hcount|].
    rewrite Hcount. unfold orZero. split.
    + intros n Hn. by rewrite Hn.
    + intros Hn. by rewrite Hn.
  - intros categories' Hsame. rewrite !Hfind.
    destruct (decide (Exists (λ c, names `prefix_of` partsOf c) categories))
      as [He|He].
    + rewrite decide_True; [done|].
      apply Exists_exists in He as (c & Hc & Hp). apply Exists_exists.
      exists c. split; [by apply Hsame|done].
    + rewrite decide_False; [done|].
      intros (c & Hc & Hp)%Exists_exists. destruct He. apply Exists_exists.
      exists c. split; [by apply Hsame|done].
Qed.

Lemma category_tree_is_trie_witness :
  is_Some (find ["Men"; "Shoes"]
             (children (buildCategoryTree menCategories menCounts)))
  ∧ ∀ node, find ["Men"; "Shoes"]
              (children (buildCategoryTree menCategories menCounts)) = Some node →
            fullPath node = "Men > Shoes" ∧ level node = 1
            ∧ count node = Count 4.
Proof.
  assert (Hnames : ["Men"; "Shoes"] ≠ []) by discriminate.
  pose proof (category_tree_is_trie menCategories menCounts ["Men"; "Shoes"] Hnames)
    as H.
  destruct H as (H1 & H2 & _). split.
  - apply H1. exists "Men > Shoes". split; [by left|]. by exists [].
  - intros node Hnode.
    destruct (H2 node Hnode) as (_ & Hpath & Hlevel & Hcount & _).
    split; [exact Hpath|]. split; [exact Hlevel|].
    rewrite Hcount, Hpath. reflexivity.
Defined.

Lemma chars_app (a b : string) : chars (a +:+ b) = chars a ++ chars b.
Proof. induction a as [|x a IH]; [reflexivity|]. rewrite app_String. simpl. by rewrite IH. Qed.

Lemma split_app_sep (sep : Ascii.ascii) (a b : string) :
  sep ∉ chars a → split sep (a +:+ String sep b) = a :: split sep b.
Proof.
  induction a as [|c a IH]; intros Hsep.
  - change (EmptyString +:+ String sep b) with (String sep b).
    simpl. by rewrite Ascii.eqb_refl.
  - rewrite app_String. simpl in Hsep. apply not_elem_of_cons in Hsep as [Hc Ha].
    cbn [split]. rewrite (IH Ha).
    destruct (Ascii.eqb c sep) eqn:E; [|done].
    apply Ascii.eqb_eq in E. congruence.
Qed.

Lemma split_plain (sep : Ascii.ascii) (a : string) :
  sep ∉ chars a → split sep a = [a].
Proof.
  induction a as [|c a IH]; intros Hsep; [reflexivity|].
  simpl in Hsep. apply not_elem_of_cons in Hsep as [Hc Ha].
  cbn [split]. rewrite (IH Ha).
  destruct (Ascii.eqb c sep) eqn:E; [|done].
  apply Ascii.eqb_eq in E. congruence.
Qed.

Lemma trimStart_length (s : string) :
  (String.length (trimStart s) ≤ String.length s)%nat.
Proof.
  induction s as [|c s IH]; simpl; [lia|].
  destruct (isWhiteSpace c); simpl; lia.
Qed.

Lemma trimEnd_length (s : string) :
  (String.length (trimEnd s) ≤ String.length s)%nat.
Proof.
  induction s as [|c s IH]; simpl; [lia|].
  destruct (trimEnd s); [destruct (isWhiteSpace c)|]; simpl in *; lia.
Qed.

Lemma trimEnd_cons (c : Ascii.ascii) (s : string) :
  isWhiteSpace c = false → trimEnd (String c s) = String c (trimEnd s).
Proof. intros Hc. simpl. destruct (trimEnd s); [by rewrite Hc|done]. Qed.

Lemma trimEnd_space (s : string) : trimEnd (s +:+ " ") = trimEnd s.
Proof.
  induction s as [|c s IH]; [reflexivity|].
  rewrite app_String. simpl. by rewrite IH.
Qed.

Lemma trimmed_name (p : string) :
  p ≠ EmptyString → trim p = p →
  ∃ c r, p = String c r ∧ isWhiteSpace c = false ∧ trimEnd p = p.
Proof.
  intros Hne Htrim. destruct p as [|c r]; [done|].
  exists c, r. split; [done|].
  destruct (isWhiteSpace c) eqn:Hc.
  - exfalso. unfold trim in Htrim. simpl in Htrim. rewrite Hc in Htrim.
    pose proof (trimEnd_length (trimStart r)) as H1.
    pose proof (trimStart_length r) as H2.
    rewrite Htrim in H1. simpl in H1. lia.
  - split; [done|]. unfold trim in Htrim. simpl in Htrim. by rewrite Hc in Htrim.
Qed.

Lemma trim_spaced (p : string) :
  p ≠ EmptyString → trim p = p →
  trim (p +:+ " ") = p ∧ trim (" " +:+ p) = p ∧ trim ((" " +:+ p) +:+ " ") = p.
Proof.
  intros Hne Htrim.
  destruct (trimmed_name p Hne Htrim) as (c & r & -> & Hc & Hend).
  assert (H1 : trim (String c r +:+ " ") = String c r).
  { unfold trim. rewrite app_String. cbn [trimStart]. rewrite Hc.
    rewrite <- app_String, trimEnd_space. exact Hend. }
  split; [exact H1|]. split.
  - exact Htrim.
  - exact H1.
Qed.

Lemma extend_nonempty (cur m : string) :
  cur ≠ EmptyString → extend cur m = cur +:+ " > " +:+ m ∧ extend cur m ≠ EmptyString.
Proof.
  intros Hne. unfold extend. destruct cur as [|c cur]; [done|]. by split.
Qed.

Lemma pathBelow_nonempty (cur : string) (names : list string) :
  cur ≠ EmptyString → pathBelow cur names = cur +:+ tailOf names.
Proof.
  revert cur. induction names as [|m names IH]; intros cur Hne.
  - unfold pathBelow, tailOf. simpl. by rewrite app_empty_r.
  - unfold pathBelow in *. cbn [foldl].
    destruct (extend_nonempty cur m Hne) as [-> Hne'].
    rewrite IH by (by destruct cur).
    unfold tailOf. cbn [foldr]. by rewrite !app_assoc_string.
Qed.

Lemma partsOf_written (x : string) (names : list string) :
  greaterThan ∉ chars x → Forall plainName names →
  partsOf (x +:+ tailOf names)
  = (match names with [] => trim x | _ => trim (x +:+ " ") end) :: names.
Proof.
  revert x. induction names as [|m names IH]; intros x Hx Hnames.
  - unfold tailOf, partsOf. simpl foldr. rewrite app_empty_r.
    by rewrite split_plain.
  - apply Forall_cons in Hnames as [(Hne & Htrim & Hgt) Hnames].
    unfold tailOf. cbn [foldr]. fold (tailOf names).
    change (" > " +:+ m +:+ tailOf names)
      with (" " +:+ String greaterThan (" " +:+ m +:+ tailOf names)).
    rewrite <- app_assoc_string.
    unfold partsOf. rewrite split_app_sep.
    + rewrite fmap_cons. f_equal.
      rewrite <- app_assoc_string.
      change (trim <$> split greaterThan ((" " +:+ m) +:+ tailOf names))
        with (partsOf ((" " +:+ m) +:+ tailOf names)).
      rewrite IH; [|by (simpl; apply not_elem_of_cons; split; [intros [=]|])|done].
      destruct (trim_spaced m Hne Htrim) as (_ & H2 & H3).
      destruct names; by rewrite ?H2, ?H3.
    + rewrite chars_app. apply not_elem_of_app. split; [done|].
      simpl. apply not_elem_of_cons. split; [intros [=]|apply not_elem_of_nil].
Qed.

(** X19. A path as the tree writes it comes back. For names that are
    not empty, have no [>] and no white space at either end, the path
    written with [" > "] between them splits into exactly these names.
    So when that path is among the categories, the node reached by the
    names carries the path itself as its full path, which is the string
    the checkbox toggles and the key under which its count is looked
    up. *)
Theorem written_path_round_trip (names : list string) (categories : list string)
    (categoryCounts : gmap string Z)
    (Hnames : names ≠ [])
    (Hplain : Forall plainName names) :
  partsOf (pathBelow EmptyString names) = names
  ∧ (pathBelow EmptyString names ∈ categories →
     ∃ node, find names (children (buildCategoryTree categories categoryCounts))
             = Some node
             ∧ fullPath node = pathBelow EmptyString names
             ∧ count node
               = orZero categoryCounts (pathBelow EmptyString names)).
Proof.
  assert (Hparts : partsOf (pathBelow EmptyString names) = names).
  { destruct names as [|n names]; [done|].
    apply Forall_cons in Hplain as [(Hne & Htrim & Hgt) Hplain].
    unfold pathBelow. cbn [foldl].
    change (extend EmptyString n) with n.
    fold (pathBelow n names). rewrite pathBelow_nonempty by done.
    rewrite partsOf_written by done.
    destruct (trim_spaced n Hne Htrim) as (H1 & _).
    destruct names; by rewrite ?Htrim, ?H1. }
  split; [exact Hparts|].
  intros Hin.
  pose proof (find_buildCategoryTree categories categoryCounts names Hnames) as Hfind.
  rewrite decide_True in Hfind.
  - destruct (find names (children (buildCategoryTree categories categoryCounts)))
      as [node|]; [|done].
    exists node. split; [done|].
    injection Hfind as H1 H2 H3 H4. by split.
  - apply Exists_exists. exists (pathBelow EmptyString names).
    split; [done|]. by rewrite Hparts.
Qed.

Lemma written_path_round_trip_witness :
  partsOf (pathBelow EmptyString ["Men"; "Shoes"; "Running shoes"])
  = ["Men"; "Shoes"; "Running shoes"].
Proof.
  assert (Hnames : ["Men"; "Shoes"; "Running shoes"] ≠ []) by discriminate.
  assert (Hplain : Forall plainName ["Men"; "Shoes"; "Running shoes"]).
  { repeat apply Forall_cons_2; try apply Forall_nil_2;
      (split; [discriminate|split; [reflexivity|]]);
      simpl; repeat (apply not_elem_of_cons; split; [discriminate|]);
      apply not_elem_of_nil. }
  pose proof (written_path_round_trip ["Men"; "Shoes"; "Running shoes"] [] ∅
                Hnames Hplain) as H.
  destruct H as (H & _). exact H.
Defined.

End CategoryTreeProps.

(** ** The featured and sale flags of a request *)

Lemma flag_of_selection (yes no : string) (l : list string) :
  let flag :=
    if nonEmpty l then
      if includes yes l && negb (includes no l) then Some "true"
      else if includes no l && negb (includes yes l) then Some "false"
      else None
    else None in
  (flag = Some "true" ↔ yes ∈ l ∧ no ∉ l)
  ∧ (flag = Some "false" ↔ no ∈ l ∧ yes ∉ l)
  ∧ (flag = None ↔ (yes ∈ l ↔ no ∈ l)).
Proof.
  cbv zeta. rewrite <- !includes_elem.
  assert (Hempty : nonEmpty l = false →
                   includes yes l = false ∧ includes no l = false)
    by (destruct l; [done|discriminate]).
  destruct (nonEmpty l).
  - destruct (includes yes l), (includes no l); cbn [andb negb];
      intuition discriminate.
  - destruct Hempty as [-> ->]; [done|]. intuition discriminate.
Qed.

(** X20. The featured and sale flags of a request. Both the search
    request and the load-more request carry [featured = "true"] exactly
    when the selection contains "Featured" and not "Not Featured",
    ["false"] exactly when it contains "Not Featured" and not
    "Featured", and no [featured] parameter otherwise: nothing
    selected, both selected, or only other strings selected (the
    checkboxes store their displayed labels). The same holds for
    [insale] with "On Sale" and "Not On Sale". A selection that sends no
    flag still counts as an active filter for the zero-result
    fallback. *)
Theorem boolean_filter_flags (storeUrl query : string) (f : FilterState)
    (maxPrice currentPage : Z) :
  let search := searchParamsOf storeUrl f maxPrice query in
  let more := loadMoreParams storeUrl f query currentPage in
  featured more = featured search ∧ insale more = insale search
  ∧ (featured search = Some "true"
     ↔ "Featured" ∈ featuredProducts f ∧ "Not Featured" ∉ featuredProducts f)
  ∧ (featured search = Some "false"
     ↔ "Not Featured" ∈ featuredProducts f ∧ "Featured" ∉ featuredProducts f)
  ∧ (featured search = None
     ↔ ("Featured" ∈ featuredProducts f ↔ "Not Featured" ∈ featuredProducts f))
  ∧ (insale search = Some "true"
     ↔ "On Sale" ∈ saleStatus f ∧ "Not On Sale" ∉ saleStatus f)
  ∧ (insale search = Some "false"
     ↔ "Not On Sale" ∈ saleStatus f ∧ "On Sale" ∉ saleStatus f)
  ∧ (insale search = None
     ↔ ("On Sale" ∈ saleStatus f ↔ "Not On Sale" ∈ saleStatus f))
  ∧ (featuredProducts f ≠ [] ∨ saleStatus f ≠ [] →
     hasActiveNonPriceFilters f = true).
Proof.
  cbv zeta. cbn [featured insale searchParamsOf loadMoreParams].
  destruct (flag_of_selection "Featured" "Not Featured" (featuredProducts f))
    as (F1 & F2 & F3).
  destruct (flag_of_selection "On Sale" "Not On Sale" (saleStatus f))
    as (S1 & S2 & S3).
  repeat (split; [done|]).
  intros [H|H]; apply nonEmpty_true in H; unfold hasActiveNonPriceFilters;
    rewrite H; by rewrite ?orb_true_r.
Qed.

Lemma boolean_filter_flags_witness :
  featured (searchParamsOf shopUrl translatedFeatured 10000 EmptyString) = None
  ∧ hasActiveNonPriceFilters translatedFeatured = true.
Proof.
  pose proof (boolean_filter_flags shopUrl EmptyString translatedFeatured 10000 1) as H.
  destruct H as (_ & _ & _ & _ & H1 & _ & _ & _ & H2).
  split.
  - apply H1. split; intros Hin; exfalso;
      apply list_elem_of_singleton in Hin; discriminate.
  - apply H2. left. discriminate.
Defined.

(** ** Removing recent searches *)

(** X21. Removing recent searches. Removing an entry takes exactly that
    string out of the list and keeps the others in their order, so a
    list without duplicates of at most ten entries stays one; a search
    for the removed string, recorded afterwards, puts it first again.
    Clearing empties the list, and the effect that persists the list
    then removes the stored item instead of storing an empty list. *)
Theorem recent_search_removal (search : string) (s : State)
    (Hdistinct : NoDup (recentSearches s))
    (Hbound : (length (recentSearches s) ≤ 10)%nat)
    (Hsearch : search ≠ EmptyString ∧ trim search = search) :
  let removed := handleRemoveRecentSearch search s in
  (search ∉ recentSearches removed)
  ∧ (∀ x, x ≠ search → (x ∈ recentSearches removed ↔ x ∈ recentSearches s))
  ∧ recentSearches removed `sublist_of` recentSearches s
  ∧ NoDup (recentSearches removed)
  ∧ (length (recentSearches removed) ≤ 10)%nat
  ∧ recentSearches (addToRecentSearches search removed)
    = search :: take 9 (recentSearches removed)
  ∧ recentSearches (handleClearRecentSearches s) = []
  ∧ persistedRecentSearches (handleClearRecentSearches s) = None.
Proof.
  cbv zeta. destruct Hsearch as [Hne Htrim].
  change (recentSearches (handleRemoveRecentSearch search s))
    with (filter (λ item, item ≠ search) (recentSearches s)).
  assert (Hout : search ∉ filter (λ item, item ≠ search) (recentSearches s)).
  { intros [H _]%list_elem_of_filter. done. }
  split; [exact Hout|]. split; [|split; [|split; [|split; [|split]]]].
  - intros x Hx. rewrite list_elem_of_filter. tauto.
  - apply sublist_filter.
  - by apply NoDup_filter.
  - etrans; [apply length_filter|exact Hbound].
  - rewrite addToRecentSearches_step, Htrim.
    change (recentSearches (handleRemoveRecentSearch search s))
      with (filter (λ item, item ≠ search) (recentSearches s)).
    assert (Ht : truthy search = true) by (by destruct search).
    assert (Hi : includes search (filter (λ item, item ≠ search) (recentSearches s))
                 = false).
    { destruct (includes search _) eqn:E; [|done]. by apply includes_elem in E. }
    by rewrite Ht, Hi.
  - done.
Qed.

Lemma recent_search_removal_witness :
  recentSearches (addToRecentSearches "hat"
                    (handleRemoveRecentSearch "hat"
                       (recorded ["hat"; "cap"] initialState)))
  = "hat" :: take 9 (recentSearches (handleRemoveRecentSearch "hat"
                                       (recorded ["hat"; "cap"] initialState))).
Proof.
  assert (Hdistinct : NoDup (recentSearches (recorded ["hat"; "cap"] initialState))).
  { change (recentSearches (recorded ["hat"; "cap"] initialState)) with ["cap"; "hat"].
    apply NoDup_cons. split; [|apply NoDup_singleton].
    intros H%list_elem_of_singleton. discriminate. }
  assert (Hbound : (length (recentSearches (recorded ["hat"; "cap"] initialState))
                    ≤ 10)%nat) by (vm_compute; lia).
  assert (Hsearch : "hat" ≠ EmptyString ∧ trim "hat" = "hat")
    by (split; [discriminate|reflexivity]).
  pose proof (recent_search_removal "hat" (recorded ["hat"; "cap"] initialState)
                Hdistinct Hbound Hsearch) as H.
  destruct H as (_ & _ & _ & _ & _ & H & _). exact H.
Defined.

(** ** A page that arrives after a new search was issued *)

(** X22. Load-more responses are applied whatever search is current.
    When a page requested by [loadMoreProducts] arrives after a new
    search was issued, its products become the displayed list and the
    page number goes from 1 to 2. The response of the new search then
    replaces the list but not the page number: with more results
    announced, the next [loadMoreProducts] asks for page 3 of the new
    search. *)
Theorem stale_page_is_applied (storeUrl query : string) (f : FilterState)
    (s : State) (pm : PendingMore) (stale first : SearchResponse)
    (Hurl : truthy storeUrl = true)
    (Hstale : products stale ≠ [])
    (Hfirst : total first ≠ 0 ∧ hasMore first = true) :
  match performSearch storeUrl f query s with
  | (s1, Some p) =>
      let s2 := onLoadMoreResolved pm (IsSearchResponse stale) s1 in
      filteredProducts (results s2) = withStoreUrl (pm_storeUrl pm) <$> products stale
      ∧ currentPage (ctl s2) = 2
      ∧ match onSearchResolved p (IsSearchResponse first) s2 with
        | (s3, None) =>
            filteredProducts (results s3) = withStoreUrl storeUrl <$> products first
            ∧ currentPage (ctl s3) = 2
            ∧ ∃ pm', snd (loadMoreProducts storeUrl f query s3) = Some pm'
                     ∧ page (pm_params pm') = 3
        | (_, Some _) => False
        end
  | (_, None) => False
  end.
Proof.
  destruct Hfirst as [Htotal Hmore].
  destruct (performSearch_issues storeUrl f query s Hurl)
    as (s1 & p & E & Hid & Hnew & Hp_url & Hp_f & Hlist & Hhas & Hlm & Hpage & _).
  rewrite E. cbv zeta.
  destruct (onLoadMoreResolved_page pm stale s1 Hstale) as (L1 & L2 & L3 & L4).
  rewrite L1, L2, Hlist, Hpage. split; [reflexivity|]. split; [reflexivity|].
  set (s2 := onLoadMoreResolved pm (IsSearchResponse stale) s1) in *.
  assert (Hcur : currentRequestId p = searchRequestIdRef (ctl s2)).
  { rewrite Hid. unfold s2. by rewrite onLoadMoreResolved_generation. }
  assert (Hno : (o_total (outcomeOf (IsSearchResponse first)) =? 0)
                && hasActiveNonPriceFilters (ps_debouncedFilters p) = false).
  { cbn [outcomeOf o_total]. apply Z.eqb_neq in Htotal. by rewrite Htotal. }
  rewrite (onSearchResolved_applied p (IsSearchResponse first) s2 Hcur Hno).
  destruct (applied_paging (ps_storeUrl p) (outcomeOf (IsSearchResponse first))
              (readResponse (IsSearchResponse first) s2)) as (P1 & P2 & _).
  rewrite readResponse_isLoadingMore in P1. rewrite readResponse_currentPage in P2.
  set (s3 := finallySearch _) in *.
  assert (R : results s3
              = {| filteredProducts := withStoreUrl storeUrl <$> products first;
                   totalProducts := total first;
                   displayedProducts :=
                     Z.of_nat (length (withStoreUrl storeUrl <$> products first));
                   hasMoreProducts := hasMore first;
                   searchMessage := message first;
                   isShowingRecommended := showingRecommended first |}).
  { unfold s3. rewrite applied_results, Hp_url. reflexivity. }
  split; [by rewrite R|]. split; [by rewrite P2, L2, Hpage|].
  rewrite loadMoreProducts_issues;
    [|by rewrite P1|by rewrite R|done].
  eexists. split; [reflexivity|].
  cbn [pm_params loadMoreParams page]. rewrite P2, L2, Hpage. reflexivity.
Qed.

Lemma stale_page_is_applied_witness :
  match performSearch shopUrl noFilters "cap" initialState with
  | (s1, Some p) =>
      let s2 := onLoadMoreResolved
                  (mkPendingMore shopUrl (loadMoreParams shopUrl noFilters "hat" 1))
                  (IsSearchResponse stalePage) s1 in
      filteredProducts (results s2)
      = withStoreUrl (pm_storeUrl
                        (mkPendingMore shopUrl
                           (loadMoreParams shopUrl noFilters "hat" 1)))
          <$> products stalePage
      ∧ currentPage (ctl s2) = 2
      ∧ match onSearchResolved p (IsSearchResponse firstPage) s2 with
        | (s3, None) =>
            filteredProducts (results s3) = withStoreUrl shopUrl <$> products firstPage
            ∧ currentPage (ctl s3) = 2
            ∧ ∃ pm', snd (loadMoreProducts shopUrl noFilters "cap" s3) = Some pm'
                     ∧ page (pm_params pm') = 3
        | (_, Some _) => False
        end
  | (_, None) => False
  end.
Proof.
  assert (Hurl : truthy shopUrl = true) by reflexivity.
  assert (Hstale : products stalePage ≠ []) by discriminate.
  assert (Hfirst : total firstPage ≠ 0 ∧ hasMore firstPage = true)
    by (split; [discriminate|reflexivity]).
  pose proof (stale_page_is_applied shopUrl "cap" noFilters initialState
                (mkPendingMore shopUrl (loadMoreParams shopUrl noFilters "hat" 1))
                stalePage firstPage Hurl Hstale Hfirst) as H.
  exact H.
Defined.

(** ** The global facet fetch runs once *)

Lemma applyGlobalFacets_fetched t fp ps s :
  globalFacetsFetched (ctl (applyGlobalFacets t fp ps s)) = globalFacetsFetched (ctl s).
Proof.
  unfold applyGlobalFacets, setWhenBuckets.
  repeat match goal with
         | |- context [nonEmpty (extractFacetBuckets ?f)] =>
             destruct (nonEmpty (extractFacetBuckets f))
         end;
    destruct (globalMaxPrice fp ps); reflexivity.
Qed.

Lemma onGlobalFacetsResolved_fetched t result s :
  globalFacetsFetched (ctl (onGlobalFacetsResolved t result s)) = true.
Proof.
  unfold onGlobalFacetsResolved.
  destruct result as [r| |]; [|reflexivity..].
  destruct (facets r); [|reflexivity].
  by rewrite applyGlobalFacets_fetched.
Qed.

Lemma onSearchResolved_fetched p result s :
  globalFacetsFetched (ctl (fst (onSearchResolved p result s)))
  = globalFacetsFetched (ctl s).
Proof.
  destruct (readResponse_frame result s) as (_ & _ & _ & _ & _ & _ & Hseq).
  assert (H : globalFacetsFetched (ctl (readResponse result s))
              = globalFacetsFetched (ctl s)).
  { unfold sequencing in Hseq. by injection Hseq. }
  unfold onSearchResolved.
  repeat match goal with
         | |- context [if ?c then _ else _] => destruct c
         end; simpl; by rewrite ?H.
Qed.

Lemma step_fetched e sys :
  globalFacetsFetched (ctl (state sys)) = true →
  globalFacetsFetched (ctl (state (step e sys))) = true.
Proof.
  intros H. destruct e as [e| |t result]; simpl;
    [|exact H|apply onGlobalFacetsResolved_fetched].
  destruct e as [url f query | id result | id error | id result | id
                | url f query | i result | i]; simpl.
  - unfold performSearch. by destruct (truthy url).
  - destruct (searches sys !! id) as [p|]; [|exact H].
    pose proof (onSearchResolved_fetched p result (state sys)) as H'.
    destruct (onSearchResolved p result (state sys)) as [s' [pf|]];
      simpl in *; congruence.
  - destruct (searches sys !! id) as [p|]; [|exact H].
    by destruct error.
  - by destruct (fallbacks sys !! id) as [pf|].
  - by destruct (fallbacks sys !! id) as [pf|].
  - unfold loadMoreProducts. by destruct (_ || _ || _).
  - destruct (mores sys !! i) as [pm|]; [|exact H]. simpl.
    unfold onLoadMoreResolved. destruct (pageOf result) as [ps more].
    by destruct (nonEmpty ps).
  - by destruct (mores sys !! i) as [pm|].
Qed.

Lemma run_fetched events sys :
  globalFacetsFetched (ctl (state sys)) = true →
  globalFacetsFetched (ctl (state (run events sys))) = true.
Proof.
  revert sys. induction events as [|e events IH]; intros sys H; [exact H|].
  change (run (e :: events) sys) with (run events (step e sys)).
  apply IH. by apply step_fetched.
Qed.

(** X23. The global facet fetch runs once. Once its request has
    resolved, with whatever response (one that is not a search response
    included), [fetchGlobalFacets] issues no request any more: no search
    event, load-more event or clear-all that follows resets the flag.
    Before, it issues one exactly when a store URL is set. *)
Theorem global_facets_fetched_once (sys : System) (t : StockLabels)
    (result : ApiResult) (events : list Event) (storeUrl : string) :
  fetchGlobalFacets storeUrl
    (state (run events (step (GlobalFacetsResolved t result) sys))) = false
  ∧ (globalFacetsFetched (ctl (state sys)) = false →
     fetchGlobalFacets storeUrl (state sys) = truthy storeUrl).
Proof.
  split.
  - assert (H : globalFacetsFetched
                  (ctl (state (run events (step (GlobalFacetsResolved t result) sys))))
                = true).
    { apply run_fetched. apply (onGlobalFacetsResolved_fetched t result (state sys)). }
    unfold fetchGlobalFacets. rewrite H. by rewrite andb_false_r.
  - intros H. unfold fetchGlobalFacets. rewrite H. by rewrite andb_true_r.
Qed.

Lemma global_facets_fetched_once_witness :
  fetchGlobalFacets shopUrl (state (start initialState)) = truthy shopUrl.
Proof.
  assert (H : globalFacetsFetched (ctl (state (start initialState))) = false)
    by reflexivity.
  pose proof (global_facets_fetched_once (start initialState)
                (mkLabels "In stock" "Out of stock" "On backorder")
                Unexpected [ClearAll] shopUrl) as H'.
  destruct H' as (_ & H'). exact (H' H).
Defined.
